(** * Data union server: members, Merkle commitment, watcher playback guard
      and block summaries.

    Shallow embedding of [src/member.js], [src/merkletree/api.js], the guard
    of [MonoplasmaWatcher.playbackUntilBlock] in [src/watcher.js] and the
    block summaries of the watcher and of the communities router.

    JavaScript numbers that the code only uses as integers are integers [Z];
    the 32-bit operators [<<], [>>] and [^] wrap as in the language. *)

From Stdlib Require Import ZArith String Ascii List Lia ZifyNat Bool DecimalString.
From Stdlib.Strings Require Byte.
From stdpp Require Import base option list gmap strings.

Local Open Scope string_scope.
Local Open Scope list_scope.
Local Open Scope Z_scope.

(** ** Outcome of a call: a value, a thrown exception, or a loop that is
    still running when the step budget is used up.

    Every loop that the source writes with [while] or [for] takes a budget
    [fuel] of rounds; a call never returns when it is [OutOfFuel] for every
    budget. *)

(** What is thrown: an error of the language with its message, or the error
    that ethers' utils throw for an argument they refuse (code
    INVALID_ARGUMENT), which records a reason and the offending value. *)
Inductive exn : Type :=
| Error (message : string)
| TypeError (message : string)
| RangeError (message : string)
| ReferenceError (message : string)
| InvalidArgument (reason : string) (value : string).

Inductive outcome (A : Type) : Type :=
| Return (a : A)
| Throw (e : exn)
| OutOfFuel.

Arguments Return {A} a.
Arguments Throw {A} e.
Arguments OutOfFuel {A}.

#[global] Instance outcome_bind : MBind outcome := fun A B k c =>
  match c with
  | Return a => k a
  | Throw e => Throw e
  | OutOfFuel => OutOfFuel
  end.

Fixpoint mapM {A B : Type} (f : A -> outcome B) (l : list A) : outcome (list B) :=
  match l with
  | [] => Return []
  | a :: l' => b ← f a; bs ← mapM f l'; Return (b :: bs)
  end.

(** ** JavaScript 32-bit integer operators *)

Module Int32.

(** ToInt32 *)
Definition wrap (z : Z) : Z := (z + 2 ^ 31) mod 2 ^ 32 - 2 ^ 31.

(** [a << n] *)
Definition shl (a n : Z) : Z := wrap (Z.shiftl (wrap a) (n mod 32)).

(** [a >> n] *)
Definition sar (a n : Z) : Z := Z.shiftr (wrap a) (n mod 32).

(** [a ^ b] *)
Definition xor (a b : Z) : Z := wrap (Z.lxor (wrap a) (wrap b)).

End Int32.

(** ** Strings of digits *)

(** Number to string, for the integers the code concatenates into strings. *)
Definition decimal (n : Z) : string := NilZero.string_of_int (Z.to_int n).

Definition hexDigit (n : Z) : ascii :=
  match n with
  | 0 => "0" | 1 => "1" | 2 => "2" | 3 => "3" | 4 => "4" | 5 => "5" | 6 => "6" | 7 => "7"
  | 8 => "8" | 9 => "9" | 10 => "a" | 11 => "b" | 12 => "c" | 13 => "d" | 14 => "e"
  | _ => "f"
  end%char.

Definition hexValue (c : ascii) : option Z :=
  let n := Z.of_N (N_of_ascii c) in
  if (48 <=? n) && (n <=? 57) then Some (n - 48)
  else if (97 <=? n) && (n <=? 102) then Some (n - 87)
  else if (65 <=? n) && (n <=? 70) then Some (n - 55)
  else None.

Definition isLowerHexDigit (c : ascii) : bool :=
  let n := Z.of_N (N_of_ascii c) in
  ((48 <=? n) && (n <=? 57)) || ((97 <=? n) && (n <=? 102)).

Definition isUpperHexDigit (c : ascii) : bool :=
  let n := Z.of_N (N_of_ascii c) in
  ((48 <=? n) && (n <=? 57)) || ((65 <=? n) && (n <=? 70)).

Definition isHexDigit (c : ascii) : bool := isLowerHexDigit c || isUpperHexDigit c.

Definition toLowerChar (c : ascii) : ascii :=
  let n := N_of_ascii c in
  if ((65 <=? n) && (n <=? 90))%N then ascii_of_N (n + 32) else c.

Fixpoint toLowerCase (s : string) : string :=
  match s with
  | EmptyString => EmptyString
  | String c s' => String (toLowerChar c) (toLowerCase s')
  end.

Fixpoint allChars (p : ascii -> bool) (s : string) : bool :=
  match s with
  | EmptyString => true
  | String c s' => p c && allChars p s'
  end.

Fixpoint zeros (n : nat) : string :=
  match n with
  | O => EmptyString
  | S n' => String "0" (zeros n')
  end.

(** [s.slice(n)] for [0 <= n]. *)
Fixpoint slice (n : nat) (s : string) : string :=
  match n, s with
  | O, _ => s
  | S n', String _ s' => slice n' s'
  | S _, EmptyString => EmptyString
  end.

(** ** bn.js big numbers, as integers *)

Module BN.

Definition t : Type := Z.

(** [new BN(x)] for a JavaScript number [x] that is an integer: bn.js asserts
    that the magnitude of a number is below 2^53. *)
Definition ofNumber (x : Z) : outcome t :=
  if Z.abs x <? 2 ^ 53 then Return x else Throw (Error "Assertion failed").

(** [new BN(b)] for a BN [b] is [b] itself. *)
Definition ofBN (b : t) : t := b.

(** What [addRevenue] hands to [new BN]: a number or a BN. (The decimal text
    of a plain object is read by the [newBN] of the section on plain objects
    below.) *)
Inductive input : Type :=
| Number (n : Z)
| Big (b : t).

Definition new (x : input) : outcome t :=
  match x with
  | Number n => ofNumber n
  | Big b => Return (ofBN b)
  end.

Definition add (a b : t) : t := a + b.
Definition sub (a b : t) : t := a - b.
Definition gt (a b : t) : bool := a >? b.

(** The hexadecimal digits of a positive number, most significant first. *)
Fixpoint hexDigits (fuel : nat) (n : Z) (out : string) : string :=
  match fuel with
  | O => out
  | S fuel' =>
      if n =? 0 then out
      else hexDigits fuel' (n / 16) (String (hexDigit (n mod 16)) out)
  end.

(** [while (out.length % padding !== 0) out = '0' + out]; fewer than [padding]
    rounds are ever needed. *)
Fixpoint padLoop (fuel : nat) (padding : nat) (out : string) : string :=
  match fuel with
  | O => out
  | S fuel' =>
      if (String.length out mod padding =? 0)%nat then out
      else padLoop fuel' padding (String "0" out)
  end.

(** [n.toString(16, padding)]: the digits of [|n|] ("0" for zero), zeros on the
    left up to a multiple of [padding] digits, and the sign. *)
Definition toString16 (n : t) (padding : nat) : string :=
  let a := Z.abs n in
  let out := if a =? 0 then "0" else hexDigits (S (Z.to_nat (Z.log2 a))) a "" in
  let out := padLoop padding padding out in
  if n <? 0 then String "-" out else out.

(** [n.toString(10)] *)
Definition toString10 (n : t) : string := decimal n.

End BN.

(** ** Members ([src/member.js]) *)

Module Member.

Record MonoplasmaMember : Type := mkMember {
  name : string;
  address : string;
  earnings : BN.t;
  active : bool
}.

Section WithIsAddress.

(** [isAddress] of web3's utils. *)
Variable isAddress : string -> bool.

Definition validateAddress (address : string) : outcome string :=
  let extended := if (String.length address =? 40)%nat then "0x" +:+ address else address in
  if negb (isAddress extended) then Throw (Error ("Bad Ethereum address: " +:+ address))
  else Return extended.

(** [new MonoplasmaMember(name, address, earnings, active = true)]; an argument
    left out or undefined is [None]. *)
Definition new (name : option string) (address : string) (earnings : option Z)
    (active : option bool) : outcome MonoplasmaMember :=
  let name' := match name with Some n => n | None => "" end in
  address' ← validateAddress address;
  earnings' ← match earnings with
              | Some e => if e =? 0 then BN.ofNumber 0 else BN.ofNumber e
              | None => BN.ofNumber 0
              end;
  let active' := match active with Some b => b | None => true end in
  Return (mkMember name' address' earnings' active').

End WithIsAddress.

Definition getEarningsAsString (m : MonoplasmaMember) : string := BN.toString10 (earnings m).

(** The member is changed in place, so it is handed back whatever the
    outcome: when [new BN(amount)] throws, the earnings are as they were. *)
Definition addRevenue (m : MonoplasmaMember) (amount : BN.input)
    : outcome unit * MonoplasmaMember :=
  match BN.new amount with
  | Return a => (Return tt, mkMember (name m) (address m) (BN.add (earnings m) a) (active m))
  | Throw e => (Throw e, m)
  | OutOfFuel => (OutOfFuel, m)
  end.

Definition isActive (m : MonoplasmaMember) : bool := active m.

Definition setActive (m : MonoplasmaMember) (activeState : bool) : MonoplasmaMember :=
  mkMember (name m) (address m) (earnings m) activeState.

Definition toHashableString (m : MonoplasmaMember) : string :=
  address m +:+ BN.toString16 (earnings m) 64.

(** A run of [addRevenue] calls on one member, stopping at the first one that
    throws; the additions made before it stay. *)
Fixpoint addRevenues (m : MonoplasmaMember) (amounts : list BN.input)
    : outcome unit * MonoplasmaMember :=
  match amounts with
  | [] => (Return tt, m)
  | amount :: rest =>
      match addRevenue m amount with
      | (Return _, m') => addRevenues m' rest
      | (Throw e, m') => (Throw e, m')
      | (OutOfFuel, m') => (OutOfFuel, m')
      end
  end.

End Member.

(** ** Node buffers *)

Module Buffer.

Definition t : Type := list Byte.byte.

(** [Buffer.alloc(n)] *)
Definition alloc (n : nat) : t := replicate n Byte.x00.

Definition byteValue (b : Byte.byte) : Z := Z.of_N (Byte.to_N b).

Definition byteOfValue (n : Z) : Byte.byte :=
  match Byte.of_N (Z.to_N n) with
  | Some b => b
  | None => Byte.x00
  end.

(** [a.compare(b)]: -1, 0 or 1 by the first differing byte, a proper prefix
    coming first. *)
Fixpoint compare (a b : t) : Z :=
  match a, b with
  | [], [] => 0
  | [], _ :: _ => -1
  | _ :: _, [] => 1
  | x :: a', y :: b' =>
      if byteValue x <? byteValue y then -1
      else if byteValue y <? byteValue x then 1
      else compare a' b'
  end.

(** [Buffer.from(s, "hex")]: whole pairs of hex digits, up to the first pair
    that is not one. *)
Fixpoint fromHex (s : string) : t :=
  match s with
  | String c1 (String c2 rest) =>
      match hexValue c1, hexValue c2 with
      | Some hi, Some lo => byteOfValue (16 * hi + lo) :: fromHex rest
      | _, _ => []
      end
  | _ => []
  end.

(** [b.toString("hex")] *)
Fixpoint toHex (b : t) : string :=
  match b with
  | [] => ""
  | x :: b' =>
      String (hexDigit (byteValue x / 16)) (String (hexDigit (byteValue x mod 16)) (toHex b'))
  end.

(** [Buffer.concat([a, b])] *)
Definition concat (a b : t) : t := a ++ b.

End Buffer.

(** What the hashing functions accept: a string or a buffer. *)
Inductive BytesLike : Type :=
| OfString (s : string)
| OfBuffer (b : Buffer.t).

(** ** The Merkle tree ([src/merkletree/api.js]) *)

(** An element of the [hashes] array: a hole left by [new Array(n)], the
    number stored at index 0, or a digest. *)
Inductive cell : Type :=
| Hole
| Num (n : Z)
| Buf (b : Buffer.t).

(** [!!c] *)
Definition truthy (c : cell) : bool :=
  match c with
  | Hole => false
  | Num n => negb (n =? 0)
  | Buf _ => true
  end.

(** Arrays of cells. Reading outside the array gives undefined; writing at or
    past the end extends it with holes. The code never uses a negative index. *)
Module Array.

Definition new (n : Z) : outcome (list cell) :=
  if (n <? 0) || (n >? 2 ^ 32 - 1) then Throw (RangeError "Invalid array length")
  else Return (replicate (Z.to_nat n) Hole).

Definition get (a : list cell) (i : Z) : cell :=
  if i <? 0 then Hole
  else match a !! Z.to_nat i with
       | Some c => c
       | None => Hole
       end.

Definition set (a : list cell) (i : Z) (v : cell) : list cell :=
  if i <? 0 then a
  else if (Z.to_nat i <? length a)%nat then <[Z.to_nat i := v]> a
  else a ++ replicate (Z.to_nat i - length a)%nat Hole ++ [v].

End Array.

(** The [blockNumber] argument of [hashLeaf]: a string or a number. *)
Inductive salt : Type :=
| SaltString (s : string)
| SaltNumber (n : Z).

Definition saltText (b : salt) : string :=
  match b with
  | SaltString s => s
  | SaltNumber n => decimal n
  end.

Module MerkleTree.

(** The own properties of [indexOf], a plain object used as a map. Reading
    and writing it go through [readIndex] and [writeIndex], which account for
    the names that every object inherits. *)
Record tree : Type := mkTree {
  hashes : list cell;
  indexOf : gmap string Z
}.

(** The names that an object literal inherits from [Object.prototype]. *)
Definition inheritedNames : list string :=
  ["constructor"; "__proto__"; "hasOwnProperty"; "isPrototypeOf"; "propertyIsEnumerable";
   "toLocaleString"; "toString"; "valueOf"; "__defineGetter__"; "__defineSetter__";
   "__lookupGetter__"; "__lookupSetter__"].

Definition inherited (name : string) : bool := existsb (String.eqb name) inheritedNames.

(** What [indexOf[address]] evaluates to: the number stored under an own
    property, a function or object inherited under one of the names above, or
    undefined. *)
Inductive property : Type :=
| Own (index : Z)
| Inherited
| Missing.

Definition readIndex (indexOf : gmap string Z) (address : string) : property :=
  match indexOf !! address with
  | Some index => Own index
  | None => if inherited address then Inherited else Missing
  end.

(** [indexOf[address] = i]: an assignment to "__proto__" goes to the setter of
    the prototype, which ignores a number. *)
Definition writeIndex (indexOf : gmap string Z) (address : string) (i : Z) : gmap string Z :=
  if String.eqb address "__proto__" then indexOf else <[address := i]> indexOf.

Definition MAX_POW_2 : Z := 2 ^ 32.

(** [while (i < x) { i <<= 1 }] *)
Fixpoint roundUpLoop (fuel : nat) (i x : Z) : outcome Z :=
  match fuel with
  | O => OutOfFuel
  | S fuel' => if i <? x then roundUpLoop fuel' (Int32.shl i 1) x else Return i
  end.

Definition roundUpToPowerOfTwo (fuel : nat) (x : Z) : outcome Z :=
  if x >? MAX_POW_2 then
    Throw (Error ("Number too big: " +:+ decimal x +:+ ". Must be smaller than 2^32."))
  else roundUpLoop fuel 1 x.

(** [arrayify] of ethers' utils (version 4), which [keccak256] applies to its
    argument: a buffer is taken as it is; a string has to match
    [/^(0x)?[0-9a-fA-F]*$/] and to have the prefix, and is then read as hex
    digits, with a zero put before an odd number of them. Any other string
    makes it throw an error of the library, with the code INVALID_ARGUMENT,
    a reason and the string itself as the offending value. *)
Definition arrayify (data : BytesLike) : outcome Buffer.t :=
  match data with
  | OfBuffer b => Return b
  | OfString s =>
      if String.prefix "0x" s && allChars isHexDigit (slice 2 s) then
        let digits := slice 2 s in
        Return (Buffer.fromHex (if (String.length digits mod 2 =? 0)%nat then digits
                                else "0" +:+ digits))
      else if allChars isHexDigit s then
        Throw (InvalidArgument "hex string must have 0x prefix" s)
      else Throw (InvalidArgument "invalid hexidecimal string" s)
  end.

Section WithKeccak.

(** [keccak_256] of js-sha3, the hash function under ethers' [keccak256]: from
    bytes to the 64 hex digits of their digest. *)
Variable keccak_256 : Buffer.t -> string.

(** [keccak256] of ethers' utils: ["0x" + sha3.keccak_256(arrayify(data))]. *)
Definition keccak256 (data : BytesLike) : outcome string :=
  bytes ← arrayify data; Return ("0x" +:+ keccak_256 bytes).

Definition hash (data : BytesLike) : outcome Buffer.t :=
  text ← keccak256 data; Return (Buffer.fromHex (slice 2 text)).

Definition hashLeaf (member : Member.MonoplasmaMember) (blockNumber : salt)
    : outcome Buffer.t :=
  let data := saltText blockNumber +:+ Member.address member
              +:+ BN.toString16 (BN.ofBN (Member.earnings member)) 64 in
  hash (OfString data).

Definition hashCombined (data1 data2 : BytesLike) : outcome Buffer.t :=
  let data1 := match data1 with
               | OfString s => Buffer.fromHex (if String.prefix "0x" s then slice 2 s else s)
               | OfBuffer b => b
               end in
  let data2 := match data2 with
               | OfString s => Buffer.fromHex (if String.prefix "0x" s then slice 2 s else s)
               | OfBuffer b => b
               end in
  hash (OfBuffer (Buffer.concat data1 data2)).

(** The [forEach] that places the leaves: the key is written before the leaf
    is hashed, and a leaf that cannot be hashed ends the build. *)
Fixpoint placeLeaves (leafContents : list Member.MonoplasmaMember) (hashes : list cell)
    (indexOf : gmap string Z) (i : Z) : outcome (list cell * gmap string Z) :=
  match leafContents with
  | [] => Return (hashes, indexOf)
  | m :: rest =>
      let indexOf := writeIndex indexOf (Member.address m) i in
      leaf ← hashLeaf m (SaltString "");
      placeLeaves rest (Array.set hashes i (Buf leaf)) indexOf (i + 1)
  end.

(** The [while (sourceI < endI)] loop over one level of the tree. *)
Fixpoint pairLoop (fuel : nat) (hashes : list cell) (sourceI targetI endI : Z)
    : outcome (list cell) :=
  match fuel with
  | O => OutOfFuel
  | S fuel' =>
      if sourceI <? endI then
        let hash1 := Array.get hashes sourceI in
        let hash2 := Array.get hashes (sourceI + 1) in
        if negb (truthy hash1) then Return hashes
        else if negb (truthy hash2) then
          let hashes := Array.set hashes (sourceI + 1) (Buf (Buffer.alloc 32)) in
          Return (Array.set hashes targetI hash1)
        else
          match hash1, hash2 with
          | Buf h1, Buf h2 =>
              parent ← (if Buffer.compare h1 h2 =? -1
                        then hashCombined (OfBuffer h1) (OfBuffer h2)
                        else hashCombined (OfBuffer h2) (OfBuffer h1));
              pairLoop fuel' (Array.set hashes targetI (Buf parent))
                (sourceI + 2) (targetI + 1) endI
          | Buf _, _ => Throw (TypeError "argument must be an instance of Buffer")
          | _, _ => Throw (TypeError "hash1.compare is not a function")
          end
      else Return hashes
  end.

(** The [for (startI = branchCount, endI = treeSize; startI > 1; ...)] loop
    over the levels. *)
Fixpoint levelLoop (fuel : nat) (hashes : list cell) (startI endI : Z)
    : outcome (list cell) :=
  match fuel with
  | O => OutOfFuel
  | S fuel' =>
      if startI >? 1 then
        hashes' ← pairLoop fuel hashes startI (Int32.sar startI 1) endI;
        levelLoop fuel' hashes' (Int32.sar startI 1) startI
      else Return hashes
  end.

Definition buildMerkleTree (fuel : nat) (leafContents : list Member.MonoplasmaMember)
    : outcome tree :=
  let len := Z.of_nat (length leafContents) in
  let leafCount := len + len mod 2 in
  branchCount ← roundUpToPowerOfTwo fuel leafCount;
  let treeSize := branchCount + leafCount in
  hashes ← Array.new treeSize;
  let hashes := Array.set hashes 0 (Num branchCount) in
  '(hashes, indexOf) ← placeLeaves leafContents hashes ∅ branchCount;
  hashes ← levelLoop fuel hashes branchCount treeSize;
  Return (mkTree hashes indexOf).

(** The [MerkleTree] object: the dirty flag, the cached tree, and the contents.
    In the program [contents] is a reference to the caller's array, whose
    members are objects that [addRevenue] changes in place; here it is the
    value of that array at the time of the call, and a change that the caller
    makes in place is the step [changedInPlace] below. *)
Record t : Type := mkMerkleTree {
  isDirty : bool;
  contents : list Member.MonoplasmaMember;
  cached : option tree
}.

Definition update (this : t) (newContents : list Member.MonoplasmaMember) : t :=
  mkMerkleTree true newContents (cached this).

(** Not a method: the array that [this.contents] refers to, or a member in
    it, is changed by its owner (a push, an [addRevenue]) and now has the value
    [current]. Neither the flag nor the cache hears of it. *)
Definition changedInPlace (this : t) (current : list Member.MonoplasmaMember) : t :=
  mkMerkleTree (isDirty this) current (cached this).

(** [new MerkleTree(initialContents)] *)
Definition new (initialContents : list Member.MonoplasmaMember) : t :=
  update (mkMerkleTree false [] None) initialContents.

(** The result is [this.cached], which is undefined ([None]) as long as no
    tree was built. *)
Definition getContents (fuel : nat) (this : t) : outcome (option tree) * t :=
  if (length (contents this) =? 0)%nat then
    (Throw (Error "Can't construct a MerkleTree with empty contents!"), this)
  else if isDirty this then
    match buildMerkleTree fuel (contents this) with
    | Return tr => (Return (Some tr), mkMerkleTree false (contents this) (Some tr))
    | Throw e => (Throw e, this)
    | OutOfFuel => (OutOfFuel, this)
    end
  else (Return (cached this), this).

Definition includes (this : t) (address : string) : option Member.MonoplasmaMember :=
  List.find (fun m => String.eqb (Member.address m) address) (contents this).

(** [for (let i = index; i > 1; i >>= 1) { path.push(hashes[i ^ 1]) }] *)
Fixpoint pathLoop (fuel : nat) (hashes : list cell) (i : Z) : outcome (list cell) :=
  match fuel with
  | O => OutOfFuel
  | S fuel' =>
      if i >? 1 then
        rest ← pathLoop fuel' hashes (Int32.sar i 1);
        Return (Array.get hashes (Int32.xor i 1) :: rest)
      else Return []
  end.

(** [`0x${buffer.toString("hex")}`] on an element of the path. *)
Definition bufferToHexString (c : cell) : outcome string :=
  match c with
  | Buf b => Return ("0x" +:+ Buffer.toHex b)
  | Num _ => Throw (RangeError "toString() radix must be between 2 and 36")
  | Hole => Throw (TypeError "Cannot read property 'toString' of undefined")
  end.

(** An inherited function or object is truthy, so it passes [if (!index)];
    compared with 1 it is NaN, so the loop pushes nothing and the path is
    empty. *)
Definition getPath (fuel : nat) (this : t) (address : string) : outcome (list string) * t :=
  match getContents fuel this with
  | (Return None, this') =>
      (Throw (TypeError "Cannot destructure property 'hashes' of undefined"), this')
  | (Return (Some tr), this') =>
      match readIndex (indexOf tr) address with
      | Own index =>
          if index =? 0 then
            (Throw (Error ("Address " +:+ address +:+ " not found!")), this')
          else
            (path ← pathLoop fuel (hashes tr) index; mapM bufferToHexString path, this')
      | Inherited => (Return [], this')
      | Missing => (Throw (Error ("Address " +:+ address +:+ " not found!")), this')
      end
  | (Throw e, this') => (Throw e, this')
  | (OutOfFuel, this') => (OutOfFuel, this')
  end.

Definition getRootHash (fuel : nat) (this : t) : outcome string * t :=
  match getContents fuel this with
  | (Return None, this') =>
      (Throw (TypeError "Cannot destructure property 'hashes' of undefined"), this')
  | (Return (Some tr), this') => (bufferToHexString (Array.get (hashes tr) 1), this')
  | (Throw e, this') => (Throw e, this')
  | (OutOfFuel, this') => (OutOfFuel, this')
  end.

(** [MonoplasmaMember.getProof(tree)] of [src/member.js]. *)
Definition getProof (fuel : nat) (member : Member.MonoplasmaMember) (tree : t)
    : outcome (list string) * t :=
  match BN.ofNumber 0 with
  | Return zero =>
      if BN.gt (Member.earnings member) zero then getPath fuel tree (Member.address member)
      else (Return [], tree)
  | Throw e => (Throw e, tree)
  | OutOfFuel => (OutOfFuel, tree)
  end.

End WithKeccak.

End MerkleTree.

(** ** Keccak-256 on bytes

    The permutation Keccak-f[1600] on 25 lanes of 64 bits, rate 136 bytes,
    padding 0x01 .. 0x80 (the variant of the EVM). It gives the library
    functions below a value to run the embedding on. *)

Module Keccak.

Definition mask64 : Z := 2 ^ 64 - 1.

Definition rotl (x n : Z) : Z :=
  Z.land (Z.lor (Z.shiftl x n) (Z.shiftr x (64 - n))) mask64.

Definition lane (s : list Z) (x y : Z) : Z :=
  nth (Z.to_nat (x mod 5 + 5 * (y mod 5))) s 0.

Definition coordinates : list (Z * Z) :=
  flat_map (fun y => map (fun x => (x, y)) [0; 1; 2; 3; 4]) [0; 1; 2; 3; 4].

Definition rotationOffsets : list Z :=
  [0; 1; 62; 28; 27; 36; 44; 6; 55; 20; 3; 10; 43; 25; 39; 41; 45; 15; 21; 8; 18; 2; 61; 56; 14].

Definition roundConstants : list Z :=
  [0x0000000000000001; 0x0000000000008082; 0x800000000000808A; 0x8000000080008000;
   0x000000000000808B; 0x0000000080000001; 0x8000000080008081; 0x8000000000008009;
   0x000000000000008A; 0x0000000000000088; 0x0000000080008009; 0x000000008000000A;
   0x000000008000808B; 0x800000000000008B; 0x8000000000008089; 0x8000000000008003;
   0x8000000000008002; 0x8000000000000080; 0x000000000000800A; 0x800000008000000A;
   0x8000000080008081; 0x8000000000008080; 0x0000000080000001; 0x8000000080008008].

Definition theta (s : list Z) : list Z :=
  let c x := fold_left Z.lxor (map (lane s x) [0; 1; 2; 3; 4]) 0 in
  let cs := map c [0; 1; 2; 3; 4] in
  let c' x := nth (Z.to_nat (x mod 5)) cs 0 in
  let d x := Z.lxor (c' (x - 1)) (rotl (c' (x + 1)) 1) in
  let ds := map d [0; 1; 2; 3; 4] in
  map (fun '(x, y) => Z.lxor (lane s x y) (nth (Z.to_nat x) ds 0)) coordinates.

Definition rhoPi (s : list Z) : list Z :=
  map (fun '(x, y) =>
         let x0 := (x + 3 * y) mod 5 in
         rotl (lane s x0 x) (nth (Z.to_nat (x0 + 5 * x)) rotationOffsets 0))
      coordinates.

Definition chi (s : list Z) : list Z :=
  map (fun '(x, y) =>
         Z.lxor (lane s x y)
                (Z.land (Z.lxor (lane s (x + 1) y) mask64) (lane s (x + 2) y)))
      coordinates.

Definition iota (rc : Z) (s : list Z) : list Z :=
  match s with
  | [] => []
  | l :: rest => Z.lxor l rc :: rest
  end.

Definition round (s : list Z) (rc : Z) : list Z := iota rc (chi (rhoPi (theta s))).

Definition permutation (s : list Z) : list Z := fold_left round roundConstants s.

(** Eight bytes, least significant first, to a lane and back. *)
Fixpoint laneOfBytes (bs : list Z) : Z :=
  match bs with
  | [] => 0
  | b :: rest => b + 256 * laneOfBytes rest
  end.

Fixpoint bytesOfLane (n : nat) (l : Z) : list Z :=
  match n with
  | O => []
  | S n' => l mod 256 :: bytesOfLane n' (l / 256)
  end.

Fixpoint chunks {A : Type} (fuel size : nat) (l : list A) : list (list A) :=
  match fuel with
  | O => []
  | S fuel' =>
      match l with
      | [] => []
      | _ => firstn size l :: chunks fuel' size (skipn size l)
      end
  end.

Definition rate : nat := 136.

Definition pad (message : list Z) : list Z :=
  let q := (rate - length message mod rate)%nat in
  if (q =? 1)%nat then message ++ [0x81]
  else message ++ [0x01] ++ repeat 0 (q - 2) ++ [0x80].

Definition absorb (s : list Z) (block : list Z) : list Z :=
  let lanes := map laneOfBytes (chunks 17 8 block) ++ repeat 0 8 in
  permutation (map (fun '(a, b) => Z.lxor a b) (combine s lanes)).

Definition keccak_256 (message : Buffer.t) : Buffer.t :=
  let bytes := pad (map Buffer.byteValue message) in
  let s := fold_left absorb (chunks (S (length bytes)) rate bytes) (repeat 0 25) in
  map Buffer.byteOfValue (flat_map (bytesOfLane 8) (firstn 4 s)).

End Keccak.

(** The bytes of a string. *)
Definition bytesOfString (s : string) : Buffer.t := map byte_of_ascii (list_ascii_of_string s).

(** [keccak_256] as js-sha3 returns it: the digest as 64 hex digits. *)
Definition keccak_256_hex (message : Buffer.t) : string :=
  Buffer.toHex (Keccak.keccak_256 message).

(** ** [isAddress] of web3's utils

    The library function behind [MonoplasmaMember.validateAddress]: 40 hex
    digits with an optional "0x"; all lower case or all upper case is
    accepted as it is, mixed case only with the right checksum. *)

Module Web3.

Definition toUpperChar (c : ascii) : ascii :=
  let n := N_of_ascii c in
  if ((97 <=? n) && (n <=? 122))%N then ascii_of_N (n - 32) else c.

Definition stripPrefix (s : string) : string :=
  if String.prefix "0x" s || String.prefix "0X" s then slice 2 s else s.

(** [/^(0x|0X)?D{40}$/] for a class [D] of hex digits. *)
Definition fortyDigits (digit : ascii -> bool) (s : string) : bool :=
  let body := stripPrefix s in
  (String.length body =? 40)%nat && allChars digit body.

Fixpoint checkCase (address addressHash : string) : bool :=
  match address, addressHash with
  | String c address', String h addressHash' =>
      match hexValue h with
      | Some v =>
          if v >? 7 then Ascii.eqb (toUpperChar c) c && checkCase address' addressHash'
          else Ascii.eqb (toLowerChar c) c && checkCase address' addressHash'
      | None => checkCase address' addressHash'
      end
  | _, _ => true
  end.

(** [sha3] of web3's utils on a string without the prefix: the hash of the
    bytes of its text, as "0x" and 64 hex digits. *)
Definition sha3 (text : string) : string := "0x" +:+ keccak_256_hex (bytesOfString text).

Definition checkAddressChecksum (address : string) : bool :=
  let address := stripPrefix address in
  let addressHash := stripPrefix (sha3 (toLowerCase address)) in
  checkCase address addressHash.

Definition isAddress (address : string) : bool :=
  if negb (fortyDigits isHexDigit address) then false
  else if fortyDigits isLowerHexDigit address || fortyDigits isUpperHexDigit address then true
  else checkAddressChecksum address.

End Web3.

(** ** The playback guard of the watcher ([src/watcher.js]) *)

Module Watcher.

Record message : Type := mkMessage {
  type : string;
  addressList : list string;
  timestamp : Z
}.

(** What the watcher reads and writes of a [MonoplasmaState]; a field that is
    undefined is [None]. *)
Record MonoplasmaState : Type := mkState {
  currentBlock : option Z;
  currentTimestamp : option Z;
  members : list Member.MonoplasmaMember
}.

Record t : Type := mkWatcher {
  messageCache : list message;
  cachePrunedUpTo : option Z;
  plasma : MonoplasmaState
}.

(** The state a playback works on: the watcher's own [plasma], or another
    state object passed as argument. *)
Inductive target : Type :=
| Own
| Passed (plasma : MonoplasmaState).

Definition plasmaOf (this : t) (p : target) : MonoplasmaState :=
  match p with
  | Own => plasma this
  | Passed s => s
  end.

(** [a < b] on numbers, false when [b] is undefined. *)
Definition lessThan (a : Z) (b : option Z) : bool :=
  match b with
  | Some b' => a <? b'
  | None => false
  end.

(** [x || 0] on a number or undefined. *)
Definition orZero (x : option Z) : Z :=
  match x with
  | Some n => n
  | None => 0
  end.

(** Reading a [const] of the enclosing function: before its declaration has
    run the binding is not initialised, and the read throws. *)
Definition readConst (name : string) (binding : option Z) : outcome Z :=
  match binding with
  | Some v => Return v
  | None => Throw (ReferenceError ("Cannot access '" +:+ name +:+ "' before initialization"))
  end.

Section WithCollaborators.

(** The result of a playback: the arguments of the last BlockCreated event. *)
Variable Block : Type.

(** Lines 251 to 287 of [playbackUntilBlock]: the chain queries, the replay on
    the state and the update of its block and timestamp; given the watcher,
    the state played on, [fromBlock], [fromTimestamp] and [toBlock]. *)
Variable replay : t -> target -> Z -> Z -> Z -> outcome Block * (t * target).

(** [bisectFindFirstIndex] of [src/utils]. *)
Variable bisectFindFirstIndex : list message -> (message -> bool) -> nat.

Definition playbackUntilBlock (this : t) (toBlock : Z) (plasma : target)
    : outcome (option Block) * (t * target) :=
  let state := plasmaOf this plasma in
  let fromBlock := match currentBlock state with
                   | Some b => if b + 1 =? 0 then 0 else b + 1
                   | None => 0
                   end in
  let fromTimestamp := orZero (currentTimestamp state) in
  if toBlock <=? fromBlock then (Return None, (this, plasma))
  else if lessThan fromTimestamp (cachePrunedUpTo this) then
    (* the message is built before [const toTimestamp] of the next line runs *)
    let toTimestamp : option Z := None in
    (toTimestamp' ← readConst "toTimestamp" toTimestamp;
     Throw (Error ("Cache has been pruned up to " +:+ decimal (orZero (cachePrunedUpTo this))
                   +:+ ", can't play back correctly " +:+ decimal fromTimestamp
                   +:+ "..." +:+ decimal toTimestamp')),
     (this, plasma))
  else
    match replay this plasma fromBlock fromTimestamp toBlock with
    | (Return b, after) => (Return (Some b), after)
    | (Throw e, after) => (Throw e, after)
    | (OutOfFuel, after) => (OutOfFuel, after)
    end.

Definition channelPruneCache (this : t) : t :=
  let lastRemovedTimestamp := currentTimestamp (plasma this) in
  let keepIndex := bisectFindFirstIndex (messageCache this)
                     (fun msg => match lastRemovedTimestamp with
                                 | Some ts => timestamp msg >? ts
                                 | None => false
                                 end) in
  mkWatcher (drop keepIndex (messageCache this)) lastRemovedTimestamp (plasma this).

End WithCollaborators.

End Watcher.

(** ** Block summaries ([summarizeBlock] of the watcher, [blockToApiObject] of
    the communities router) *)

Module JS.

(** The values a block read from the store can be. Numbers are the integers
    and NaN. *)
#[warnings="-register-all"]
Inductive value : Type :=
| Undefined
| Null
| Boolean (b : bool)
| Number (n : Z)
| NaN
| Str (s : string)
| Arr (elements : list value)
| Obj (properties : list (string * value)).

Definition truthy (v : value) : bool :=
  match v with
  | Undefined | Null | NaN => false
  | Boolean b => b
  | Number n => negb (n =? 0)
  | Str s => negb (String.eqb s "")
  | Arr _ | Obj _ => true
  end.

Fixpoint property (key : string) (properties : list (string * value)) : value :=
  match properties with
  | [] => Undefined
  | (k, v) :: rest => if String.eqb k key then v else property key rest
  end.

(** [v.key], for the names the summaries read ("members", "blockNumber",
    "timestamp", "totalEarnings", "length"). *)
Definition get (v : value) (key : string) : outcome value :=
  match v with
  | Undefined => Throw (TypeError ("Cannot read property '" +:+ key +:+ "' of undefined"))
  | Null => Throw (TypeError ("Cannot read property '" +:+ key +:+ "' of null"))
  | Obj properties => Return (property key properties)
  | Arr elements =>
      Return (if String.eqb key "length" then Number (Z.of_nat (length elements)) else Undefined)
  | Str s =>
      Return (if String.eqb key "length" then Number (Z.of_nat (String.length s)) else Undefined)
  | Boolean _ | Number _ | NaN => Return Undefined
  end.

(** [a || b] *)
Definition or (a b : value) : value := if truthy a then a else b.

End JS.

Record BlockSummary : Type := mkBlockSummary {
  blockNumber : JS.value;
  timestamp : JS.value;
  memberCount : JS.value;
  totalEarnings : JS.value
}.

(** [src/watcher.js] *)
Definition summarizeBlock (block : JS.value) : outcome BlockSummary :=
  missing ← (if negb (JS.truthy block) then Return true
             else members ← JS.get block "members"; Return (negb (JS.truthy members)));
  let block := if missing : bool then JS.Obj [("members", JS.Arr [])] else block in
  blockNumber ← JS.get block "blockNumber";
  timestamp ← JS.get block "timestamp";
  members ← JS.get block "members";
  memberCount ← JS.get members "length";
  totalEarnings ← JS.get block "totalEarnings";
  Return (mkBlockSummary (JS.or blockNumber (JS.Number 0)) (JS.or timestamp (JS.Number 0))
            memberCount (JS.or totalEarnings (JS.Number 0))).

(** The communities router. *)
Definition blockToApiObject (block : JS.value) : outcome BlockSummary :=
  missing ← (if negb (JS.truthy block) then Return true
             else members ← JS.get block "members"; Return (negb (JS.truthy members)));
  let block := if missing : bool then JS.Obj [("members", JS.Arr [])] else block in
  blockNumber ← JS.get block "blockNumber";
  timestamp ← JS.get block "timestamp";
  members ← JS.get block "members";
  memberCount ← JS.get members "length";
  totalEarnings ← JS.get block "totalEarnings";
  Return (mkBlockSummary (JS.or blockNumber (JS.Number 0)) (JS.or timestamp (JS.Number 0))
            memberCount (JS.or totalEarnings (JS.Number 0))).

(** ** Vocabulary of the specification *)

(** A number as exactly [k] hex digits, most significant first, zeros on the
    left: the last digit is [n mod 16], before it come the [k - 1] digits of
    [n / 16]. *)
Fixpoint hexFixed (k : nat) (n : Z) : string :=
  match k with
  | O => ""
  | S k' => hexFixed k' (n / 16) +:+ String (hexDigit (n mod 16)) ""
  end.

(** hex64(E): E as 64 lower-case hex digits. *)
Definition hex64 (E : Z) : string := hexFixed 64 E.

(** Lexicographic order on byte strings, and the smaller and the larger of
    two of them. *)
Fixpoint lexLe (a b : Buffer.t) : bool :=
  match a, b with
  | [], _ => true
  | _ :: _, [] => false
  | x :: a', y :: b' =>
      if Buffer.byteValue x <? Buffer.byteValue y then true
      else if Buffer.byteValue y <? Buffer.byteValue x then false
      else lexLe a' b'
  end.

Definition lexMin (L R : Buffer.t) : Buffer.t := if lexLe L R then L else R.
Definition lexMax (L R : Buffer.t) : Buffer.t := if lexLe L R then R else L.

(** The digest of a row of bytes, as a buffer: what [hash] returns on a
    buffer. *)
Definition digestOf (keccak_256 : Buffer.t -> string) (bytes : Buffer.t) : Buffer.t :=
  Buffer.fromHex (keccak_256 bytes).

(** keccak256(min(L,R) || max(L,R)) *)
Definition sortedPairHash (keccak_256 : Buffer.t -> string) (L R : Buffer.t) : Buffer.t :=
  digestOf keccak_256 (lexMin L R ++ lexMax L R).

(** The digests of one level of the tree give those of the level above: every
    full pair gives its sorted hash, a last digest without partner moves up
    as it is. *)
Fixpoint nextLevel (keccak_256 : Buffer.t -> string) (xs : list Buffer.t) : list Buffer.t :=
  match xs with
  | a :: b :: rest => sortedPairHash keccak_256 a b :: nextLevel keccak_256 rest
  | _ => xs
  end.

(** The digests [e] levels above the leaves. *)
Fixpoint levelAbove (keccak_256 : Buffer.t -> string) (e : nat) (leaves : list Buffer.t)
    : list Buffer.t :=
  match e with
  | O => leaves
  | S e' => nextLevel keccak_256 (levelAbove keccak_256 e' leaves)
  end.

(** A number as [k] bytes, most significant first. *)
Fixpoint bigEndian (k : nat) (n : Z) : Buffer.t :=
  match k with
  | O => []
  | S k' => bigEndian k' (n / 256) ++ [Buffer.byteOfValue (n mod 256)]
  end.

(** The bytes that the hex digits of a text with the prefix denote. *)
Definition hexBytes (text : string) : Buffer.t :=
  let digits := slice 2 text in
  Buffer.fromHex (if (String.length digits mod 2 =? 0)%nat then digits else "0" +:+ digits).

(** A member has a leaf when its hashable string, the address and the earnings
    in hex, is "0x" and hex digits: then [hashLeaf] with the empty salt returns
    [leafDigest], the digest of the bytes of those digits, and otherwise it
    throws. *)
Definition hashable (m : Member.MonoplasmaMember) : bool :=
  String.prefix "0x" (Member.toHashableString m)
  && allChars isHexDigit (slice 2 (Member.toHashableString m)).

Definition leafDigest (keccak_256 : Buffer.t -> string) (m : Member.MonoplasmaMember)
    : Buffer.t :=
  digestOf keccak_256 (hexBytes (Member.toHashableString m)).

Definition leafDigests (keccak_256 : Buffer.t -> string)
    (members : list Member.MonoplasmaMember) : list Buffer.t :=
  map (leafDigest keccak_256) members.

(** leafCount = len(members) + (len(members) mod 2) *)
Definition leafCountOf (members : list Member.MonoplasmaMember) : Z :=
  Z.of_nat (length members) + Z.of_nat (length members) mod 2.

(** [p] is the least power of two that is at least [x]. *)
Definition leastPowerOfTwoAtLeast (x p : Z) : Prop :=
  (exists k, 0 <= k /\ p = 2 ^ k) /\ x <= p /\
  forall k, 0 <= k -> x <= 2 ^ k -> p <= 2 ^ k.

(** Two spellings of one 20-byte address: the same hex digits up to letter
    case, with or without the prefix. *)
Definition sameAddress (a b : string) : Prop :=
  toLowerCase (Web3.stripPrefix a) = toLowerCase (Web3.stripPrefix b).

(** 2^d, for a level [d] of the tree. *)
Definition pow2 (d : nat) : Z := 2 ^ Z.of_nat d.

(** The tree that [buildMerkleTree] returns for a member list, in terms of the
    specification: [d] levels below the root, branchCount = 2^d at index 0, the
    digests [e] levels above the leaves in a row from index 2^(d-e), a zero
    digest after a row of odd length, and the index of every member's leaf. *)
Definition wellBuilt (keccak_256 : Buffer.t -> string)
    (members : list Member.MonoplasmaMember) (tr : MerkleTree.tree) (d : nat) : Prop :=
  let xs := leafDigests keccak_256 members in
  (1 <= d <= 30)%nat
  /\ Array.get (MerkleTree.hashes tr) 0 = Num (pow2 d)
  /\ leastPowerOfTwoAtLeast (leafCountOf members) (pow2 d)
  /\ (forall e j, (e <= d)%nat -> (j < length (levelAbove keccak_256 e xs))%nat ->
       Array.get (MerkleTree.hashes tr) (pow2 (d - e) + Z.of_nat j)
       = Buf (nth j (levelAbove keccak_256 e xs) []))
  /\ (forall e, (e < d)%nat -> (length (levelAbove keccak_256 e xs) mod 2 = 1)%nat ->
       Array.get (MerkleTree.hashes tr)
         (pow2 (d - e) + Z.of_nat (length (levelAbove keccak_256 e xs)))
       = Buf (Buffer.alloc 32))
  /\ (forall a v, MerkleTree.indexOf tr !! a = Some v ->
       exists j m, members !! j = Some m /\ Member.address m = a
                   /\ v = pow2 d + Z.of_nat j)
  /\ (forall m, In m members -> is_Some (MerkleTree.indexOf tr !! Member.address m)).

(** The text of a digest in a path: "0x" and its hex digits. *)
Definition digestText (b : Buffer.t) : string := "0x" +:+ Buffer.toHex b.

(** The amounts that [new BN] accepts, and the integer an amount stands
    for. *)
Definition amountAccepted (amount : BN.input) : bool :=
  match amount with
  | BN.Number n => Z.abs n <? 2 ^ 53
  | BN.Big _ => true
  end.

Definition amountValue (amount : BN.input) : Z :=
  match amount with
  | BN.Number n => n
  | BN.Big b => b
  end.

(** ** Sample data *)

Definition address1 : string := "0x2F428050ea2448ed2e4409bE47e1A50eBac0B2d2".
Definition address2 : string := "0xb3428050ea2448ed2e4409be47e1a50ebac0b2d2".
Definition address2upper : string := "0xB3428050EA2448ED2E4409BE47E1A50EBAC0B2D2".
Definition address3 : string := "0x0000000000000000000000000000000000000002".

Definition member1 : Member.MonoplasmaMember := Member.mkMember "" address1 50 true.
Definition member2 : Member.MonoplasmaMember := Member.mkMember "" address2 20 true.
Definition member3 : Member.MonoplasmaMember := Member.mkMember "" address3 0 true.

(** A member whose earnings went below zero. *)
Definition debtor : Member.MonoplasmaMember := Member.mkMember "" address3 (-1) true.

(** [member1] after [addRevenue(5)]. *)
Definition member1paid : Member.MonoplasmaMember := Member.mkMember "" address1 55 true.

(** A watcher whose state stands at timestamp 5000, and an older state at
    block 10, timestamp 3000. *)
Definition watcherAt5000 : Watcher.t :=
  Watcher.mkWatcher [] (Some 0) (Watcher.mkState (Some 40) (Some 5000) [member1; member2]).

Definition stateAt3000 : Watcher.MonoplasmaState :=
  Watcher.mkState (Some 10) (Some 3000) [member1].

(** ** Members to and from plain objects ([toObject], [fromObject] of
    [src/member.js]) *)

Module MemberObject.

(** The object [{ address, earnings, active, name }]; a property that is
    absent is [None]. The earnings are text. *)
Record t : Type := mkObject {
  name : option string;
  address : string;
  earnings : option string;
  active : option bool
}.


Section WithLibraries.

Variable isAddress : string -> bool.

(** [new BN(text)] of bn.js. *)
Variable newBN : string -> outcome Z.



End WithLibraries.

End MemberObject.

(** ** The cache of block timestamps ([getBlockTimestamp] of [src/watcher.js]) *)

Module BlockTimestamps.

Section WithProvider.

(** [(await this.eth.getBlock(blockNumber)).timestamp], in seconds. *)
Variable blockTimestamp : Z -> outcome Z.

(** The field [blockTimestampCache] is passed in and handed back. *)
Definition getBlockTimestamp (cache : gmap Z Z) (blockNumber : Z) : outcome Z * gmap Z Z :=
  match cache !! blockNumber with
  | Some cached => (Return cached, cache)
  | None =>
      match blockTimestamp blockNumber with
      | Return seconds => (Return (seconds * 1000), <[blockNumber := seconds * 1000]> cache)
      | Throw e => (Throw e, cache)
      | OutOfFuel => (OutOfFuel, cache)
      end
  end.

End WithProvider.

End BlockTimestamps.

(** ** Parsing logs ([parseLogs] of [src/watcher.js]) *)

Module Logs.

Section WithArgs.

(** What [event.decode] returns. *)
Variable Args : Type.

(** An event of [interface.events]; its [decode] may throw. *)
Record event : Type := mkEvent {
  eventName : string;
  topic : string;
  decode : string -> list string -> outcome Args
}.

(** A log from the provider; [event] and [args] are the properties that
    [parseLogs] adds. *)
Record log : Type := mkLog {
  topics : list string;
  data : string;
  logEvent : option string;
  logArgs : option Args
}.

(** The body of [for (const type in interface.events)] on one log: the name
    is stored before [decode] runs. The log is changed in place, so it is
    handed back whatever the outcome. *)
Definition parseStep (l : log) (e : event) : outcome unit * log :=
  match topics l with
  | first :: _ =>
      if String.eqb (topic e) first then
        match decode e (data l) (topics l) with
        | Return args =>
            (Return tt, mkLog (topics l) (data l) (Some (eventName e)) (Some args))
        | Throw x => (Throw x, mkLog (topics l) (data l) (Some (eventName e)) (logArgs l))
        | OutOfFuel => (OutOfFuel, mkLog (topics l) (data l) (Some (eventName e)) (logArgs l))
        end
      else (Return tt, l)
  | [] => (Return tt, l)
  end.

(** The inner loop; [interface.events], an object, is the list of its entries
    in the order of [for ... in]. *)
Fixpoint parseLog (events : list (string * event)) (l : log) : outcome unit * log :=
  match events with
  | [] => (Return tt, l)
  | (_, e) :: rest =>
      match parseStep l e with
      | (Return _, l') => parseLog rest l'
      | (Throw x, l') => (Throw x, l')
      | (OutOfFuel, l') => (OutOfFuel, l')
      end
  end.

(** [for (const log of logs)]: the logs after a log whose parsing throws are
    left as they are. *)
Fixpoint parseLogs (events : list (string * event)) (logs : list log)
    : outcome unit * list log :=
  match logs with
  | [] => (Return tt, [])
  | l :: rest =>
      match parseLog events l with
      | (Return _, l') =>
          let '(outcome, rest') := parseLogs events rest in (outcome, l' :: rest')
      | (Throw x, l') => (Throw x, l' :: rest)
      | (OutOfFuel, l') => (OutOfFuel, l' :: rest)
      end
  end.

(** The event matches the log: its topic is the first topic of the log. *)
Definition matches (l : log) (e : event) : bool :=
  match topics l with
  | first :: _ => String.eqb (topic e) first
  | [] => false
  end.

End WithArgs.

End Logs.

(** ** The communities router *)

Module Router.

(** A member as a stored block lists it. *)
Record BlockMember : Type := mkBlockMember {
  address : string;
  earnings : option string
}.

Record Block : Type := mkBlock {
  blockNumber : Z;
  members : list BlockMember
}.

Section WithServer.

(** What [plasma.getMember] returns for a member. *)
Variable Member : Type.

(** The state of a community that the handlers read. *)
Record Plasma : Type := mkPlasma {
  getMember : string -> outcome (option Member);
  getLatestBlock : option Block;
  getLatestWithdrawableBlock : option Block;
  getProofAt : string -> Z -> outcome (list string)
}.

(** [server.communities[address].operator.watcher.plasma]: any link of the
    chain may be undefined. *)
Record Watcher : Type := mkWatcher { plasma : option Plasma }.
Record Operator : Type := mkOperator { watcher : option Watcher }.
Record Community : Type := mkCommunity { operator : option Operator }.

(** The member sent back, with the properties the handler adds. *)
Record MemberStats : Type := mkMemberStats {
  member : Member;
  recordedEarnings : string;
  withdrawableEarnings : string;
  frozenEarnings : string;
  withdrawableBlockNumber : option Z;
  proof : option (list string)
}.

Inductive body : Type :=
| StatusOk
| ErrorBody (error : string)
| MemberBody (stats : MemberStats).

Record response : Type := mkResponse {
  status : Z;
  sent : body
}.

(** [ethers.utils.getAddress] and [new BN(text)]. *)
Variable getAddress : string -> outcome string.
Variable newBN : string -> outcome Z.

Definition parseAddress (address : string) : option string :=
  match getAddress address with
  | Return a => Some a
  | _ => None
  end.

(** [block ? block.members.find(m => m.address === address) || {} : {}], then
    [.earnings || "0"]. *)
Definition earningsIn (block : option Block) (address : string) : string :=
  match block with
  | Some b =>
      match List.find (fun m => String.eqb (Router.address m) address) (members b) with
      | Some m =>
          match earnings m with
          | Some text => if String.eqb text "" then "0" else text
          | None => "0"
          end
      | None => "0"
      end
  | None => "0"
  end.

(** The middleware [parseOperator]: the response it sends, or [req.operator]
    as it hands it to the next handler. *)
Definition parseOperator (communities : gmap string Community) (communityAddress : string)
    : response + option Operator :=
  match parseAddress communityAddress with
  | Some address =>
      if String.eqb address ""
      then inl (mkResponse 400 (ErrorBody ("Bad Ethereum address: " +:+ communityAddress)))
      else match communities !! address with
           | Some community => inr (operator community)
           | None =>
               inl (mkResponse 400
                      (ErrorBody ("We're not operating the community @ " +:+ address)))
           end
  | None => inl (mkResponse 400 (ErrorBody ("Bad Ethereum address: " +:+ communityAddress)))
  end.

(** [req.operator.watcher.plasma] *)
Definition plasmaOf (operator : option Operator) : outcome (option Plasma) :=
  match operator with
  | None => Throw (TypeError "Cannot read property 'watcher' of undefined")
  | Some o =>
      match watcher o with
      | None => Throw (TypeError "Cannot read property 'plasma' of undefined")
      | Some w => Return (plasma w)
      end
  end.

(** The handler of [GET /:communityAddress/]. *)
Definition getCommunity (operator : option Operator) : outcome response :=
  plasma ← plasmaOf operator;
  match plasma with
  | Some _ => Return (mkResponse 200 StatusOk)
  | None => Return (mkResponse 500 (ErrorBody "Faulty operator"))
  end.

(** The handler of [GET /:communityAddress/members/:address]. *)
Definition getMemberStats (operator : option Operator) (communityAddress address : string)
    : outcome response :=
  plasma ← plasmaOf operator;
  match parseAddress address with
  | None => Return (mkResponse 400 (ErrorBody ("Bad Ethereum address: " +:+ address)))
  | Some parsed =>
      if String.eqb parsed ""
      then Return (mkResponse 400 (ErrorBody ("Bad Ethereum address: " +:+ address)))
      else
        match plasma with
        | None => Throw (TypeError "Cannot read property 'getMember' of undefined")
        | Some plasma =>
            found ← getMember plasma parsed;
            match found with
            | None =>
                Return (mkResponse 404
                          (ErrorBody ("Member not found: " +:+ parsed +:+ " in "
                                      +:+ communityAddress)))
            | Some m =>
                let frozenBlock := getLatestBlock plasma in
                let withdrawableBlock := getLatestWithdrawableBlock plasma in
                let recorded := earningsIn frozenBlock parsed in
                let withdrawable := earningsIn withdrawableBlock parsed in
                r ← newBN recorded;
                w ← newBN withdrawable;
                let frozen := BN.toString10 (BN.sub r w) in
                match withdrawableBlock with
                | Some b =>
                    path ← getProofAt plasma parsed (blockNumber b);
                    Return (mkResponse 200
                              (MemberBody (mkMemberStats m recorded withdrawable frozen
                                             (Some (blockNumber b)) (Some path))))
                | None =>
                    Return (mkResponse 200
                              (MemberBody (mkMemberStats m recorded withdrawable frozen
                                             None None)))
                end
            end
        end
  end.

(** A route: the middleware, then the handler. *)
Definition route (handler : option Operator -> outcome response)
    (communities : gmap string Community) (communityAddress : string) : outcome response :=
  match parseOperator communities communityAddress with
  | inl refused => Return refused
  | inr operator => handler operator
  end.

Definition routeCommunity (communities : gmap string Community) (communityAddress : string)
    : outcome response :=
  route getCommunity communities communityAddress.

Definition routeMemberStats (communities : gmap string Community)
    (communityAddress address : string) : outcome response :=
  route (fun operator => getMemberStats operator communityAddress address)
    communities communityAddress.

End WithServer.

End Router.

(** ** More vocabulary *)

(** The zero digest that fills a row of odd length. *)
Definition isZeroDigest (b : Buffer.t) : bool := Buffer.compare b (Buffer.alloc 32) =? 0.

(** What the holder of a path does with it, as the comments of the build
    describe: a zero sibling adds nothing, any other sibling is hashed with
    the running digest, the smaller first. *)
Definition recomputeStep (keccak_256 : Buffer.t -> string) (acc sibling : Buffer.t)
    : Buffer.t :=
  if isZeroDigest sibling then acc else sortedPairHash keccak_256 acc sibling.

Definition recomputeRoot (keccak_256 : Buffer.t -> string) (leaf : Buffer.t)
    (path : list Buffer.t) : Buffer.t :=
  fold_left (recomputeStep keccak_256) path leaf.

(** No digest of the level [xs], nor of the [n] levels above it, is the zero
    digest. *)
Fixpoint noZeroLevels (keccak_256 : Buffer.t -> string) (n : nat) (xs : list Buffer.t)
    : bool :=
  forallb (fun b => negb (isZeroDigest b)) xs
  && match n with
     | O => true
     | S n' => noZeroLevels keccak_256 n' (nextLevel keccak_256 xs)
     end.

(** No digest of the tree over [members] is the zero digest. *)
Definition noZeroDigest (keccak_256 : Buffer.t -> string)
    (members : list Member.MonoplasmaMember) : bool :=
  noZeroLevels keccak_256 30 (leafDigests keccak_256 members).

(** [new BN(text)] on the decimal numerals. *)
Definition newBN_decimal (text : string) : outcome Z :=
  match NilZero.int_of_string text with
  | Some d => Return (Z.of_int d)
  | None => Throw (Error "Invalid character")
  end.

(** The root over a row of leaf digests: the one digest left when the row has
    been paired up as many times as it has digests, which is more than
    enough. *)
Definition merkleRoot (keccak_256 : Buffer.t -> string) (leaves : list Buffer.t) : Buffer.t :=
  nth 0 (levelAbove keccak_256 (length leaves) leaves) [].

(** The last member of the list with the given address. *)
Definition lastWithAddress (address : string) (members : list Member.MonoplasmaMember)
    : option Member.MonoplasmaMember :=
  List.find (fun m => String.eqb (Member.address m) address) (rev members).

(** Two events and a log, with [decode] handing back the data and topics it
    is given. *)
Definition transferEvent : Logs.event (string * list string) :=
  Logs.mkEvent _ "Transfer" "0xddf2" (fun data topics => Return (data, topics)).

Definition blockCreatedEvent : Logs.event (string * list string) :=
  Logs.mkEvent _ "BlockCreated" "0x9a1c" (fun data topics => Return (data, topics)).

Definition transferLog : Logs.log (string * list string) :=
  Logs.mkLog _ ["0xddf2"; "0x01"; "0x02"] "0x64" None None.

Definition unknownLog : Logs.log (string * list string) :=
  Logs.mkLog _ ["0xffff"] "0x" None None.

(** A server that operates one community, whose blocks are the block of the
    router's unit test: two members, with earnings 50 and 20. *)
Definition sampleGetAddress (text : string) : outcome string :=
  if Web3.isAddress text then Return text else Throw (Error "invalid address").

Definition sampleBlock : Router.Block :=
  Router.mkBlock 3 [Router.mkBlockMember address1 (Some "50");
                    Router.mkBlockMember address2 (Some "20")].

Definition samplePlasma : Router.Plasma Member.MonoplasmaMember :=
  Router.mkPlasma _
    (fun address =>
       Return (List.find (fun m => String.eqb (Member.address m) address)
                 [member1; member2; member3]))
    (Some sampleBlock) (Some sampleBlock)
    (fun address blockNumber => Return []).

Definition sampleCommunities : gmap string (Router.Community Member.MonoplasmaMember) :=
  {[ address1 := Router.mkCommunity _
                   (Some (Router.mkOperator _ (Some (Router.mkWatcher _ (Some samplePlasma))))) ]}.

(** * Properties *)

(** ** Hexadecimal digits of an earnings value *)

Lemma append_cons (x : ascii) (a b : string) : String x a +:+ b = String x (a +:+ b).
Proof. reflexivity. Qed.

Lemma append_nil (b : string) : "" +:+ b = b.
Proof. reflexivity. Qed.

Lemma append_assoc (a b c : string) : (a +:+ b) +:+ c = a +:+ (b +:+ c).
Proof.
  induction a as [|x a IH]; [reflexivity|].
  rewrite !append_cons. f_equal. exact IH.
Qed.

Lemma append_empty_r (s : string) : s +:+ "" = s.
Proof.
  induction s as [|x s IH]; [reflexivity|].
  rewrite append_cons. f_equal. exact IH.
Qed.

Lemma length_append (a b : string) :
  String.length (a +:+ b) = (String.length a + String.length b)%nat.
Proof.
  induction a as [|x a IH]; [reflexivity|].
  rewrite append_cons. simpl. f_equal. exact IH.
Qed.

Lemma zeros_snoc (k : nat) (s : string) : zeros k +:+ String "0" s = String "0" (zeros k +:+ s).
Proof.
  induction k as [|k IH]; [reflexivity|].
  simpl zeros. rewrite !append_cons. f_equal. exact IH.
Qed.

Lemma length_zeros (k : nat) : String.length (zeros k) = k.
Proof. induction k as [|k IH]; simpl; [reflexivity | now rewrite IH]. Qed.

Lemma length_hexFixed (k : nat) : forall n, String.length (hexFixed k n) = k.
Proof.
  induction k as [|k IH]; intros n; simpl; [reflexivity|].
  rewrite length_append, IH. simpl. lia.
Qed.

Lemma hexFixed_zero (k : nat) : hexFixed k 0 = zeros k.
Proof.
  induction k as [|k IH]; [reflexivity|].
  cbn [hexFixed zeros]. change (0 / 16) with 0. rewrite IH.
  change (hexDigit (0 mod 16)) with "0"%char.
  rewrite zeros_snoc, append_empty_r. reflexivity.
Qed.

(** Zeros on the left of a number that fits in fewer digits. *)
Lemma hexFixed_pad (j : nat) :
  forall (k : nat) (n : Z), 0 <= n < 16 ^ Z.of_nat j ->
  hexFixed (k + j) n = zeros k +:+ hexFixed j n.
Proof.
  induction j as [|j IH]; intros k n Hn.
  - assert (n = 0) by (simpl in Hn; lia). subst n.
    rewrite Nat.add_0_r, hexFixed_zero. simpl. now rewrite append_empty_r.
  - replace (k + S j)%nat with (S (k + j)) by lia. simpl.
    rewrite IH, append_assoc; [reflexivity|].
    rewrite Nat2Z.inj_succ, Z.pow_succ_r in Hn by lia.
    split; [apply Z.div_pos; lia | apply Z.div_lt_upper_bound; lia].
Qed.

(** The digit loop of [toString] writes the digits of [n] and no leading
    zero. *)
Lemma hexDigits_spec (fuel : nat) :
  forall (n : Z) (out : string), 0 <= n < 16 ^ Z.of_nat fuel ->
  exists j : nat,
    BN.hexDigits fuel n out = hexFixed j n +:+ out
    /\ n < 16 ^ Z.of_nat j
    /\ forall i : nat, (i < j)%nat -> 16 ^ Z.of_nat i <= n.
Proof.
  induction fuel as [|fuel IH]; intros n out Hn.
  - exists O. simpl in *. split; [reflexivity|]. split; [lia|]. intros i Hi. lia.
  - simpl. destruct (n =? 0) eqn:Hzero.
    + exists O. simpl. split; [reflexivity|]. split; [lia|]. intros i Hi. lia.
    + apply Z.eqb_neq in Hzero.
      rewrite Nat2Z.inj_succ, Z.pow_succ_r in Hn by lia.
      destruct (IH (n / 16) (String (hexDigit (n mod 16)) out)) as (j & Hrun & Hlt & Hmin).
      { split; [apply Z.div_pos; lia | apply Z.div_lt_upper_bound; lia]. }
      exists (S j). simpl. rewrite Hrun, append_assoc. split; [reflexivity|].
      pose proof (Z.div_mod n 16 ltac:(lia)) as Hdm.
      pose proof (Z.mod_pos_bound n 16 ltac:(lia)) as Hmod.
      split.
      * rewrite Nat2Z.inj_succ, Z.pow_succ_r by lia. lia.
      * intros [|i] Hi; [simpl; lia|].
        specialize (Hmin i ltac:(lia)).
        rewrite Nat2Z.inj_succ, Z.pow_succ_r by lia. lia.
Qed.

Lemma padLoop_spec (fuel : nat) :
  forall out : string,
  (1 <= String.length out <= 64)%nat -> (64 - String.length out <= fuel)%nat ->
  BN.padLoop fuel 64 out = zeros (64 - String.length out) +:+ out.
Proof.
  induction fuel as [|fuel IH]; intros out Hlen Hfuel.
  - cbn [BN.padLoop]. replace (64 - String.length out)%nat with O by lia. reflexivity.
  - cbn [BN.padLoop]. destruct (Nat.eq_dec (String.length out) 64%nat) as [Heq|Hne].
    + rewrite Heq. reflexivity.
    + assert (Hsmall : (String.length out mod 64 = String.length out)%nat)
        by (apply Nat.mod_small; lia).
      rewrite Hsmall.
      destruct (String.length out =? 0)%nat eqn:Hz; [apply Nat.eqb_eq in Hz; lia|].
      rewrite IH by (cbn [String.length]; lia). cbn [String.length].
      replace (64 - String.length out)%nat with (S (64 - S (String.length out))) by lia.
      cbn [zeros]. now rewrite zeros_snoc, append_cons.
Qed.

(** On a 256-bit value [toString(16, 64)] is the 64-digit form. *)
Lemma toString16_hex64 (E : Z) : 0 <= E < 2 ^ 256 -> BN.toString16 E 64 = hex64 E.
Proof.
  intros HE. unfold BN.toString16, hex64.
  rewrite Z.abs_eq by lia.
  destruct (E <? 0) eqn:Hneg; [apply Z.ltb_lt in Hneg; lia|].
  destruct (E =? 0) eqn:Hzero.
  - apply Z.eqb_eq in Hzero. subst E. vm_compute. reflexivity.
  - apply Z.eqb_neq in Hzero.
    destruct (hexDigits_spec (S (Z.to_nat (Z.log2 E))) E "") as (j & Hrun & Hlt & Hmin).
    { split; [lia|].
      apply Z.lt_le_trans with (2 ^ (Z.log2 E + 1)).
      - apply Z.log2_spec. lia.
      - rewrite Nat2Z.inj_succ, Z2Nat.id by (apply Z.log2_nonneg).
        replace (Z.succ (Z.log2 E)) with (Z.log2 E + 1) by lia.
        apply Z.pow_le_mono_l. lia. }
    rewrite Hrun.
    rewrite append_empty_r.
    assert (Hj : (1 <= j <= 64)%nat).
    { split.
      - destruct j; [simpl in Hlt; lia | lia].
      - destruct (le_lt_dec j 64) as [Hle|Hgt]; [exact Hle|].
        specialize (Hmin 64%nat Hgt). change (16 ^ Z.of_nat 64) with (2 ^ 256) in Hmin. lia. }
    rewrite padLoop_spec by (rewrite length_hexFixed; lia).
    rewrite length_hexFixed.
    rewrite <- (hexFixed_pad j (64 - j) E) by lia.
    replace (64 - j + j)%nat with 64%nat by lia. reflexivity.
Qed.

(** ** Addresses accepted by web3 *)

Lemma prefix_two (x y : ascii) (s : string) :
  String.prefix (String x (String y "")) s = true ->
  exists rest, s = String x (String y rest).
Proof.
  destruct s as [|c1 [|c2 rest]]; simpl; try discriminate.
  - destruct (ascii_dec x c1); discriminate.
  - destruct (ascii_dec x c1) as [<-|]; [|discriminate].
    destruct (ascii_dec y c2) as [<-|]; [|discriminate]. eauto.
Qed.

(** An address that [validateAddress] returns, with web3's [isAddress], is
    "0x" or "0X" and 40 hex digits. *)
Lemma validateAddress_shape (a A : string) :
  Member.validateAddress Web3.isAddress a = Return A ->
  String.length A = 42%nat
  /\ (String.prefix "0x" A = true \/ String.prefix "0X" A = true)
  /\ allChars isHexDigit (slice 2 A) = true.
Proof.
  unfold Member.validateAddress.
  set (extended := if (String.length a =? 40)%nat then "0x" +:+ a else a).
  destruct (Web3.isAddress extended) eqn:Hvalid; [|discriminate].
  cbn [negb]. intros [= <-].
  unfold Web3.isAddress in Hvalid.
  destruct (Web3.fortyDigits isHexDigit extended) eqn:Hforty; [|discriminate].
  clear Hvalid. unfold Web3.fortyDigits, Web3.stripPrefix in Hforty.
  apply andb_true_iff in Hforty. destruct Hforty as [Hlen Hdigits].
  apply Nat.eqb_eq in Hlen.
  destruct (String.prefix "0x" extended || String.prefix "0X" extended) eqn:Hprefix.
  - apply orb_true_iff in Hprefix.
    assert (Hrest : exists c rest, extended = String "0" (String c rest)).
    { destruct Hprefix as [H|H]; apply prefix_two in H; destruct H as [rest ->]; eauto. }
    destruct Hrest as (c & rest & Hrest). rewrite Hrest in Hlen, Hdigits |- *.
    cbn [slice String.length] in *. rewrite <- Hrest. repeat split; [lia | tauto | exact Hdigits].
  - exfalso. apply orb_false_iff in Hprefix. destruct Hprefix as [Hx _].
    unfold extended in Hx, Hlen.
    destruct (String.length a =? 40)%nat eqn:Ha.
    + rewrite append_cons in Hx. simpl in Hx. discriminate.
    + apply Nat.eqb_neq in Ha. contradiction.
Qed.

(** ** Members *)

Lemma new_accepted (amount : BN.input) :
  amountAccepted amount = true -> BN.new amount = Return (amountValue amount).
Proof.
  destruct amount as [n|b]; [|reflexivity].
  cbn [amountAccepted amountValue BN.new]. unfold BN.ofNumber. now intros ->.
Qed.

Lemma new_refused (amount : BN.input) :
  amountAccepted amount = false -> BN.new amount = Throw (Error "Assertion failed").
Proof.
  destruct amount as [n|b]; [|discriminate].
  cbn [amountAccepted BN.new]. unfold BN.ofNumber. now intros ->.
Qed.

Lemma addRevenue_returns (m : Member.MonoplasmaMember) (amount : BN.input) :
  amountAccepted amount = true ->
  Member.addRevenue m amount
  = (Return tt, Member.mkMember (Member.name m) (Member.address m)
                  (Member.earnings m + amountValue amount) (Member.active m)).
Proof.
  intros Hacc. unfold Member.addRevenue. now rewrite (new_accepted _ Hacc).
Qed.

Lemma addRevenue_refused (m : Member.MonoplasmaMember) (amount : BN.input) :
  amountAccepted amount = false ->
  Member.addRevenue m amount = (Throw (Error "Assertion failed"), m).
Proof.
  intros Hacc. unfold Member.addRevenue. now rewrite (new_refused _ Hacc).
Qed.

(** A run of accepted amounts returns, with the sum added to the earnings and
    nothing else changed. *)
Lemma addRevenues_value (amounts : list BN.input) :
  Forall (fun a => amountAccepted a = true) amounts ->
  forall m : Member.MonoplasmaMember,
  Member.addRevenues m amounts
  = (Return tt, Member.mkMember (Member.name m) (Member.address m)
                  (Member.earnings m + fold_right Z.add 0 (map amountValue amounts))
                  (Member.active m)).
Proof.
  induction 1 as [|a rest Ha _ IH]; intros m.
  - cbn [Member.addRevenues map fold_right]. rewrite Z.add_0_r. now destruct m.
  - cbn [Member.addRevenues map fold_right]. rewrite (addRevenue_returns _ _ Ha), IH.
    cbn [Member.name Member.address Member.earnings Member.active].
    do 2 f_equal. lia.
Qed.

Lemma sum_nonnegative (amounts : list Z) :
  Forall (fun a => 0 <= a) amounts -> 0 <= fold_right Z.add 0 amounts.
Proof.
  induction 1 as [|a rest Ha _ IH]; simpl; lia.
Qed.

(** C3, as the code has it: [addRevenue] does not look at the sign. An amount
    that [new BN] accepts (a BN, or a number of magnitude below 2^53) is added
    to the earnings whatever its sign, and no error is raised; for a number of
    magnitude 2^53 or more [new BN] throws and the earnings stay as they are.
    Over a run of calls with accepted amounts that are not negative the
    earnings grow by their sum and so never decrease. *)
Theorem addRevenue_adds_amount (m : Member.MonoplasmaMember) (amounts : list BN.input)
    (Haccepted : Forall (fun a => amountAccepted a = true) amounts)
    (Hamounts : Forall (fun a => 0 <= amountValue a) amounts) :
  (forall amount,
      (amountAccepted amount = true ->
       exists m', Member.addRevenue m amount = (Return tt, m')
                  /\ Member.earnings m' = Member.earnings m + amountValue amount)
      /\ (amountAccepted amount = false ->
          Member.addRevenue m amount = (Throw (Error "Assertion failed"), m)))
  /\ exists m', Member.addRevenues m amounts = (Return tt, m')
                /\ Member.earnings m'
                   = Member.earnings m + fold_right Z.add 0 (map amountValue amounts)
                /\ Member.earnings m <= Member.earnings m'.
Proof.
  split.
  - intros amount. split.
    + intros Hacc. eexists. split; [now apply addRevenue_returns | reflexivity].
    + apply addRevenue_refused.
  - eexists. split; [now apply addRevenues_value|].
    cbn [Member.earnings]. split; [reflexivity|].
    assert (0 <= fold_right Z.add 0 (map amountValue amounts)); [|lia].
    apply sum_nonnegative. now apply Forall_map.
Qed.

Lemma addRevenue_adds_amount_witness :
  exists m', Member.addRevenues member1 [BN.Number 5; BN.Big 0; BN.Number 7] = (Return tt, m')
             /\ Member.earnings m' = 62.
Proof.
  assert (Ha : Forall (fun a => amountAccepted a = true) [BN.Number 5; BN.Big 0; BN.Number 7])
    by (repeat constructor).
  assert (Hn : Forall (fun a => 0 <= amountValue a) [BN.Number 5; BN.Big 0; BN.Number 7])
    by (repeat constructor; cbn [amountValue]; lia).
  destruct (addRevenue_adds_amount member1 _ Ha Hn) as [_ (m' & Hrun & Hsum & _)].
  exists m'. split; [exact Hrun | exact Hsum].
Defined.

(** C3, as stated, fails: a negative amount is not refused, it lowers the
    earnings. *)
Lemma addRevenue_negative_not_refused :
  -3 < 0
  /\ Member.addRevenue member1 (BN.Number (-3))
     = (Return tt, Member.mkMember "" address1 47 true)
  /\ Member.earnings (Member.mkMember "" address1 47 true) < Member.earnings member1.
Proof. split; [lia|]. split; [reflexivity | simpl; lia]. Qed.

(** [new BN] on the earnings argument of the constructor. *)
Lemma constructor_earnings (earnings : option Z) :
  match earnings with
  | Some e => if e =? 0 then BN.ofNumber 0 else BN.ofNumber e
  | None => BN.ofNumber 0
  end
  = match earnings with
    | Some e => if Z.abs e <? 2 ^ 53 then Return e else Throw (Error "Assertion failed")
    | None => Return 0
    end.
Proof.
  destruct earnings as [e|]; [|reflexivity].
  destruct (Z.eqb_spec e 0) as [->|_]; reflexivity.
Qed.

(** The address a new member gets is the input with "0x" put before a
    40-character input, and nothing else changed. *)
Lemma new_member_address (isAddress : string -> bool) (name : option string)
    (address : string) (earnings : option Z) (active : option bool)
    (m : Member.MonoplasmaMember) :
  Member.new isAddress name address earnings active = Return m ->
  Member.address m
  = (if (String.length address =? 40)%nat then "0x" +:+ address else address)
  /\ isAddress (Member.address m) = true.
Proof.
  unfold Member.new, Member.validateAddress.
  destruct (isAddress _) eqn:Hvalid; cbn [negb mbind outcome_bind]; [|discriminate].
  rewrite constructor_earnings.
  destruct earnings as [e|]; [destruct (Z.abs e <? 2 ^ 53)|];
    cbn [mbind outcome_bind]; intros H; try discriminate;
    injection H as <-; (split; [reflexivity | exact Hvalid]).
Qed.

(** C5, as the code has it: the constructor accepts exactly the inputs that
    [isAddress] accepts once "0x" is put before a 40-character input, stores
    that string as it is, and throws the bad-address error for every other
    input. With web3's [isAddress] what is stored is "0x" or "0X" and 40 hex
    digits, in the letter case of the input. (After an accepted address the
    only error left is the one of [new BN] on an earnings number of magnitude
    2^53 or more.) *)
Theorem constructor_validates_address (isAddress : string -> bool) (name : option string)
    (address : string) (earnings : option Z) (active : option bool) :
  let extended := if (String.length address =? 40)%nat then "0x" +:+ address else address in
  (isAddress extended = true ->
   ((forall e, earnings = Some e -> Z.abs e < 2 ^ 53) ->
    exists m, Member.new isAddress name address earnings active = Return m
              /\ Member.address m = extended)
   /\ (forall e, earnings = Some e -> 2 ^ 53 <= Z.abs e ->
       Member.new isAddress name address earnings active
       = Throw (Error "Assertion failed")))
  /\ (isAddress extended = false ->
      Member.new isAddress name address earnings active
      = Throw (Error ("Bad Ethereum address: " +:+ address)))
  /\ (forall m, Member.new Web3.isAddress name address earnings active = Return m ->
      Member.address m = extended
      /\ String.length (Member.address m) = 42%nat
      /\ (String.prefix "0x" (Member.address m) = true
          \/ String.prefix "0X" (Member.address m) = true)
      /\ allChars isHexDigit (slice 2 (Member.address m)) = true).
Proof.
  intros extended. split; [|split].
  - unfold Member.new, Member.validateAddress. fold extended.
    intros ->. cbn [negb mbind outcome_bind]. rewrite constructor_earnings. split.
    + intros Hsmall. destruct earnings as [e|].
      * specialize (Hsmall e eq_refl). apply Z.ltb_lt in Hsmall. rewrite Hsmall.
        eexists. split; reflexivity.
      * eexists. split; reflexivity.
    + intros e -> Hbig. apply Z.ltb_ge in Hbig. now rewrite Hbig.
  - unfold Member.new, Member.validateAddress. fold extended.
    intros ->. reflexivity.
  - intros m Hnew. split; [apply (new_member_address _ _ _ _ _ _ Hnew)|].
    apply (validateAddress_shape address).
    unfold Member.new in Hnew.
    destruct (Member.validateAddress Web3.isAddress address) as [A| |]; try discriminate.
    cbn [mbind outcome_bind] in Hnew. rewrite constructor_earnings in Hnew.
    destruct earnings as [e|]; [destruct (Z.abs e <? 2 ^ 53)|];
      cbn [mbind outcome_bind] in Hnew; try discriminate; now injection Hnew as <-.
Qed.

Lemma constructor_validates_address_witness :
  Web3.isAddress address1 = true
  /\ exists m, Member.new Web3.isAddress None address1 (Some 50) None = Return m
               /\ Member.address m = address1.
Proof.
  assert (H : Web3.isAddress address1 = true) by (vm_compute; reflexivity).
  split; [exact H|].
  apply (proj1 (proj1 (constructor_validates_address Web3.isAddress None address1 (Some 50)
                         None) H)).
  intros e [= <-]. lia.
Defined.

(** C5, as stated, fails: two spellings of one address, both accepted, give
    members with different address fields. *)
Lemma constructor_keeps_spelling :
  sameAddress address2 address2upper
  /\ exists m m',
       Member.new Web3.isAddress None address2 None None = Return m
       /\ Member.new Web3.isAddress None address2upper None None = Return m'
       /\ Member.address m <> Member.address m'.
Proof.
  split; [vm_compute; reflexivity|].
  eexists. eexists. split; [vm_compute; reflexivity|].
  split; [vm_compute; reflexivity|]. simpl. discriminate.
Qed.

(** ** Hex digits as bytes *)

Lemma string_pair_ind (P : string -> Prop) :
  P "" -> (forall a, P (String a "")) ->
  (forall a b rest, P rest -> P (String a (String b rest))) ->
  forall s, P s.
Proof.
  intros Hnil Hone Hpair s.
  assert (H : P s /\ forall a, P (String a s)).
  { induction s as [|x s [IH1 IH2]]; split; auto. }
  apply H.
Qed.

Lemma allChars_append (p : ascii -> bool) (a b : string) :
  allChars p (a +:+ b) = allChars p a && allChars p b.
Proof.
  induction a as [|x a IH]; [reflexivity|].
  rewrite append_cons. cbn [allChars]. now rewrite IH, andb_assoc.
Qed.

Lemma hexValue_hexDigit (k : Z) : 0 <= k < 16 -> hexValue (hexDigit k) = Some k.
Proof.
  intros Hk.
  assert (H : k = 0 \/ k = 1 \/ k = 2 \/ k = 3 \/ k = 4 \/ k = 5 \/ k = 6 \/ k = 7 \/ k = 8
              \/ k = 9 \/ k = 10 \/ k = 11 \/ k = 12 \/ k = 13 \/ k = 14 \/ k = 15) by lia.
  repeat (destruct H as [->|H]; [reflexivity|]). subst k. reflexivity.
Qed.

Lemma isHexDigit_hexDigit (k : Z) : 0 <= k < 16 -> isHexDigit (hexDigit k) = true.
Proof.
  intros Hk.
  assert (H : k = 0 \/ k = 1 \/ k = 2 \/ k = 3 \/ k = 4 \/ k = 5 \/ k = 6 \/ k = 7 \/ k = 8
              \/ k = 9 \/ k = 10 \/ k = 11 \/ k = 12 \/ k = 13 \/ k = 14 \/ k = 15) by lia.
  repeat (destruct H as [->|H]; [reflexivity|]). subst k. reflexivity.
Qed.

Lemma isHexDigit_value (c : ascii) : isHexDigit c = true -> exists v, hexValue c = Some v.
Proof.
  destruct c as [[] [] [] [] [] [] [] []]; try discriminate; intros _; eexists; reflexivity.
Qed.

Lemma hexValue_toLowerChar (c : ascii) : hexValue (toLowerChar c) = hexValue c.
Proof.
  destruct c as [[] [] [] [] [] [] [] []]; reflexivity.
Qed.

Lemma isHexDigit_toLowerChar (c : ascii) : isHexDigit (toLowerChar c) = isHexDigit c.
Proof.
  destruct c as [[] [] [] [] [] [] [] []]; reflexivity.
Qed.

Lemma allChars_toLowerCase (s : string) :
  allChars isHexDigit (toLowerCase s) = allChars isHexDigit s.
Proof.
  induction s as [|c s IH]; [reflexivity|].
  cbn [toLowerCase allChars]. now rewrite isHexDigit_toLowerChar, IH.
Qed.

Lemma length_toLowerCase (s : string) : String.length (toLowerCase s) = String.length s.
Proof.
  induction s as [|c s IH]; [reflexivity|]. cbn [toLowerCase String.length]. now rewrite IH.
Qed.

(** Reading hex digits does not depend on their letter case. *)
Lemma fromHex_toLowerCase (s : string) : Buffer.fromHex (toLowerCase s) = Buffer.fromHex s.
Proof.
  induction s as [| a | a b rest IH] using string_pair_ind; [reflexivity | reflexivity |].
  cbn [toLowerCase Buffer.fromHex]. now rewrite !hexValue_toLowerChar, IH.
Qed.

Lemma fromHex_append (a b : string) :
  allChars isHexDigit a = true -> Nat.even (String.length a) = true ->
  Buffer.fromHex (a +:+ b) = Buffer.fromHex a ++ Buffer.fromHex b.
Proof.
  induction a as [| x | x y rest IH] using string_pair_ind; intros Hhex Heven.
  - reflexivity.
  - discriminate.
  - cbn [allChars] in Hhex. apply andb_true_iff in Hhex. destruct Hhex as [Hx Hhex].
    apply andb_true_iff in Hhex. destruct Hhex as [Hy Hhex].
    destruct (isHexDigit_value _ Hx) as [vx Hvx]. destruct (isHexDigit_value _ Hy) as [vy Hvy].
    rewrite !append_cons. cbn [Buffer.fromHex]. rewrite Hvx, Hvy.
    cbn [app]. f_equal. now apply IH.
Qed.

Lemma length_fromHex (a : string) :
  allChars isHexDigit a = true ->
  length (Buffer.fromHex a) = Nat.div2 (String.length a).
Proof.
  induction a as [| x | x y rest IH] using string_pair_ind; intros Hhex;
    [reflexivity | reflexivity |].
  cbn [allChars] in Hhex. apply andb_true_iff in Hhex. destruct Hhex as [Hx Hhex].
  apply andb_true_iff in Hhex. destruct Hhex as [Hy Hhex].
  destruct (isHexDigit_value _ Hx) as [vx Hvx]. destruct (isHexDigit_value _ Hy) as [vy Hvy].
  cbn [Buffer.fromHex String.length Nat.div2 length]. rewrite Hvx, Hvy.
  cbn [length]. now rewrite IH.
Qed.

Lemma allChars_hexFixed (k : nat) : forall n, allChars isHexDigit (hexFixed k n) = true.
Proof.
  induction k as [|k IH]; intros n; [reflexivity|].
  cbn [hexFixed]. rewrite allChars_append, IH. cbn [allChars].
  rewrite isHexDigit_hexDigit by (apply Z.mod_pos_bound; lia). reflexivity.
Qed.

(** An even number of hex digits of a number are the number's bytes. *)
Lemma fromHex_hexFixed (k : nat) :
  forall n, Buffer.fromHex (hexFixed (2 * k) n) = bigEndian k n.
Proof.
  induction k as [|k IH]; intros n; [reflexivity|].
  replace (2 * S k)%nat with (S (S (2 * k))) by lia.
  cbn [hexFixed bigEndian]. rewrite append_assoc.
  rewrite fromHex_append;
    [| apply allChars_hexFixed
     | rewrite length_hexFixed; rewrite Nat.even_mul; reflexivity].
  replace (n / 16 / 16) with (n / 256) by (rewrite Z.div_div by lia; reflexivity).
  rewrite IH. f_equal.
  rewrite !append_cons, append_nil. cbn [Buffer.fromHex].
  rewrite !hexValue_hexDigit by (apply Z.mod_pos_bound; lia).
  do 2 f_equal.
  pose proof (Z.div_mod n 16 ltac:(lia)) as H1.
  pose proof (Z.div_mod (n / 16) 16 ltac:(lia)) as H2.
  pose proof (Z.mod_pos_bound n 16 ltac:(lia)).
  pose proof (Z.mod_pos_bound (n / 16) 16 ltac:(lia)).
  apply (Z.mod_unique_pos n 256 (n / 16 / 16)); lia.
Qed.

Lemma length_bigEndian (k : nat) : forall n, length (bigEndian k n) = k.
Proof.
  induction k as [|k IH]; intros n; [reflexivity|].
  cbn [bigEndian]. rewrite length_app, IH. cbn [length]. lia.
Qed.

Lemma prefix_0x (digits : string) : String.prefix "0x" ("0x" +:+ digits) = true.
Proof.
  rewrite !append_cons, append_nil. cbn [String.prefix].
  destruct (ascii_dec "0" "0") as [_|H]; [|congruence].
  destruct (ascii_dec "x" "x") as [_|H]; [now destruct digits | congruence].
Qed.

(** ** Leaf hashes *)

Lemma hash_buffer (keccak_256 : Buffer.t -> string) (bytes : Buffer.t) :
  MerkleTree.hash keccak_256 (OfBuffer bytes) = Return (digestOf keccak_256 bytes).
Proof. reflexivity. Qed.

(** With the empty salt, [hashLeaf] returns the leaf digest of a member that
    has one, and throws for any other member. *)
Lemma hashLeaf_hashable (keccak_256 : Buffer.t -> string) (m : Member.MonoplasmaMember) :
  hashable m = true ->
  MerkleTree.hashLeaf keccak_256 m (SaltString "") = Return (leafDigest keccak_256 m).
Proof.
  unfold hashable, MerkleTree.hashLeaf, MerkleTree.hash, MerkleTree.keccak256,
    MerkleTree.arrayify, leafDigest, hexBytes, digestOf, BN.ofBN.
  cbn [saltText]. rewrite append_nil. fold (Member.toHashableString m).
  now intros ->.
Qed.

Lemma hashLeaf_unhashable (keccak_256 : Buffer.t -> string) (m : Member.MonoplasmaMember) :
  hashable m = false ->
  exists e, MerkleTree.hashLeaf keccak_256 m (SaltString "") = Throw e.
Proof.
  unfold hashable, MerkleTree.hashLeaf, MerkleTree.hash, MerkleTree.keccak256,
    MerkleTree.arrayify, BN.ofBN.
  cbn [saltText]. rewrite append_nil. fold (Member.toHashableString m).
  intros ->. destruct (allChars isHexDigit (Member.toHashableString m)); eexists; reflexivity.
Qed.

Lemma hashLeaf_returns (keccak_256 : Buffer.t -> string) (m : Member.MonoplasmaMember)
    (leaf : Buffer.t) :
  MerkleTree.hashLeaf keccak_256 m (SaltString "") = Return leaf ->
  hashable m = true /\ leaf = leafDigest keccak_256 m.
Proof.
  intros Hleaf. destruct (hashable m) eqn:Hm.
  - rewrite (hashLeaf_hashable _ _ Hm) in Hleaf. now injection Hleaf as <-.
  - destruct (hashLeaf_unhashable keccak_256 _ Hm) as [e He]. congruence.
Qed.

(** The hashable string of a member with a prefixed address of hex digits and
    earnings that are not negative. *)
Lemma hashable_shape (m : Member.MonoplasmaMember) (digits : string) :
  Member.address m = "0x" +:+ digits -> allChars isHexDigit digits = true ->
  0 <= Member.earnings m < 2 ^ 256 ->
  Member.toHashableString m = "0x" +:+ (digits +:+ hex64 (Member.earnings m))
  /\ hashable m = true.
Proof.
  intros HA Hhex HE.
  assert (Htext : Member.toHashableString m = "0x" +:+ (digits +:+ hex64 (Member.earnings m))).
  { unfold Member.toHashableString. rewrite HA, (toString16_hex64 _ HE).
    now rewrite append_assoc. }
  split; [exact Htext|]. unfold hashable. rewrite Htext, prefix_0x.
  change (slice 2 ("0x" +:+ (digits +:+ hex64 (Member.earnings m))))
    with (digits +:+ hex64 (Member.earnings m)).
  rewrite allChars_append, Hhex. unfold hex64. now rewrite allChars_hexFixed.
Qed.

Lemma leafDigest_bytes (keccak_256 : Buffer.t -> string) (m : Member.MonoplasmaMember)
    (digits : string) :
  Member.address m = "0x" +:+ digits -> allChars isHexDigit digits = true ->
  Nat.even (String.length digits) = true ->
  0 <= Member.earnings m < 2 ^ 256 ->
  leafDigest keccak_256 m
  = digestOf keccak_256 (Buffer.fromHex digits ++ bigEndian 32 (Member.earnings m)).
Proof.
  intros HA Hhex Heven HE. destruct (hashable_shape m digits HA Hhex HE) as [Htext _].
  unfold leafDigest, hexBytes. rewrite Htext.
  change (slice 2 ("0x" +:+ (digits +:+ hex64 (Member.earnings m))))
    with (digits +:+ hex64 (Member.earnings m)).
  assert (Hlen : (String.length (digits +:+ hex64 (Member.earnings m)) mod 2 =? 0)%nat = true).
  { rewrite length_append. unfold hex64. rewrite length_hexFixed.
    apply Nat.eqb_eq. apply Nat.even_spec in Heven. destruct Heven as [h ->]. lia. }
  rewrite Hlen, (fromHex_append _ _ Hhex Heven). unfold hex64.
  now rewrite (fromHex_hexFixed 32).
Qed.

(** C1, as the code has it: with the empty salt, the leaf digest of a member
    whose address is "0x" and 40 hex digits and whose earnings E are a 256-bit
    value is keccak-256 of 52 bytes, the 20 bytes that the digits of the
    address denote followed by E as 32 bytes, most significant first: the
    bytes that the 64 digits of hex64(E) denote. The text is read as hex
    digits, not hashed as text, so the letter case of the digits of the
    address does not matter. *)
Theorem hashLeaf_preimage (keccak_256 : Buffer.t -> string) (m : Member.MonoplasmaMember)
    (digits : string)
    (HA : Member.address m = "0x" +:+ digits)
    (Hlen : String.length digits = 40%nat)
    (Hhex : allChars isHexDigit digits = true)
    (HE : 0 <= Member.earnings m < 2 ^ 256) :
  MerkleTree.hashLeaf keccak_256 m (SaltString "")
  = Return (digestOf keccak_256
              (Buffer.fromHex digits ++ Buffer.fromHex (hex64 (Member.earnings m))))
  /\ length (Buffer.fromHex digits) = 20%nat
  /\ String.length (hex64 (Member.earnings m)) = 64%nat
  /\ Buffer.fromHex (hex64 (Member.earnings m)) = bigEndian 32 (Member.earnings m)
  /\ length (bigEndian 32 (Member.earnings m)) = 32%nat
  /\ (forall (m' : Member.MonoplasmaMember) (digits' : string),
      Member.address m' = "0x" +:+ digits' ->
      toLowerCase digits' = toLowerCase digits ->
      Member.earnings m' = Member.earnings m ->
      MerkleTree.hashLeaf keccak_256 m' (SaltString "")
      = MerkleTree.hashLeaf keccak_256 m (SaltString "")).
Proof.
  assert (Heven : Nat.even (String.length digits) = true) by (now rewrite Hlen).
  assert (Hleaf : forall (m0 : Member.MonoplasmaMember) (ds : string),
            Member.address m0 = "0x" +:+ ds -> allChars isHexDigit ds = true ->
            Nat.even (String.length ds) = true -> Member.earnings m0 = Member.earnings m ->
            MerkleTree.hashLeaf keccak_256 m0 (SaltString "")
            = Return (digestOf keccak_256
                        (Buffer.fromHex ds ++ bigEndian 32 (Member.earnings m)))).
  { intros m0 ds H0 Hds Hev He.
    rewrite hashLeaf_hashable by (apply (hashable_shape m0 ds); [| | rewrite He]; assumption).
    rewrite (leafDigest_bytes _ m0 ds), He; try assumption; [reflexivity|].
    now rewrite He. }
  unfold hex64 at 1 3. rewrite (fromHex_hexFixed 32).
  split; [now apply Hleaf|].
  split; [rewrite (length_fromHex _ Hhex), Hlen; reflexivity|].
  split; [apply length_hexFixed|]. split; [reflexivity|].
  split; [apply length_bigEndian|].
  intros m' digits' HA' Hcase HE'.
  rewrite (Hleaf m' digits' HA'), (Hleaf m digits HA);
    try assumption; try reflexivity.
  - now rewrite <- (fromHex_toLowerCase digits'), Hcase, fromHex_toLowerCase.
  - now rewrite <- allChars_toLowerCase, Hcase, allChars_toLowerCase.
  - now rewrite <- length_toLowerCase, Hcase, length_toLowerCase.
Qed.

Lemma hashLeaf_preimage_witness :
  MerkleTree.hashLeaf keccak_256_hex member1 (SaltString "")
  = Return (digestOf keccak_256_hex
              (Buffer.fromHex "2F428050ea2448ed2e4409bE47e1A50eBac0B2d2"
               ++ Buffer.fromHex
                    "0000000000000000000000000000000000000000000000000000000000000032")).
Proof.
  exact (proj1 (hashLeaf_preimage keccak_256_hex member1
                  "2F428050ea2448ed2e4409bE47e1A50eBac0B2d2" eq_refl eq_refl eq_refl
                  ltac:(cbn [Member.earnings member1]; lia))).
Defined.

(** C1, as stated, fails: the digest of a leaf is not the digest of the bytes
    of the text, lower-cased or not; and with a salt that is not empty no
    digest comes back at all. *)
Lemma hashLeaf_not_text_digest :
  (exists leaf,
     MerkleTree.hashLeaf keccak_256_hex member1 (SaltString "") = Return leaf
     /\ Buffer.toHex leaf
        = "d0faca4f" +:+ slice 8 (Buffer.toHex leaf)
     /\ leaf <> digestOf keccak_256_hex
                  (bytesOfString (toLowerCase address1 +:+ hex64 (Member.earnings member1)))
     /\ leaf <> digestOf keccak_256_hex
                  (bytesOfString (address1 +:+ hex64 (Member.earnings member1))))
  /\ exists e, MerkleTree.hashLeaf keccak_256_hex member1 (SaltNumber 7) = Throw e.
Proof.
  split.
  - eexists. split; [vm_compute; reflexivity|].
    split; [vm_compute; reflexivity|]. split; vm_compute; discriminate.
  - eexists. vm_compute. reflexivity.
Qed.

(** ** Branch hashes *)

Lemma byteValue_inj (x y : Byte.byte) : Buffer.byteValue x = Buffer.byteValue y -> x = y.
Proof.
  unfold Buffer.byteValue. intros H. apply N2Z.inj in H.
  pose proof (Byte.of_to_N x) as Hx. rewrite H, Byte.of_to_N in Hx. congruence.
Qed.

Lemma compare_values (a : Buffer.t) :
  forall b, Buffer.compare a b = -1 \/ Buffer.compare a b = 0 \/ Buffer.compare a b = 1.
Proof.
  induction a as [|x a IH]; intros [|y b]; simpl; auto.
  destruct (Buffer.byteValue x <? Buffer.byteValue y); auto.
  destruct (Buffer.byteValue y <? Buffer.byteValue x); auto.
Qed.

Lemma compare_less (a : Buffer.t) :
  forall b, Buffer.compare a b = -1 -> lexLe a b = true.
Proof.
  induction a as [|x a IH]; intros [|y b]; simpl; try discriminate; auto.
  destruct (Buffer.byteValue x <? Buffer.byteValue y); auto.
  destruct (Buffer.byteValue y <? Buffer.byteValue x); [discriminate | auto].
Qed.

Lemma compare_equal (a : Buffer.t) : forall b, Buffer.compare a b = 0 -> a = b.
Proof.
  induction a as [|x a IH]; intros [|y b]; simpl; try discriminate; auto.
  destruct (Buffer.byteValue x <? Buffer.byteValue y) eqn:H1; [discriminate|].
  destruct (Buffer.byteValue y <? Buffer.byteValue x) eqn:H2; [discriminate|].
  intros H. apply Z.ltb_ge in H1, H2.
  f_equal; [apply byteValue_inj; lia | auto].
Qed.

Lemma compare_greater (a : Buffer.t) :
  forall b, Buffer.compare a b = 1 -> lexLe a b = false.
Proof.
  induction a as [|x a IH]; intros [|y b]; simpl; try discriminate; auto.
  destruct (Buffer.byteValue x <? Buffer.byteValue y) eqn:H1; [discriminate|].
  destruct (Buffer.byteValue y <? Buffer.byteValue x); auto.
Qed.

Lemma lexLe_refl (a : Buffer.t) : lexLe a a = true.
Proof.
  induction a as [|x a IH]; simpl; [reflexivity|].
  rewrite Z.ltb_irrefl. exact IH.
Qed.

Lemma lexLe_total (a : Buffer.t) : forall b, lexLe a b = false -> lexLe b a = true.
Proof.
  induction a as [|x a IH]; intros [|y b]; simpl; try discriminate; auto.
  destruct (Buffer.byteValue x <? Buffer.byteValue y) eqn:H1; [discriminate|].
  destruct (Buffer.byteValue y <? Buffer.byteValue x) eqn:H2; auto.
Qed.

Lemma lexLe_antisym (a : Buffer.t) :
  forall b, lexLe a b = true -> lexLe b a = true -> a = b.
Proof.
  induction a as [|x a IH]; intros [|y b]; simpl; try discriminate; auto.
  destruct (Buffer.byteValue x <? Buffer.byteValue y) eqn:H1;
    destruct (Buffer.byteValue y <? Buffer.byteValue x) eqn:H2; try discriminate.
  - apply Z.ltb_lt in H1, H2. lia.
  - intros Hab Hba. apply Z.ltb_ge in H1, H2.
    f_equal; [apply byteValue_inj; lia | auto].
Qed.

(** The parent that [buildMerkleTree] computes from two digests is the hash
    of the smaller followed by the larger. *)
Lemma parent_is_sortedPairHash (keccak_256 : Buffer.t -> string) (L R : Buffer.t) :
  (if Buffer.compare L R =? -1
   then MerkleTree.hashCombined keccak_256 (OfBuffer L) (OfBuffer R)
   else MerkleTree.hashCombined keccak_256 (OfBuffer R) (OfBuffer L))
  = Return (sortedPairHash keccak_256 L R).
Proof.
  unfold sortedPairHash, MerkleTree.hashCombined, Buffer.concat, lexMin, lexMax.
  rewrite !hash_buffer.
  destruct (compare_values L R) as [H|[H|H]]; rewrite H; simpl.
  - now rewrite (compare_less _ _ H).
  - apply compare_equal in H. subst R. now rewrite lexLe_refl.
  - now rewrite (compare_greater _ _ H).
Qed.

Lemma sortedPairHash_comm (keccak_256 : Buffer.t -> string) (L R : Buffer.t) :
  sortedPairHash keccak_256 L R = sortedPairHash keccak_256 R L.
Proof.
  unfold sortedPairHash, lexMin, lexMax.
  destruct (lexLe L R) eqn:H1; destruct (lexLe R L) eqn:H2; try reflexivity.
  - now rewrite (lexLe_antisym _ _ H1 H2).
  - apply lexLe_total in H1. congruence.
Qed.

(** ** Arrays *)

Lemma get_set_eq (a : list cell) (i : Z) (v : cell) :
  0 <= i -> Array.get (Array.set a i v) i = v.
Proof.
  intros Hi. unfold Array.get, Array.set.
  destruct (i <? 0) eqn:Hneg; [apply Z.ltb_lt in Hneg; lia|].
  destruct (Z.to_nat i <? length a)%nat eqn:Hin.
  - apply Nat.ltb_lt in Hin. now rewrite list_lookup_insert_eq.
  - apply Nat.ltb_ge in Hin.
    rewrite lookup_app_r by lia. rewrite lookup_app_r by (rewrite length_replicate; lia).
    rewrite length_replicate. replace (_ - _ - _)%nat with O by lia. reflexivity.
Qed.

Lemma get_set_ne (a : list cell) (i j : Z) (v : cell) :
  i <> j -> Array.get (Array.set a i v) j = Array.get a j.
Proof.
  intros Hne. unfold Array.get, Array.set.
  destruct (j <? 0) eqn:Hj; [reflexivity|]. apply Z.ltb_ge in Hj.
  destruct (i <? 0) eqn:Hneg; [reflexivity|]. apply Z.ltb_ge in Hneg.
  destruct (Z.to_nat i <? length a)%nat eqn:Hin.
  - rewrite list_lookup_insert_ne by lia. reflexivity.
  - apply Nat.ltb_ge in Hin.
    destruct (le_lt_dec (length a) (Z.to_nat j)) as [Hout|Hinj].
    + rewrite (lookup_ge_None_2 a) by lia.
      rewrite lookup_app_r by lia.
      destruct (le_lt_dec (Z.to_nat i - length a) (Z.to_nat j - length a)) as [Hge|Hlt].
      * rewrite lookup_app_r by (rewrite length_replicate; lia).
        rewrite length_replicate.
        destruct (Z.to_nat j - length a - (Z.to_nat i - length a))%nat eqn:Hd; [lia|].
        reflexivity.
      * rewrite lookup_app_l by (rewrite length_replicate; lia).
        rewrite lookup_replicate_2 by lia. reflexivity.
    + rewrite lookup_app_l by lia. reflexivity.
Qed.

Lemma get_new (n : Z) (a : list cell) (p : Z) : Array.new n = Return a -> Array.get a p = Hole.
Proof.
  unfold Array.new. destruct (_ || _); [discriminate|]. intros [= <-].
  unfold Array.get. destruct (p <? 0); [reflexivity|].
  destruct (replicate (Z.to_nat n) Hole !! Z.to_nat p) eqn:H; [|reflexivity].
  apply lookup_replicate in H. tauto.
Qed.

(** ** 32-bit operators on the indices of a tree *)

Lemma wrap_small (z : Z) : - 2 ^ 31 <= z < 2 ^ 31 -> Int32.wrap z = z.
Proof. intros H. unfold Int32.wrap. rewrite Z.mod_small; lia. Qed.

Lemma sar_one (i : Z) : 0 <= i < 2 ^ 31 -> Int32.sar i 1 = i / 2.
Proof.
  intros H. unfold Int32.sar. rewrite wrap_small by lia.
  change (1 mod 32) with 1. now rewrite Z.shiftr_div_pow2 by lia.
Qed.

Lemma shl_one (i : Z) : 0 <= i < 2 ^ 30 -> Int32.shl i 1 = 2 * i.
Proof.
  intros H. unfold Int32.shl. rewrite (wrap_small i) by lia.
  change (1 mod 32) with 1. rewrite Z.shiftl_mul_pow2 by lia.
  rewrite wrap_small; lia.
Qed.

Lemma lxor_one (i : Z) : 0 <= i -> Z.lxor i 1 = if Z.even i then i + 1 else i - 1.
Proof.
  intros H. destruct i as [|p|p]; [reflexivity| |lia].
  destruct p as [p|p|]; reflexivity.
Qed.

Lemma xor_one (i : Z) :
  0 <= i < 2 ^ 31 -> Int32.xor i 1 = if Z.even i then i + 1 else i - 1.
Proof.
  intros H. unfold Int32.xor. rewrite (wrap_small i), (wrap_small 1) by lia.
  rewrite lxor_one by lia.
  destruct (Z.even i) eqn:He.
  - apply Z.even_spec in He. destruct He as [q ->]. rewrite wrap_small; lia.
  - rewrite wrap_small; [reflexivity|].
    assert (i <> 0) by (intros ->; discriminate). lia.
Qed.

(** ** Rounding up to a power of two *)

(** Above 2^30 the loop never ends: doubling 2^30 in 32 bits gives -2^31, then
    0, which stays 0. *)
Lemma roundUpLoop_stuck (fuel : nat) :
  forall i x, 2 ^ 30 < x ->
  (i = 0 \/ i = - (2 ^ 31) \/ exists j, 0 <= j <= 30 /\ i = 2 ^ j) ->
  MerkleTree.roundUpLoop fuel i x = OutOfFuel.
Proof.
  induction fuel as [|fuel IH]; intros i x Hx Hi; [reflexivity|].
  cbn [MerkleTree.roundUpLoop].
  assert (Hlt : (i <? x) = true).
  { apply Z.ltb_lt. destruct Hi as [->|[->|(j & Hj & ->)]]; [lia | lia |].
    apply Z.le_lt_trans with (2 ^ 30); [apply Z.pow_le_mono_r; lia | exact Hx]. }
  rewrite Hlt. apply IH; [exact Hx|].
  destruct Hi as [->|[->|(j & Hj & ->)]].
  - left. reflexivity.
  - left. reflexivity.
  - destruct (Z.eq_dec j 30) as [->|Hne].
    + right. left. reflexivity.
    + right. right. exists (j + 1). split; [lia|].
      rewrite shl_one.
      * rewrite Z.pow_add_r by lia. lia.
      * split; [apply Z.pow_nonneg; lia | apply Z.pow_lt_mono_r; lia].
Qed.

Lemma roundUpLoop_spec (d : nat) :
  forall (j x : Z) (fuel : nat),
  j = 30 - Z.of_nat d -> 0 <= j -> x <= 2 ^ 30 -> (d < fuel)%nat ->
  exists k, j <= k <= 30
            /\ MerkleTree.roundUpLoop fuel (2 ^ j) x = Return (2 ^ k)
            /\ x <= 2 ^ k /\ (k = j \/ 2 ^ (k - 1) < x).
Proof.
  induction d as [|d IH]; intros j x fuel Hj Hpos Hx Hfuel;
    (destruct fuel as [|fuel]; [lia|]); cbn [MerkleTree.roundUpLoop].
  - assert (Hj30 : j = 30) by lia. clear Hj. subst j.
    destruct (2 ^ 30 <? x) eqn:Hlt; [apply Z.ltb_lt in Hlt; lia|].
    exists 30. split; [lia|]. split; [reflexivity|]. split; [lia | now left].
  - destruct (2 ^ j <? x) eqn:Hlt.
    + apply Z.ltb_lt in Hlt.
      rewrite shl_one
        by (split; [apply Z.pow_nonneg; lia | apply Z.pow_lt_mono_r; lia]).
      replace (2 * 2 ^ j) with (2 ^ (j + 1)) by (rewrite Z.pow_add_r by lia; lia).
      destruct (IH (j + 1) x fuel) as (k & Hk & Hrun & Hle & Hmin); try lia.
      exists k. split; [lia|]. split; [exact Hrun|]. split; [lia|].
      right. destruct Hmin as [->|Hmin]; [|exact Hmin].
      now replace (j + 1 - 1) with j by lia.
    + apply Z.ltb_ge in Hlt. exists j.
      split; [lia|]. split; [reflexivity|]. split; [lia | now left].
Qed.

(** Up to 2^30 the result is the least power of two that is at least [x]. *)
Lemma roundUpToPowerOfTwo_spec (fuel : nat) (x : Z) :
  0 <= x <= 2 ^ 30 -> (31 <= fuel)%nat ->
  exists k, 0 <= k <= 30
            /\ MerkleTree.roundUpToPowerOfTwo fuel x = Return (2 ^ k)
            /\ x <= 2 ^ k /\ (k = 0 \/ 2 ^ (k - 1) < x)
            /\ leastPowerOfTwoAtLeast x (2 ^ k).
Proof.
  intros Hx Hfuel. unfold MerkleTree.roundUpToPowerOfTwo, MerkleTree.MAX_POW_2.
  destruct (x >? 2 ^ 32) eqn:Hbig; [apply Z.gtb_lt in Hbig; lia|].
  destruct (roundUpLoop_spec 30 0 x fuel) as (k & Hk & Hrun & Hle & Hmin); try lia.
  exists k. split; [lia|]. split; [exact Hrun|]. split; [exact Hle|]. split; [exact Hmin|].
  split; [exists k; split; [lia | reflexivity]|]. split; [exact Hle|].
  intros k' Hk' Hle'. destruct Hmin as [->|Hmin].
  - change (2 ^ 0) with 1. pose proof (Z.pow_pos_nonneg 2 k'). lia.
  - apply Z.pow_le_mono_r; [lia|].
    destruct (Z_lt_le_dec k' k) as [Hlt|Hge]; [|lia].
    assert (2 ^ k' <= 2 ^ (k - 1)) by (apply Z.pow_le_mono_r; lia). lia.
Qed.

(** Above 2^32 the input is refused. *)
Lemma roundUpToPowerOfTwo_rejects (fuel : nat) (x : Z) :
  2 ^ 32 < x ->
  MerkleTree.roundUpToPowerOfTwo fuel x
  = Throw (Error ("Number too big: " +:+ decimal x +:+ ". Must be smaller than 2^32.")).
Proof.
  intros Hx. unfold MerkleTree.roundUpToPowerOfTwo, MerkleTree.MAX_POW_2.
  destruct (x >? 2 ^ 32) eqn:Hbig; [reflexivity|].
  rewrite Z.gtb_ltb in Hbig. apply Z.ltb_ge in Hbig. lia.
Qed.

(** Between 2^30 and 2^32 the input is not refused and the loop never ends. *)
Lemma roundUpToPowerOfTwo_never_returns (fuel : nat) (x : Z) :
  2 ^ 30 < x <= 2 ^ 32 -> MerkleTree.roundUpToPowerOfTwo fuel x = OutOfFuel.
Proof.
  intros Hx. unfold MerkleTree.roundUpToPowerOfTwo, MerkleTree.MAX_POW_2.
  destruct (x >? 2 ^ 32) eqn:Hbig; [apply Z.gtb_lt in Hbig; lia|].
  apply roundUpLoop_stuck; [lia|]. right. right. exists 0. split; [lia | reflexivity].
Qed.

Lemma buildMerkleTree_never_returns (keccak_256 : Buffer.t -> string) (fuel : nat)
    (members : list Member.MonoplasmaMember) :
  2 ^ 30 < leafCountOf members <= 2 ^ 32 ->
  MerkleTree.buildMerkleTree keccak_256 fuel members = OutOfFuel.
Proof.
  intros H. unfold MerkleTree.buildMerkleTree. fold (leafCountOf members).
  now rewrite roundUpToPowerOfTwo_never_returns.
Qed.

(** C4: the guard against the endless loop sits at 2^32, and the loop already
    fails to end above 2^30. For a list of 2^30 + 1 members (leafCount
    2^30 + 2, below 2^31) the build is not refused and returns no tree, however
    many steps it is given. *)
Theorem buildMerkleTree_oversize_loops_forever :
  forall (keccak_256 : Buffer.t -> string) (fuel : nat) (m : Member.MonoplasmaMember),
  leafCountOf (replicate (Z.to_nat (2 ^ 30 + 1)) m) = 2 ^ 30 + 2
  /\ 2 ^ 30 + 2 <= 2 ^ 31
  /\ MerkleTree.buildMerkleTree keccak_256 fuel (replicate (Z.to_nat (2 ^ 30 + 1)) m)
     = OutOfFuel.
Proof.
  intros keccak_256 fuel m.
  assert (Hrange : 2 ^ 30 + 2 <= 2 ^ 31 /\ 2 ^ 30 < 2 ^ 30 + 2 <= 2 ^ 32) by lia.
  assert (Hcount : leafCountOf (replicate (Z.to_nat (2 ^ 30 + 1)) m) = 2 ^ 30 + 2).
  { unfold leafCountOf. rewrite length_replicate, Z2Nat.id by (clear; lia). reflexivity. }
  split; [exact Hcount|]. split; [apply Hrange|].
  apply buildMerkleTree_never_returns. rewrite Hcount. apply Hrange.
Qed.

(** ** The levels of the tree *)

Lemma list_pair_ind {A : Type} (P : list A -> Prop) :
  P [] -> (forall a, P [a]) -> (forall a b rest, P rest -> P (a :: b :: rest)) ->
  forall l, P l.
Proof.
  intros Hnil Hone Hpair l.
  assert (H : P l /\ forall a, P (a :: l)).
  { induction l as [|x l [IH1 IH2]]; split; auto. }
  apply H.
Qed.

Lemma length_nextLevel (keccak_256 : Buffer.t -> string) (xs : list Buffer.t) :
  length (nextLevel keccak_256 xs) = Nat.div2 (S (length xs)).
Proof.
  induction xs as [| a | a b rest IH] using list_pair_ind; [reflexivity | reflexivity |].
  simpl in *. now rewrite IH.
Qed.

Lemma pow2_S (d : nat) : pow2 (S d) = 2 * pow2 d.
Proof. unfold pow2. rewrite Nat2Z.inj_succ, Z.pow_succ_r by lia. reflexivity. Qed.

Lemma pow2_pos (d : nat) : 1 <= pow2 d.
Proof. unfold pow2. pose proof (Z.pow_pos_nonneg 2 (Z.of_nat d)). lia. Qed.

Lemma pow2_le (d d' : nat) : (d <= d')%nat -> pow2 d <= pow2 d'.
Proof. intros H. unfold pow2. apply Z.pow_le_mono_r; lia. Qed.

Lemma mod2_SS (n : nat) : (S (S n) mod 2 = n mod 2)%nat.
Proof.
  replace (S (S n)) with (n + 1 * 2)%nat by lia. apply Nat.Div0.mod_add.
Qed.

Lemma pairLoop_spec (keccak_256 : Buffer.t -> string) (ys : list Buffer.t) :
  forall (fuel : nat) (A : list cell) (src tgt endI : Z),
  0 <= tgt < src ->
  (forall j, (j < length ys)%nat -> Array.get A (src + Z.of_nat j) = Buf (nth j ys [])) ->
  (forall p, src + Z.of_nat (length ys) <= p < endI -> Array.get A p = Hole) ->
  (exists h, endI - src = 2 * h) -> Z.of_nat (length ys) <= endI - src ->
  (length ys < fuel)%nat ->
  exists A',
    MerkleTree.pairLoop keccak_256 fuel A src tgt endI = Return A'
    /\ (forall j, (j < length (nextLevel keccak_256 ys))%nat ->
        Array.get A' (tgt + Z.of_nat j) = Buf (nth j (nextLevel keccak_256 ys) []))
    /\ ((length ys mod 2 = 1)%nat ->
        Array.get A' (src + Z.of_nat (length ys)) = Buf (Buffer.alloc 32))
    /\ (forall p, ~ (tgt <= p < tgt + Z.of_nat (length (nextLevel keccak_256 ys))) ->
        ~ ((length ys mod 2 = 1)%nat /\ p = src + Z.of_nat (length ys)) ->
        Array.get A' p = Array.get A p).
Proof.
  induction ys as [| a | a b rest IH] using list_pair_ind;
    intros fuel A src tgt endI Htgt Hnodes Hholes [h Heven] Hlen Hfuel;
    (destruct fuel as [|fuel]; [lia|]); cbn [MerkleTree.pairLoop].
  - exists A.
    assert (Hrun : (if src <? endI
                    then if negb (truthy (Array.get A src)) then Return A
                         else Return A
                    else Return A) = Return A)
      by (destruct (src <? endI); [destruct (negb _)|]; reflexivity).
    split.
    + destruct (src <? endI) eqn:Hlt; [|reflexivity].
      apply Z.ltb_lt in Hlt. rewrite (Hholes src) by (simpl; lia). reflexivity.
    + split; [simpl; intros j Hj; lia|]. split; [simpl; intros H; discriminate|]. reflexivity.
  - simpl length in *.
    assert (Hlt : (src <? endI) = true) by (apply Z.ltb_lt; lia). rewrite Hlt.
    pose proof (Hnodes O ltac:(lia)) as H0. simpl in H0. rewrite Z.add_0_r in H0.
    rewrite H0. rewrite (Hholes (src + 1)) by lia. simpl.
    eexists. split; [reflexivity|]. split; [|split].
    + intros j Hj. assert (j = O) by lia. subst j. simpl. rewrite Z.add_0_r.
      apply get_set_eq. lia.
    + intros _. change (Z.of_nat 1) with 1. rewrite get_set_ne by lia. apply get_set_eq. lia.
    + intros p Hp1 Hp2. change (Z.of_nat 1) with 1 in *.
      rewrite get_set_ne by (intros Heq; apply Hp1; lia).
      rewrite get_set_ne by (intros Heq; apply Hp2; split; [reflexivity | lia]).
      reflexivity.
  - simpl length in *.
    assert (Hlt : (src <? endI) = true) by (apply Z.ltb_lt; lia). rewrite Hlt.
    pose proof (Hnodes O ltac:(lia)) as H0. simpl in H0. rewrite Z.add_0_r in H0.
    pose proof (Hnodes 1%nat ltac:(lia)) as H1. simpl in H1.
    change (Z.of_nat 1) with 1 in H1.
    rewrite H0, H1. cbn [truthy negb]. rewrite parent_is_sortedPairHash.
    destruct (IH fuel (Array.set A tgt (Buf (sortedPairHash keccak_256 a b)))
                (src + 2) (tgt + 1) endI) as (A' & Hrun & Hn & Hz & Hf).
    + lia.
    + intros j Hj. rewrite get_set_ne by lia.
      replace (src + 2 + Z.of_nat j) with (src + Z.of_nat (S (S j))) by lia.
      rewrite Hnodes by lia. reflexivity.
    + intros p Hp. rewrite get_set_ne by lia. apply Hholes. lia.
    + exists (h - 1). lia.
    + lia.
    + lia.
    + exists A'. split; [exact Hrun|]. split; [|split].
      * intros [|j] Hj.
        -- simpl. rewrite Z.add_0_r. rewrite Hf; [apply get_set_eq; lia | lia | lia].
        -- simpl. replace (tgt + Z.of_nat (S j)) with (tgt + 1 + Z.of_nat j) by lia.
           apply Hn. simpl in Hj. lia.
      * intros Hodd.
        replace (src + Z.of_nat (S (S (length rest)))) with (src + 2 + Z.of_nat (length rest))
          by lia.
        apply Hz. now rewrite mod2_SS in Hodd.
      * intros p Hp1 Hp2. simpl in Hp1.
        rewrite Hf.
        -- apply get_set_ne. intros Heq. apply Hp1. lia.
        -- intros H. apply Hp1. lia.
        -- intros [Hodd Heq]. apply Hp2. split; [now rewrite mod2_SS | lia].
Qed.

Lemma div2_bounds (n : nat) : (n <= 2 * Nat.div2 (S n) <= S n)%nat.
Proof.
  assert (H : (n <= 2 * Nat.div2 (S n) <= S n)%nat
              /\ (S n <= 2 * Nat.div2 (S (S n)) <= S (S n))%nat).
  { induction n as [|n [IH1 IH2]]; [simpl; lia|].
    split; [exact IH2|]. change (Nat.div2 (S (S (S n)))) with (S (Nat.div2 (S n))). lia. }
  apply H.
Qed.

Lemma length_nextLevel_bounds (keccak_256 : Buffer.t -> string) (xs : list Buffer.t) :
  (length xs <= 2 * length (nextLevel keccak_256 xs) <= S (length xs))%nat.
Proof. rewrite length_nextLevel. apply div2_bounds. Qed.

Lemma levelAbove_nextLevel (keccak_256 : Buffer.t -> string) (e : nat) (xs : list Buffer.t) :
  levelAbove keccak_256 e (nextLevel keccak_256 xs) = levelAbove keccak_256 (S e) xs.
Proof.
  induction e as [|e IH]; [reflexivity|].
  cbn [levelAbove] in *. now rewrite IH.
Qed.

Lemma levelLoop_spec (keccak_256 : Buffer.t -> string) (d : nat) :
  forall (fuel : nat) (A : list cell) (xs : list Buffer.t) (endI : Z),
  (d <= 30)%nat ->
  (1 <= length xs)%nat -> Z.of_nat (length xs) <= pow2 d ->
  (forall j, (j < length xs)%nat -> Array.get A (pow2 d + Z.of_nat j) = Buf (nth j xs [])) ->
  (forall p, pow2 d + Z.of_nat (length xs) <= p < endI -> Array.get A p = Hole) ->
  (forall p, 1 <= p < pow2 d -> Array.get A p = Hole) ->
  ((1 <= d)%nat ->
   (exists h, endI - pow2 d = 2 * h) /\ Z.of_nat (length xs) <= endI - pow2 d
   /\ endI <= pow2 (S d)) ->
  (length xs + d < fuel)%nat ->
  exists A',
    MerkleTree.levelLoop keccak_256 fuel A (pow2 d) endI = Return A'
    /\ (forall e j, (e <= d)%nat -> (j < length (levelAbove keccak_256 e xs))%nat ->
        Array.get A' (pow2 (d - e) + Z.of_nat j) = Buf (nth j (levelAbove keccak_256 e xs) []))
    /\ (forall e, (e < d)%nat -> (length (levelAbove keccak_256 e xs) mod 2 = 1)%nat ->
        Array.get A' (pow2 (d - e) + Z.of_nat (length (levelAbove keccak_256 e xs)))
        = Buf (Buffer.alloc 32))
    /\ (forall p, p <= 0 \/ pow2 (S d) <= p -> Array.get A' p = Array.get A p).
Proof.
  induction d as [|d IH];
    intros fuel A xs endI Hd Hlen1 Hlen Hnodes Hholes Hbelow Hend Hfuel;
    (destruct fuel as [|fuel]; [lia|]); cbn [MerkleTree.levelLoop].
  - change (pow2 0) with 1 in *. change (1 >? 1) with false. cbn iota.
    exists A. split; [reflexivity|]. split; [|split].
    + intros e j He Hj. assert (e = O) by lia. subst e. simpl in *. now apply Hnodes.
    + intros e He. lia.
    + reflexivity.
  - destruct (Hend ltac:(lia)) as ([h Hh] & Hlen' & HendI). clear Hend.
    pose proof (pow2_pos d) as Hpos. pose proof (pow2_S d) as HS.
    pose proof (pow2_S (S d)) as HSS.
    assert (Hd31 : pow2 (S d) <= 2 ^ 30).
    { unfold pow2. apply Z.pow_le_mono_r; lia. }
    assert (Hgt : (pow2 (S d) >? 1) = true) by (apply Z.gtb_lt; lia). rewrite Hgt.
    rewrite sar_one by lia.
    replace (pow2 (S d) / 2) with (pow2 d)
      by (rewrite HS, Z.mul_comm, Z.div_mul; lia).
    destruct (pairLoop_spec keccak_256 xs (S fuel) A (pow2 (S d)) (pow2 d) endI)
      as (A1 & Hrun1 & Hn1 & Hz1 & Hf1); try lia; try assumption.
    { exists h. exact Hh. }
    rewrite Hrun1. cbn [mbind outcome_bind].
    pose proof (length_nextLevel_bounds keccak_256 xs) as Hnl.
    destruct (IH fuel A1 (nextLevel keccak_256 xs) (pow2 (S d)))
      as (A' & Hrun & Hn & Hz & Hf); try lia; try assumption.
    + intros p Hp. rewrite Hf1 by lia. apply Hbelow. lia.
    + intros p Hp. rewrite Hf1 by lia. apply Hbelow. lia.
    + intros Hd1. split; [|lia].
      destruct d as [|d']; [lia|]. exists (pow2 d'). rewrite (pow2_S d') in *. lia.
    + exists A'. split; [exact Hrun|]. split; [|split].
      * intros [|e] j He Hj.
        -- cbn [levelAbove] in *. replace (S d - 0)%nat with (S d) by lia.
           rewrite Hf by lia. rewrite Hf1 by lia. now apply Hnodes.
        -- rewrite <- levelAbove_nextLevel in *.
           replace (S d - S e)%nat with (d - e)%nat by lia. apply Hn; [lia | exact Hj].
      * intros [|e] He Hodd.
        -- cbn [levelAbove] in *. replace (S d - 0)%nat with (S d) by lia.
           rewrite Hf by lia. now apply Hz1.
        -- rewrite <- levelAbove_nextLevel in *.
           replace (S d - S e)%nat with (d - e)%nat by lia. apply Hz; [lia | exact Hodd].
      * intros p Hp. rewrite Hf by lia. apply Hf1; [lia|].
        intros [Hodd Heq].
        assert (Z.of_nat (length xs) <> endI - pow2 (S d)); [|lia].
        intros Heq'. rewrite Hh in Heq'.
        assert (Hpar : (length xs mod 2 = 0)%nat).
        { replace (length xs) with (Z.to_nat h * 2)%nat by lia. apply Nat.Div0.mod_mul. }
        lia.
Qed.

(** ** Building the tree *)

(** The address of a member that has a leaf starts with "0x", so its key is
    written as an own property. *)
Lemma hashable_write (m : Member.MonoplasmaMember) (ix : gmap string Z) (i : Z) :
  hashable m = true ->
  MerkleTree.writeIndex ix (Member.address m) i = <[Member.address m := i]> ix.
Proof.
  unfold hashable, MerkleTree.writeIndex, Member.toHashableString. intros Hm.
  destruct (String.eqb_spec (Member.address m) "__proto__") as [Heq|_]; [|reflexivity].
  rewrite Heq, !append_cons in Hm. cbn [String.prefix] in Hm.
  destruct (ascii_dec "0" "_"); discriminate.
Qed.

Lemma placeLeaves_spec (keccak_256 : Buffer.t -> string)
    (ms : list Member.MonoplasmaMember) :
  Forall (fun m => hashable m = true) ms ->
  forall (A : list cell) (ix : gmap string Z) (i : Z), 0 <= i ->
  exists A' ix',
    MerkleTree.placeLeaves keccak_256 ms A ix i = Return (A', ix')
    /\ (forall j, (j < length ms)%nat ->
        Array.get A' (i + Z.of_nat j) = Buf (nth j (leafDigests keccak_256 ms) []))
    /\ (forall p, ~ (i <= p < i + Z.of_nat (length ms)) -> Array.get A' p = Array.get A p)
    /\ (forall a v, ix' !! a = Some v ->
        ix !! a = Some v
        \/ exists j m, ms !! j = Some m /\ Member.address m = a /\ v = i + Z.of_nat j)
    /\ (forall m, In m ms -> is_Some (ix' !! Member.address m))
    /\ (forall a, is_Some (ix !! a) -> is_Some (ix' !! a)).
Proof.
  induction 1 as [|m rest Hm _ IH]; intros A ix i Hi; cbn [MerkleTree.placeLeaves].
  - exists A, ix. split; [reflexivity|].
    split; [simpl; intros j Hj; lia|]. split; [reflexivity|].
    split; [intros a v H; now left|]. split; [intros m []|]. auto.
  - rewrite (hashLeaf_hashable _ _ Hm), (hashable_write _ _ _ Hm). cbn [mbind outcome_bind].
    destruct (IH (Array.set A i (Buf (leafDigest keccak_256 m)))
                (<[Member.address m := i]> ix) (i + 1) ltac:(lia))
      as (A' & ix' & Hrun & Hn & Hf & Hix & Hin & Hmono).
    exists A', ix'. split; [exact Hrun|]. simpl length.
    split; [|split; [|split; [|split]]].
    + intros [|j] Hj.
      * simpl. rewrite Z.add_0_r. rewrite Hf by lia. apply get_set_eq. lia.
      * simpl. replace (i + Z.of_nat (S j)) with (i + 1 + Z.of_nat j) by lia.
        apply Hn. lia.
    + intros p Hp. rewrite Hf by lia. apply get_set_ne. lia.
    + intros a v Hv. destruct (Hix a v Hv) as [H|(j & m' & Hj & Ha & ->)].
      * destruct (decide (Member.address m = a)) as [<-|Hne].
        -- rewrite lookup_insert_eq in H. injection H as <-.
           right. exists O, m. split; [reflexivity|]. split; [reflexivity | simpl; lia].
        -- rewrite lookup_insert_ne in H by exact Hne. now left.
      * right. exists (S j), m'. split; [exact Hj|]. split; [exact Ha | lia].
    + intros m' [<-|Hm'].
      * apply Hmono. rewrite lookup_insert_eq. eauto.
      * now apply Hin.
    + intros a Ha. apply Hmono.
      destruct (decide (Member.address m = a)) as [<-|Hne].
      * rewrite lookup_insert_eq. eauto.
      * now rewrite lookup_insert_ne.
Qed.

Lemma leafCountOf_bounds (members : list Member.MonoplasmaMember) :
  Z.of_nat (length members) <= leafCountOf members <= Z.of_nat (length members) + 1
  /\ exists h, leafCountOf members = 2 * h.
Proof.
  unfold leafCountOf.
  pose proof (Z.mod_pos_bound (Z.of_nat (length members)) 2 ltac:(lia)) as Hb.
  pose proof (Z.div_mod (Z.of_nat (length members)) 2 ltac:(lia)) as Hdm.
  split; [lia|].
  assert (Hcase : Z.of_nat (length members) mod 2 = 0 \/ Z.of_nat (length members) mod 2 = 1)
    by lia.
  destruct Hcase as [H|H]; rewrite H in *.
  - exists (Z.of_nat (length members) / 2). lia.
  - exists (Z.of_nat (length members) / 2 + 1). lia.
Qed.

(** The leaves are placed exactly when every member has a leaf; the first
    member without one ends the build with what [hashLeaf] throws. *)
Lemma placeLeaves_returns (keccak_256 : Buffer.t -> string)
    (ms : list Member.MonoplasmaMember) :
  forall (A : list cell) (ix : gmap string Z) (i : Z) (placed : list cell * gmap string Z),
  MerkleTree.placeLeaves keccak_256 ms A ix i = Return placed ->
  Forall (fun m => hashable m = true) ms.
Proof.
  induction ms as [|m rest IH]; intros A ix i placed Hrun; [constructor|].
  cbn [MerkleTree.placeLeaves] in Hrun.
  destruct (MerkleTree.hashLeaf keccak_256 m (SaltString "")) as [leaf| |] eqn:Hleaf;
    try discriminate.
  cbn [mbind outcome_bind] in Hrun. constructor; [|eapply IH; exact Hrun].
  now apply (hashLeaf_returns keccak_256 m leaf).
Qed.

Lemma placeLeaves_throws (keccak_256 : Buffer.t -> string)
    (ms : list Member.MonoplasmaMember) :
  Exists (fun m => hashable m = false) ms ->
  forall (A : list cell) (ix : gmap string Z) (i : Z),
  exists e, MerkleTree.placeLeaves keccak_256 ms A ix i = Throw e.
Proof.
  induction ms as [|m rest IH]; intros Hex A ix i; [now apply Exists_nil in Hex|].
  cbn [MerkleTree.placeLeaves]. destruct (hashable m) eqn:Hm.
  - rewrite (hashLeaf_hashable _ _ Hm). cbn [mbind outcome_bind]. apply IH.
    apply Exists_cons in Hex. destruct Hex as [Hex|Hex]; [congruence | exact Hex].
  - destruct (hashLeaf_unhashable keccak_256 _ Hm) as [e He]. rewrite He. now exists e.
Qed.

(** For a list that is not empty, within 2^30 leaves and of members that all
    have a leaf, the build returns, and what it returns is the tree of the
    specification. *)
Lemma buildMerkleTree_spec (keccak_256 : Buffer.t -> string) (fuel : nat)
    (members : list Member.MonoplasmaMember) :
  members <> [] -> Forall (fun m => hashable m = true) members ->
  leafCountOf members <= 2 ^ 30 -> (32 + length members <= fuel)%nat ->
  exists tr d,
    MerkleTree.buildMerkleTree keccak_256 fuel members = Return tr
    /\ wellBuilt keccak_256 members tr d.
Proof.
  intros Hne Hall Hcount Hfuel.
  destruct (leafCountOf_bounds members) as [Hlc [h Hh]].
  assert (Hlen : (1 <= length members)%nat) by (destruct members; [congruence | simpl; lia]).
  unfold MerkleTree.buildMerkleTree. fold (leafCountOf members).
  destruct (roundUpToPowerOfTwo_spec fuel (leafCountOf members))
    as (k & Hk & Hrun & Hle & Hmin & Hleast); try lia.
  rewrite Hrun. cbn [mbind outcome_bind].
  assert (Hk1 : 1 <= k).
  { destruct (Z.eq_dec k 0) as [->|]; [|lia]. change (2 ^ 0) with 1 in Hle. lia. }
  set (d := Z.to_nat k).
  assert (Hpow : 2 ^ k = pow2 d) by (unfold pow2, d; rewrite Z2Nat.id by lia; reflexivity).
  rewrite Hpow in *.
  assert (Hd : (1 <= d <= 30)%nat) by (unfold d; lia).
  pose proof (pow2_pos d) as Hpos.
  assert (Hd30 : pow2 d <= 2 ^ 30) by (unfold pow2; apply Z.pow_le_mono_r; lia).
  destruct (Array.new (pow2 d + leafCountOf members)) as [A0| |] eqn:Hnew;
    [| unfold Array.new in Hnew; destruct (_ || _) eqn:Hrange; [|discriminate];
       apply orb_true_iff in Hrange; destruct Hrange as [H|H];
       [apply Z.ltb_lt in H | apply Z.gtb_lt in H]; lia
     | unfold Array.new in Hnew; destruct (_ || _); discriminate].
  cbn [mbind outcome_bind].
  destruct (placeLeaves_spec keccak_256 members Hall (Array.set A0 0 (Num (pow2 d))) ∅ (pow2 d)
              ltac:(lia)) as (A1 & ix & Hplace & Hn1 & Hf1 & Hix & Hin & _).
  rewrite Hplace. cbn [mbind outcome_bind].
  destruct (levelLoop_spec keccak_256 d fuel A1 (leafDigests keccak_256 members)
              (pow2 d + leafCountOf members))
    as (A' & Hlevels & Hn & Hz & Hf).
  - lia.
  - unfold leafDigests. rewrite length_map. lia.
  - unfold leafDigests. rewrite length_map. lia.
  - unfold leafDigests at 1. rewrite length_map. exact Hn1.
  - unfold leafDigests. rewrite length_map. intros p Hp.
    rewrite Hf1 by lia. rewrite get_set_ne by lia. now apply (get_new _ _ _ Hnew).
  - intros p Hp. rewrite Hf1 by lia. rewrite get_set_ne by lia. now apply (get_new _ _ _ Hnew).
  - intros _. unfold leafDigests. rewrite length_map.
    split; [exists h; lia|]. split; [lia|]. rewrite pow2_S. lia.
  - unfold leafDigests. rewrite length_map. lia.
  - rewrite Hlevels. cbn [mbind outcome_bind].
    eexists. exists d. split; [reflexivity|].
    unfold wellBuilt. cbn [MerkleTree.hashes MerkleTree.indexOf].
    split; [exact Hd|]. split.
    { rewrite Hf by lia. rewrite Hf1 by lia. apply get_set_eq. lia. }
    split; [exact Hleast|]. split; [exact Hn|]. split; [exact Hz|]. split; [|exact Hin].
    intros a v Hv. destruct (Hix a v Hv) as [H|H]; [|exact H].
    rewrite lookup_empty in H. discriminate.
Qed.

(** ** Paths *)

Lemma even_mod2 (i : Z) : Z.even i = (i mod 2 =? 0).
Proof.
  destruct (Z.even i) eqn:He.
  - apply Z.even_spec in He. destruct He as [q ->]. symmetry. apply Z.eqb_eq. lia.
  - rewrite <- Z.negb_odd in He. apply negb_false_iff, Z.odd_spec in He.
    destruct He as [q ->]. symmetry. apply Z.eqb_neq. lia.
Qed.

Lemma levelAbove_length_le (keccak_256 : Buffer.t -> string) (xs : list Buffer.t) (d : nat) :
  Z.of_nat (length xs) <= pow2 d ->
  forall e, (e <= d)%nat -> Z.of_nat (length (levelAbove keccak_256 e xs)) <= pow2 (d - e).
Proof.
  intros Hxs. induction e as [|e IH]; intros He.
  - now rewrite Nat.sub_0_r.
  - cbn [levelAbove].
    pose proof (length_nextLevel_bounds keccak_256 (levelAbove keccak_256 e xs)) as Hb.
    specialize (IH ltac:(lia)).
    replace (d - e)%nat with (S (d - S e)) in IH by lia. rewrite pow2_S in IH. lia.
Qed.

Lemma wellBuilt_length (keccak_256 : Buffer.t -> string)
    (members : list Member.MonoplasmaMember) (tr : MerkleTree.tree) (d : nat) :
  wellBuilt keccak_256 members tr d ->
  Z.of_nat (length (leafDigests keccak_256 members)) <= pow2 d.
Proof.
  intros (_ & _ & (_ & Hle & _) & _).
  unfold leafDigests. rewrite length_map.
  pose proof (leafCountOf_bounds members). lia.
Qed.

(** From a node [j] of the row [e] levels above the leaves, [r] levels below
    the root, the path loop returns [r] digests: the siblings met on the way
    up. *)
Lemma pathLoop_spec (keccak_256 : Buffer.t -> string)
    (members : list Member.MonoplasmaMember) (tr : MerkleTree.tree) (d : nat) :
  wellBuilt keccak_256 members tr d ->
  forall (r e j fuel : nat),
  (e + r = d)%nat ->
  (j < length (levelAbove keccak_256 e (leafDigests keccak_256 members)))%nat ->
  (r < fuel)%nat ->
  exists sibs : list Buffer.t,
    MerkleTree.pathLoop fuel (MerkleTree.hashes tr) (pow2 r + Z.of_nat j)
    = Return (map Buf sibs)
    /\ length sibs = r
    /\ forall t, (t < r)%nat ->
       Array.get (MerkleTree.hashes tr)
         (Z.lxor (Z.shiftr (pow2 r + Z.of_nat j) (Z.of_nat t)) 1)
       = Buf (nth t sibs []).
Proof.
  intros W. pose proof (wellBuilt_length _ _ _ _ W) as Hxs.
  destruct W as (Hd & _ & _ & Hnodes & Hzero & _).
  set (xs := leafDigests keccak_256 members) in *.
  induction r as [|r IH]; intros e j fuel Her Hj Hfuel;
    (destruct fuel as [|fuel]; [lia|]); cbn [MerkleTree.pathLoop];
    pose proof (levelAbove_length_le keccak_256 xs d Hxs e ltac:(lia)) as Hlen.
  - replace (d - e)%nat with O in Hlen by lia.
    change (pow2 0) with 1 in *. assert (j = O) by lia. subst j.
    exists []. split; [reflexivity|]. split; [reflexivity|]. intros t Ht. lia.
  - replace (d - e)%nat with (S r) in Hlen by lia.
    pose proof (pow2_pos r) as Hpos. pose proof (pow2_S r) as HS.
    assert (H30 : pow2 (S r) <= 2 ^ 30) by (unfold pow2; apply Z.pow_le_mono_r; lia).
    set (i := pow2 (S r) + Z.of_nat j) in *.
    assert (Hi : 2 <= i < 2 ^ 31) by (unfold i; lia).
    assert (Hgt : (i >? 1) = true) by (apply Z.gtb_lt; lia). rewrite Hgt.
    rewrite sar_one, xor_one, even_mod2 by lia.
    assert (Hhalf : i / 2 = pow2 r + Z.of_nat (Nat.div2 j)).
    { unfold i. rewrite Nat.div2_div. lia. }
    rewrite Hhalf.
    pose proof (length_nextLevel_bounds keccak_256 (levelAbove keccak_256 e xs)) as Hb.
    destruct (IH (S e) (Nat.div2 j) fuel) as (sibs & Hrun & Hsl & Hsib); try lia.
    { cbn [levelAbove]. rewrite Nat.div2_div. lia. }
    rewrite Hrun. cbn [mbind outcome_bind].
    assert (Hsibling : exists b,
               Array.get (MerkleTree.hashes tr) (if i mod 2 =? 0 then i + 1 else i - 1)
               = Buf b).
    { destruct (i mod 2 =? 0) eqn:Hpar.
      - apply Z.eqb_eq in Hpar.
        destruct (decide (S j < length (levelAbove keccak_256 e xs))%nat) as [Hin|Hlast].
        + eexists. replace (i + 1) with (pow2 (d - e) + Z.of_nat (S j))
            by (replace (d - e)%nat with (S r) by lia; unfold i; lia).
          apply Hnodes; [lia | exact Hin].
        + eexists. replace (i + 1)
            with (pow2 (d - e) + Z.of_nat (length (levelAbove keccak_256 e xs)))
            by (replace (d - e)%nat with (S r) by lia; unfold i; lia).
          apply Hzero; [lia|]. unfold i in Hpar. lia.
      - apply Z.eqb_neq in Hpar.
        eexists. replace (i - 1) with (pow2 (d - e) + Z.of_nat (j - 1))
          by (replace (d - e)%nat with (S r) by lia; unfold i in *; lia).
        apply Hnodes; lia. }
    destruct Hsibling as [b Hb'].
    exists (b :: sibs). rewrite Hb'. split; [reflexivity|]. split; [simpl; lia|].
    intros [|t] Ht.
    + change (Z.of_nat 0) with 0. rewrite Z.shiftr_0_r, lxor_one, even_mod2 by lia.
      exact Hb'.
    + cbn [nth]. rewrite <- Hsib by lia. rewrite <- Hhalf.
      rewrite Nat2Z.inj_succ, <- Z.add_1_l, <- Z.shiftr_shiftr by lia.
      rewrite (Z.shiftr_div_pow2 i 1) by lia. reflexivity.
Qed.

Lemma mapM_digestText (sibs : list Buffer.t) :
  mapM MerkleTree.bufferToHexString (map Buf sibs) = Return (map digestText sibs).
Proof.
  induction sibs as [|b sibs IH]; [reflexivity|].
  cbn [map mapM MerkleTree.bufferToHexString mbind outcome_bind]. now rewrite IH.
Qed.

(** A build that returns was given at most 2^30 leaves. *)
Lemma buildMerkleTree_returns_small (keccak_256 : Buffer.t -> string) (fuel : nat)
    (members : list Member.MonoplasmaMember) (tr : MerkleTree.tree) :
  MerkleTree.buildMerkleTree keccak_256 fuel members = Return tr ->
  leafCountOf members <= 2 ^ 30.
Proof.
  intros Hrun. destruct (Z_le_gt_dec (leafCountOf members) (2 ^ 30)) as [H|H]; [exact H|].
  exfalso. destruct (Z_le_gt_dec (leafCountOf members) (2 ^ 32)) as [H'|H'].
  - rewrite buildMerkleTree_never_returns in Hrun by lia. discriminate.
  - unfold MerkleTree.buildMerkleTree in Hrun. fold (leafCountOf members) in Hrun.
    rewrite roundUpToPowerOfTwo_rejects in Hrun by lia. discriminate.
Qed.

Lemma placeLeaves_keys (keccak_256 : Buffer.t -> string) (a : string)
    (ms : list Member.MonoplasmaMember) :
  forall A ix i A' ix',
  MerkleTree.placeLeaves keccak_256 ms A ix i = Return (A', ix') ->
  (is_Some (ix' !! a)
   <-> is_Some (ix !! a) \/ exists m, In m ms /\ Member.address m = a).
Proof.
  induction ms as [|m ms IH]; intros A ix i A' ix' Hp; cbn [MerkleTree.placeLeaves] in Hp.
  - injection Hp as <- <-. split; [auto|]. intros [H|(m & [] & _)]; exact H.
  - destruct (MerkleTree.hashLeaf keccak_256 m (SaltString "")) as [leaf| |] eqn:Hleaf;
      try discriminate.
    cbn [mbind outcome_bind] in Hp.
    apply hashLeaf_returns in Hleaf. destruct Hleaf as [Hm _].
    rewrite (hashable_write _ _ _ Hm) in Hp.
    rewrite (IH _ _ _ _ _ Hp). split.
    + intros [H|(m' & Hin & Ha)].
      * destruct (decide (Member.address m = a)) as [Heq|Hne].
        -- right. exists m. split; [now left | exact Heq].
        -- rewrite lookup_insert_ne in H by exact Hne. now left.
      * right. exists m'. split; [now right | exact Ha].
    + intros [H|(m' & [<-|Hin] & Ha)].
      * left. destruct (decide (Member.address m = a)) as [Heq|Hne].
        -- rewrite <- Heq, lookup_insert_eq. eauto.
        -- now rewrite lookup_insert_ne.
      * left. rewrite <- Ha, lookup_insert_eq. eauto.
      * right. exists m'. split; [exact Hin | exact Ha].
Qed.

(** The steps of a build that returned. *)
Lemma buildMerkleTree_parts (keccak_256 : Buffer.t -> string) (fuel : nat)
    (members : list Member.MonoplasmaMember) (tr : MerkleTree.tree) :
  MerkleTree.buildMerkleTree keccak_256 fuel members = Return tr ->
  exists (B : Z) (A0 A1 : list cell),
    MerkleTree.roundUpToPowerOfTwo fuel (leafCountOf members) = Return B
    /\ Array.new (B + leafCountOf members) = Return A0
    /\ MerkleTree.placeLeaves keccak_256 members (Array.set A0 0 (Num B)) ∅ B
       = Return (A1, MerkleTree.indexOf tr)
    /\ MerkleTree.levelLoop keccak_256 fuel A1 B (B + leafCountOf members)
       = Return (MerkleTree.hashes tr).
Proof.
  unfold MerkleTree.buildMerkleTree. fold (leafCountOf members).
  destruct (MerkleTree.roundUpToPowerOfTwo fuel _) as [B| |]; try discriminate.
  cbn [mbind outcome_bind].
  destruct (Array.new _) as [A0| |] eqn:Hnew; try discriminate. cbn [mbind outcome_bind].
  destruct (MerkleTree.placeLeaves keccak_256 members _ ∅ B) as [[A1 ix]| |] eqn:Hplace;
    try discriminate.
  cbn [mbind outcome_bind].
  destruct (MerkleTree.levelLoop _ _ _ _ _) as [A'| |] eqn:Hloop; try discriminate.
  cbn [mbind outcome_bind]. intros [= <-]. cbn [MerkleTree.indexOf MerkleTree.hashes].
  exists B, A0, A1. repeat split; assumption.
Qed.

(** A build returns only when every member has a leaf. *)
Lemma buildMerkleTree_hashable (keccak_256 : Buffer.t -> string) (fuel : nat)
    (members : list Member.MonoplasmaMember) (tr : MerkleTree.tree) :
  MerkleTree.buildMerkleTree keccak_256 fuel members = Return tr ->
  Forall (fun m => hashable m = true) members.
Proof.
  intros Hbuild.
  destruct (buildMerkleTree_parts _ _ _ _ Hbuild) as (B & A0 & A1 & _ & _ & Hplace & _).
  exact (placeLeaves_returns _ _ _ _ _ _ Hplace).
Qed.

(** The keys of [indexOf] are the addresses of the members. *)
Lemma buildMerkleTree_indexOf (keccak_256 : Buffer.t -> string) (fuel : nat)
    (members : list Member.MonoplasmaMember) (tr : MerkleTree.tree) (a : string) :
  MerkleTree.buildMerkleTree keccak_256 fuel members = Return tr ->
  (is_Some (MerkleTree.indexOf tr !! a)
   <-> exists m, In m members /\ Member.address m = a).
Proof.
  intros Hbuild.
  destruct (buildMerkleTree_parts _ _ _ _ Hbuild) as (B & A0 & A1 & _ & _ & Hplace & _).
  rewrite (placeLeaves_keys _ _ _ _ _ _ _ _ Hplace), lookup_empty.
  split; [intros [[x Hx]|H]; [discriminate | exact H] | auto].
Qed.

Lemma readIndex_own (ix : gmap string Z) (a : string) (i : Z) :
  ix !! a = Some i -> MerkleTree.readIndex ix a = MerkleTree.Own i.
Proof. unfold MerkleTree.readIndex. now intros ->. Qed.

Lemma getPath_new (keccak_256 : Buffer.t -> string) (fuel : nat)
    (members : list Member.MonoplasmaMember) (tr : MerkleTree.tree) (a : string) :
  members <> [] ->
  MerkleTree.buildMerkleTree keccak_256 fuel members = Return tr ->
  MerkleTree.getPath keccak_256 fuel (MerkleTree.new members) a
  = (match MerkleTree.readIndex (MerkleTree.indexOf tr) a with
     | MerkleTree.Own index =>
         if index =? 0 then Throw (Error ("Address " +:+ a +:+ " not found!"))
         else path ← MerkleTree.pathLoop fuel (MerkleTree.hashes tr) index;
              mapM MerkleTree.bufferToHexString path
     | MerkleTree.Inherited => Return []
     | MerkleTree.Missing => Throw (Error ("Address " +:+ a +:+ " not found!"))
     end,
     MerkleTree.mkMerkleTree false members (Some tr)).
Proof.
  intros Hne Hbuild.
  unfold MerkleTree.getPath, MerkleTree.getContents, MerkleTree.new, MerkleTree.update.
  cbn [MerkleTree.contents MerkleTree.isDirty MerkleTree.cached].
  destruct members as [|m rest]; [congruence|].
  cbn [length Nat.eqb]. rewrite Hbuild.
  destruct (MerkleTree.readIndex (MerkleTree.indexOf tr) a) as [index| |]; try reflexivity.
  destruct (index =? 0); reflexivity.
Qed.

Lemma built_wellBuilt (keccak_256 : Buffer.t -> string) (fuel : nat)
    (members : list Member.MonoplasmaMember) (tr : MerkleTree.tree) :
  members <> [] -> (32 + length members <= fuel)%nat ->
  MerkleTree.buildMerkleTree keccak_256 fuel members = Return tr ->
  exists d, wellBuilt keccak_256 members tr d.
Proof.
  intros Hne Hfuel Hbuild.
  pose proof (buildMerkleTree_returns_small _ _ _ _ Hbuild) as Hsmall.
  pose proof (buildMerkleTree_hashable _ _ _ _ Hbuild) as Hall.
  destruct (buildMerkleTree_spec keccak_256 fuel members Hne Hall Hsmall Hfuel)
    as (tr' & d & Hbuild' & W).
  rewrite Hbuild in Hbuild'. injection Hbuild' as <-. now exists d.
Qed.

Lemma built_nonempty (keccak_256 : Buffer.t -> string) (fuel : nat)
    (members : list Member.MonoplasmaMember) (tr : MerkleTree.tree) (a : string) (i : Z) :
  MerkleTree.buildMerkleTree keccak_256 fuel members = Return tr ->
  MerkleTree.indexOf tr !! a = Some i -> members <> [].
Proof.
  intros Hbuild Hi ->.
  destruct (proj1 (buildMerkleTree_indexOf _ _ _ _ a Hbuild)) as (m & [] & _).
  rewrite Hi. eauto.
Qed.

(** The path of a leaf of a well-built tree. *)
Lemma wellBuilt_path (keccak_256 : Buffer.t -> string) (fuel : nat)
    (members : list Member.MonoplasmaMember) (tr : MerkleTree.tree) (d : nat)
    (a : string) (i : Z) :
  wellBuilt keccak_256 members tr d -> (32 <= fuel)%nat ->
  MerkleTree.indexOf tr !! a = Some i ->
  i <> 0
  /\ exists sibs : list Buffer.t,
       MerkleTree.pathLoop fuel (MerkleTree.hashes tr) i = Return (map Buf sibs)
       /\ length sibs = d
       /\ forall t, (t < d)%nat ->
          Array.get (MerkleTree.hashes tr) (Z.lxor (Z.shiftr i (Z.of_nat t)) 1)
          = Buf (nth t sibs []).
Proof.
  intros W Hfuel Hi.
  pose proof W as (Hd & _ & _ & _ & _ & Hix & _).
  destruct (Hix a i Hi) as (j & m & Hj & _ & ->).
  pose proof (pow2_pos d). split; [lia|].
  apply (pathLoop_spec keccak_256 members tr d W d O j fuel); [lia | | lia].
  cbn [levelAbove]. unfold leafDigests. rewrite length_map.
  apply lookup_lt_Some in Hj. exact Hj.
Qed.

(** C7: for a tree that the build returned and an address in its [indexOf]
    with index [i], [getPath] returns the digests [hashes[(i >> t) ^ 1]] for
    [t] from 0 up to, and not including, the level of the root, as "0x" hex
    strings; there are log2(branchCount) of them, branchCount being the number
    at index 0. For a single member the path is the one zero digest. *)
Theorem getPath_siblings (keccak_256 : Buffer.t -> string) (fuel : nat)
    (members : list Member.MonoplasmaMember) (tr : MerkleTree.tree)
    (address : string) (i : Z)
    (Hfuel : (32 + length members <= fuel)%nat)
    (Hbuild : MerkleTree.buildMerkleTree keccak_256 fuel members = Return tr)
    (Hindex : MerkleTree.indexOf tr !! address = Some i) :
  (exists (sibs : list Buffer.t) (branchCount : Z),
     fst (MerkleTree.getPath keccak_256 fuel (MerkleTree.new members) address)
     = Return (map digestText sibs)
     /\ Array.get (MerkleTree.hashes tr) 0 = Num branchCount
     /\ Z.of_nat (length sibs) = Z.log2 branchCount
     /\ forall t, (t < length sibs)%nat ->
        Array.get (MerkleTree.hashes tr) (Z.lxor (Z.shiftr i (Z.of_nat t)) 1)
        = Buf (nth t sibs []))
  /\ (forall m, members = [m] ->
      fst (MerkleTree.getPath keccak_256 fuel (MerkleTree.new members) (Member.address m))
      = Return [digestText (Buffer.alloc 32)]).
Proof.
  pose proof (built_nonempty _ _ _ _ _ _ Hbuild Hindex) as Hne.
  destruct (built_wellBuilt _ _ _ _ Hne Hfuel Hbuild) as (d & W).
  split.
  - destruct (wellBuilt_path _ fuel _ _ _ _ _ W ltac:(lia) Hindex)
      as (Hnz & sibs & Hpath & Hlen & Hsib).
    exists sibs, (pow2 d).
    rewrite (getPath_new _ _ _ _ _ Hne Hbuild), (readIndex_own _ _ _ Hindex). cbn [fst].
    apply Z.eqb_neq in Hnz. rewrite Hnz, Hpath. cbn [mbind outcome_bind].
    split; [apply mapM_digestText|].
    split; [apply W|]. split; [|now rewrite Hlen].
    rewrite Hlen. unfold pow2. now rewrite Z.log2_pow2 by lia.
  - intros m ->.
    destruct (proj2 (buildMerkleTree_indexOf _ _ _ _ (Member.address m) Hbuild))
      as [v Hv]; [exists m; split; [now left | reflexivity]|].
    destruct (wellBuilt_path _ fuel _ _ _ _ _ W ltac:(lia) Hv)
      as (Hnz & sibs & Hpath & Hlen & Hsib).
    rewrite (getPath_new _ _ _ _ _ Hne Hbuild), (readIndex_own _ _ _ Hv). cbn [fst].
    apply Z.eqb_neq in Hnz. rewrite Hnz, Hpath. cbn [mbind outcome_bind].
    rewrite mapM_digestText. f_equal.
    pose proof W as (Hd & _ & (_ & Hle & Hleast) & _ & Hzero & Hix & _).
    assert (Hd1 : d = 1%nat).
    { specialize (Hleast 1 ltac:(lia)). unfold leafCountOf in Hleast, Hle.
      cbn [length] in Hleast, Hle. change (2 ^ 1) with (pow2 1) in Hleast.
      specialize (Hleast ltac:(vm_compute; discriminate)).
      destruct d as [|[|d]]; [lia | reflexivity |].
      change (pow2 1) with 2 in Hleast. rewrite !pow2_S in Hleast.
      pose proof (pow2_pos d). lia. }
    subst d. destruct (Hix _ _ Hv) as (j & m' & Hj & _ & ->).
    assert (j = O) by (apply lookup_lt_Some in Hj; simpl in Hj; lia). subst j.
    destruct sibs as [|b [|b' sibs]]; try discriminate. cbn [length] in *.
    specialize (Hsib O ltac:(lia)). cbn [nth] in Hsib.
    specialize (Hzero O ltac:(lia) ltac:(reflexivity)).
    cbn [levelAbove leafDigests map length] in Hzero.
    replace (Z.lxor (Z.shiftr (pow2 1 + Z.of_nat 0) (Z.of_nat 0)) 1)
      with (pow2 (1 - 0) + Z.of_nat 1) in Hsib by reflexivity.
    rewrite Hzero in Hsib. injection Hsib as <-. reflexivity.
Qed.

Lemma getPath_siblings_witness :
  exists tr sibs,
    MerkleTree.buildMerkleTree keccak_256_hex 40 [member1; member2; member3] = Return tr
    /\ MerkleTree.indexOf tr !! address2 = Some 5
    /\ fst (MerkleTree.getPath keccak_256_hex 40
              (MerkleTree.new [member1; member2; member3]) address2)
       = Return (map digestText sibs)
    /\ length sibs = 2%nat.
Proof.
  assert (Hb : exists tr,
             MerkleTree.buildMerkleTree keccak_256_hex 40 [member1; member2; member3]
             = Return tr
             /\ MerkleTree.indexOf tr !! address2 = Some 5).
  { eexists. split; [vm_compute; reflexivity | vm_compute; reflexivity]. }
  destruct Hb as (tr & Hb & Hi).
  destruct (getPath_siblings keccak_256_hex 40 [member1; member2; member3] tr address2 5
              ltac:(simpl; lia) Hb Hi) as [(sibs & bc & Hpath & Hbc & Hlen & _) _].
  exists tr, sibs. split; [exact Hb|]. split; [exact Hi|]. split; [exact Hpath|].
  assert (Hbc4 : Array.get (MerkleTree.hashes tr) 0 = Num 4).
  { rewrite <- (f_equal (fun o => match o with
                                  | Return t => Array.get (MerkleTree.hashes t) 0
                                  | _ => Hole
                                  end) Hb).
    vm_compute. reflexivity. }
  rewrite Hbc4 in Hbc. injection Hbc as <-. change (Z.log2 4) with 2 in Hlen. lia.
Defined.

(** ** Addresses that are not in the tree *)

Lemma prefixed_not_inherited (a : string) :
  String.prefix "0x" a = true -> MerkleTree.inherited a = false.
Proof.
  intros H. apply prefix_two in H. destruct H as [rest ->]. reflexivity.
Qed.

(** What [getPath] gives on a tree that was built, by the kind of the
    address. *)
Lemma getPath_cases (keccak_256 : Buffer.t -> string) (fuel : nat)
    (members : list Member.MonoplasmaMember) (tr : MerkleTree.tree) (address : string) :
  members <> [] -> (32 + length members <= fuel)%nat ->
  MerkleTree.buildMerkleTree keccak_256 fuel members = Return tr ->
  match MerkleTree.indexOf tr !! address with
  | Some i =>
      exists (sibs : list Buffer.t) (branchCount : Z),
        fst (MerkleTree.getPath keccak_256 fuel (MerkleTree.new members) address)
        = Return (map digestText sibs)
        /\ Array.get (MerkleTree.hashes tr) 0 = Num branchCount
        /\ Z.of_nat (length sibs) = Z.log2 branchCount
        /\ forall t, (t < length sibs)%nat ->
           Array.get (MerkleTree.hashes tr) (Z.lxor (Z.shiftr i (Z.of_nat t)) 1)
           = Buf (nth t sibs [])
  | None =>
      fst (MerkleTree.getPath keccak_256 fuel (MerkleTree.new members) address)
      = if MerkleTree.inherited address then Return []
        else Throw (Error ("Address " +:+ address +:+ " not found!"))
  end.
Proof.
  intros Hne Hfuel Hbuild.
  destruct (built_wellBuilt _ _ _ _ Hne Hfuel Hbuild) as (d & W).
  rewrite (getPath_new _ _ _ _ _ Hne Hbuild). cbn [fst]. unfold MerkleTree.readIndex.
  destruct (MerkleTree.indexOf tr !! address) as [i|] eqn:Hi.
  - destruct (wellBuilt_path _ fuel _ _ _ _ _ W ltac:(lia) Hi)
      as (Hnz & sibs & Hpath & Hlen & Hsib).
    apply Z.eqb_neq in Hnz. rewrite Hnz, Hpath. cbn [mbind outcome_bind].
    exists sibs, (pow2 d). split; [apply mapM_digestText|].
    split; [apply W|]. split; [|now rewrite Hlen].
    rewrite Hlen. unfold pow2. rewrite Z.log2_pow2 by lia. reflexivity.
  - now destruct (MerkleTree.inherited address).
Qed.

(** C8, as the code has it: for a list that is not empty and whose members
    all have a leaf, the build returns, and [getPath] throws the not-found
    error exactly for the addresses that are not keys of [indexOf], which are
    the addresses of no member of the list, as long as the address is not a
    name that an object inherits; no string that starts with "0x" is one. For
    a key with index [i] it returns a path, the log2(branchCount) siblings
    [hashes[(i >> t) ^ 1]] on the way to the root; for an inherited name that
    is not a key it returns the empty path. *)
Theorem getPath_not_found_iff (keccak_256 : Buffer.t -> string) (fuel : nat)
    (members : list Member.MonoplasmaMember) (address : string)
    (Hne : members <> [])
    (Hall : Forall (fun m => hashable m = true) members)
    (Hsmall : leafCountOf members <= 2 ^ 30)
    (Hfuel : (32 + length members <= fuel)%nat) :
  exists tr,
    MerkleTree.buildMerkleTree keccak_256 fuel members = Return tr
    /\ (MerkleTree.indexOf tr !! address = None
        <-> ~ exists m, In m members /\ Member.address m = address)
    /\ (MerkleTree.inherited address = false ->
        (fst (MerkleTree.getPath keccak_256 fuel (MerkleTree.new members) address)
         = Throw (Error ("Address " +:+ address +:+ " not found!"))
         <-> MerkleTree.indexOf tr !! address = None))
    /\ (String.prefix "0x" address = true -> MerkleTree.inherited address = false)
    /\ (forall i, MerkleTree.indexOf tr !! address = Some i ->
        exists (sibs : list Buffer.t) (branchCount : Z),
          fst (MerkleTree.getPath keccak_256 fuel (MerkleTree.new members) address)
          = Return (map digestText sibs)
          /\ Array.get (MerkleTree.hashes tr) 0 = Num branchCount
          /\ Z.of_nat (length sibs) = Z.log2 branchCount
          /\ forall t, (t < length sibs)%nat ->
             Array.get (MerkleTree.hashes tr) (Z.lxor (Z.shiftr i (Z.of_nat t)) 1)
             = Buf (nth t sibs []))
    /\ (MerkleTree.indexOf tr !! address = None -> MerkleTree.inherited address = true ->
        fst (MerkleTree.getPath keccak_256 fuel (MerkleTree.new members) address)
        = Return []).
Proof.
  destruct (buildMerkleTree_spec keccak_256 fuel members Hne Hall Hsmall Hfuel)
    as (tr & d & Hbuild & _).
  exists tr. split; [exact Hbuild|].
  pose proof (buildMerkleTree_indexOf _ _ _ _ address Hbuild) as Hkeys.
  pose proof (getPath_cases _ _ _ _ address Hne Hfuel Hbuild) as Hcases.
  split; [|split; [|split; [apply prefixed_not_inherited|split]]].
  - destruct (MerkleTree.indexOf tr !! address) as [i|] eqn:Hi.
    + split; [discriminate|]. intros Hno. exfalso. apply Hno, Hkeys. eauto.
    + split; [|reflexivity]. intros _ Hex. apply Hkeys in Hex. destruct Hex as [v Hv].
      discriminate.
  - intros Hname. destruct (MerkleTree.indexOf tr !! address) as [i|] eqn:Hi.
    + destruct Hcases as (sibs & branchCount & Hpath & _). rewrite Hpath.
      split; discriminate.
    + rewrite Hcases, Hname. split; reflexivity.
  - intros i Hi. rewrite Hi in Hcases. exact Hcases.
  - intros Hi Hname. now rewrite Hi, Hname in Hcases.
Qed.

Lemma getPath_not_found_iff_witness :
  fst (MerkleTree.getPath keccak_256_hex 40 (MerkleTree.new [member1; member2]) address3)
  = Throw (Error ("Address " +:+ address3 +:+ " not found!"))
  /\ exists sibs,
       fst (MerkleTree.getPath keccak_256_hex 40 (MerkleTree.new [member1; member2]) address1)
       = Return (map digestText sibs).
Proof.
  assert (Hne : [member1; member2] <> []) by discriminate.
  assert (Hall : Forall (fun m => hashable m = true) [member1; member2])
    by (repeat constructor).
  assert (Hsmall : leafCountOf [member1; member2] <= 2 ^ 30) by (vm_compute; discriminate).
  split.
  - destruct (getPath_not_found_iff keccak_256_hex 40 [member1; member2] address3
                Hne Hall Hsmall ltac:(simpl; lia))
      as (tr & Hb & Hkeys & Hfound & Hname & _).
    apply (Hfound (Hname eq_refl)). apply Hkeys.
    intros (m & [<-|[<-|[]]] & Ha); discriminate Ha.
  - destruct (getPath_not_found_iff keccak_256_hex 40 [member1; member2] address1
                Hne Hall Hsmall ltac:(simpl; lia))
      as (tr & Hb & Hkeys & _ & _ & Hpath & _).
    destruct (MerkleTree.indexOf tr !! address1) as [i|] eqn:Hi.
    + destruct (Hpath i eq_refl) as (sibs & branchCount & Hsibs & _). now exists sibs.
    + exfalso. apply (proj1 Hkeys eq_refl). exists member1. split; [now left | reflexivity].
Defined.

(** C8, as stated, fails: "constructor" is the address of no member and no
    key of [indexOf], and [getPath] returns the empty path for it instead of
    the not-found error; and on a list with a member whose earnings are
    negative the error for an absent address is not the not-found error. *)
Lemma getPath_absent_without_not_found :
  (exists tr,
     MerkleTree.buildMerkleTree keccak_256_hex 40 [member1; member2] = Return tr
     /\ MerkleTree.indexOf tr !! "constructor" = None
     /\ fst (MerkleTree.getPath keccak_256_hex 40 (MerkleTree.new [member1; member2])
               "constructor")
        = Return [])
  /\ exists e,
       fst (MerkleTree.getPath keccak_256_hex 40 (MerkleTree.new [member1; debtor]) address2)
       = Throw e
       /\ e <> Error ("Address " +:+ address2 +:+ " not found!").
Proof.
  split.
  - eexists. split; [vm_compute; reflexivity|].
    split; [vm_compute; reflexivity | vm_compute; reflexivity].
  - eexists. split; [vm_compute; reflexivity | discriminate].
Qed.

(** ** Proofs of members *)

(** C9, as the code has it: a member without earnings gets the empty proof,
    whatever the tree, and no error; a member with earnings gets what
    [getPath] gives for its address. For a member of the list the tree is
    built from, when every member of the list has a leaf, that is the path of
    its leaf: the log2(branchCount) siblings [hashes[(i >> t) ^ 1]] on the way
    from the index [i] of its address to the root. *)
Theorem getProof_empty_or_path (keccak_256 : Buffer.t -> string) (fuel : nat)
    (m : Member.MonoplasmaMember) (tree : MerkleTree.t) :
  (Member.earnings m = 0 -> MerkleTree.getProof keccak_256 fuel m tree = (Return [], tree))
  /\ (0 < Member.earnings m ->
      MerkleTree.getProof keccak_256 fuel m tree
      = MerkleTree.getPath keccak_256 fuel tree (Member.address m))
  /\ (forall members,
      0 < Member.earnings m -> In m members ->
      Forall (fun m' => hashable m' = true) members ->
      leafCountOf members <= 2 ^ 30 ->
      (32 + length members <= fuel)%nat ->
      exists (tr : MerkleTree.tree) (i : Z) (sibs : list Buffer.t) (branchCount : Z),
        MerkleTree.buildMerkleTree keccak_256 fuel members = Return tr
        /\ MerkleTree.indexOf tr !! Member.address m = Some i
        /\ fst (MerkleTree.getProof keccak_256 fuel m (MerkleTree.new members))
           = Return (map digestText sibs)
        /\ Array.get (MerkleTree.hashes tr) 0 = Num branchCount
        /\ Z.of_nat (length sibs) = Z.log2 branchCount
        /\ forall t, (t < length sibs)%nat ->
           Array.get (MerkleTree.hashes tr) (Z.lxor (Z.shiftr i (Z.of_nat t)) 1)
           = Buf (nth t sibs [])).
Proof.
  assert (Hzero : BN.ofNumber 0 = Return 0) by reflexivity.
  unfold MerkleTree.getProof, BN.gt. rewrite Hzero. split; [|split].
  - intros ->. reflexivity.
  - intros Hpos. destruct (Member.earnings m >? 0) eqn:H; [reflexivity|].
    rewrite Z.gtb_ltb in H. apply Z.ltb_ge in H. lia.
  - intros members Hpos Hin Hall Hsmall Hfuel.
    destruct (Member.earnings m >? 0) eqn:H;
      [|rewrite Z.gtb_ltb in H; apply Z.ltb_ge in H; lia].
    assert (Hne : members <> []) by (intros ->; destruct Hin).
    destruct (buildMerkleTree_spec keccak_256 fuel members Hne Hall Hsmall Hfuel)
      as (tr & d & Hbuild & W).
    destruct (proj2 (buildMerkleTree_indexOf _ _ _ _ (Member.address m) Hbuild))
      as [i Hi]; [eauto|].
    pose proof (getPath_cases _ _ _ _ (Member.address m) Hne Hfuel Hbuild) as Hcases.
    rewrite Hi in Hcases. destruct Hcases as (sibs & branchCount & Hpath & H0 & Hlen & Hsib).
    exists tr, i, sibs, branchCount. repeat split; assumption.
Qed.

Lemma getProof_empty_or_path_witness :
  Member.earnings member3 = 0
  /\ MerkleTree.getProof keccak_256_hex 40 member3 (MerkleTree.new [member1; member2])
     = (Return [], MerkleTree.new [member1; member2])
  /\ 0 < Member.earnings member2
  /\ exists sibs,
       fst (MerkleTree.getProof keccak_256_hex 40 member2 (MerkleTree.new [member1; member2]))
       = Return (map digestText sibs).
Proof.
  pose proof (getProof_empty_or_path keccak_256_hex 40 member3
                (MerkleTree.new [member1; member2])) as [Hzero _].
  pose proof (getProof_empty_or_path keccak_256_hex 40 member2
                (MerkleTree.new [member1; member2])) as [_ [_ Hpath]].
  split; [reflexivity|]. split; [exact (Hzero eq_refl)|]. split; [simpl; lia|].
  destruct (Hpath [member1; member2]) as (tr & i & sibs & branchCount & _ & _ & Hproof & _).
  - simpl. lia.
  - right. left. reflexivity.
  - repeat constructor.
  - vm_compute. discriminate.
  - simpl. lia.
  - now exists sibs.
Defined.

(** C9, as stated, fails: a member with earnings gets no path but an error
    when another member of the list has negative earnings, which no leaf can
    hold. *)
Lemma getProof_throws_beside_debtor :
  0 < Member.earnings member2
  /\ Member.earnings debtor < 0
  /\ exists e,
       fst (MerkleTree.getProof keccak_256_hex 40 member2 (MerkleTree.new [member2; debtor]))
       = Throw e.
Proof.
  split; [simpl; lia|]. split; [simpl; lia|]. eexists. vm_compute. reflexivity.
Qed.

(** ** Parents in a built tree *)

Lemma nth_nextLevel (keccak_256 : Buffer.t -> string) (xs : list Buffer.t) :
  forall j, (2 * j + 1 < length xs)%nat ->
  nth j (nextLevel keccak_256 xs) []
  = sortedPairHash keccak_256 (nth (2 * j) xs []) (nth (2 * j + 1) xs []).
Proof.
  induction xs as [| a | a b rest IH] using list_pair_ind; intros j Hj;
    [simpl in Hj; lia | simpl in Hj; lia |].
  destruct j as [|j]; [reflexivity|].
  replace (2 * S j)%nat with (S (S (2 * j))) by lia.
  cbn [nextLevel nth Nat.add]. apply IH. simpl in Hj. lia.
Qed.



(** ** The playback guard *)

(** A playback that is not skipped and starts before the pruning horizon
    applies nothing and throws; what it throws is the ReferenceError of the
    message's read of [toTimestamp], not the error with the message. *)
Lemma playbackUntilBlock_pruned (Block : Type)
    (replay : Watcher.t -> Watcher.target -> Z -> Z -> Z
              -> outcome Block * (Watcher.t * Watcher.target))
    (this : Watcher.t) (toBlock : Z) (p : Watcher.target) (T ts : Z) :
  Watcher.cachePrunedUpTo this = Some T ->
  Watcher.currentTimestamp (Watcher.plasmaOf this p) = Some ts ->
  ts < T ->
  match Watcher.currentBlock (Watcher.plasmaOf this p) with
  | Some b => if b + 1 =? 0 then 0 else b + 1
  | None => 0
  end < toBlock ->
  Watcher.playbackUntilBlock Block replay this toBlock p
  = (Throw (ReferenceError "Cannot access 'toTimestamp' before initialization"), (this, p)).
Proof.
  intros HT Hts Hlt Hstart. unfold Watcher.playbackUntilBlock.
  destruct (toBlock <=? _) eqn:Hskip; [apply Z.leb_le in Hskip; lia|].
  rewrite HT, Hts. cbn [Watcher.orZero Watcher.lessThan].
  destruct (ts <? T) eqn:Hcmp; [reflexivity|]. apply Z.ltb_ge in Hcmp. lia.
Qed.

(** C6: after pruning at timestamp 5000, a playback to block 20 on a state at
    block 10 and timestamp 3000 applies nothing and throws, but the error is
    the ReferenceError for [toTimestamp], read by the message of the intended
    error before its declaration, and not that error. *)
Theorem playback_from_pruned_cache :
  forall (Block : Type)
         (replay : Watcher.t -> Watcher.target -> Z -> Z -> Z
                   -> outcome Block * (Watcher.t * Watcher.target))
         (bisectFindFirstIndex : list Watcher.message -> (Watcher.message -> bool) -> nat),
  let pruned := Watcher.channelPruneCache bisectFindFirstIndex watcherAt5000 in
  Watcher.cachePrunedUpTo pruned = Some 5000
  /\ Watcher.playbackUntilBlock Block replay pruned 20 (Watcher.Passed stateAt3000)
     = (Throw (ReferenceError "Cannot access 'toTimestamp' before initialization"),
        (pruned, Watcher.Passed stateAt3000))
  /\ forall message,
     fst (Watcher.playbackUntilBlock Block replay pruned 20 (Watcher.Passed stateAt3000))
     <> Throw (Error message).
Proof.
  intros Block replay bisect pruned.
  assert (Hrun : Watcher.playbackUntilBlock Block replay pruned 20 (Watcher.Passed stateAt3000)
                 = (Throw (ReferenceError "Cannot access 'toTimestamp' before initialization"),
                    (pruned, Watcher.Passed stateAt3000))).
  { apply (playbackUntilBlock_pruned Block replay pruned 20 _ 5000 3000);
      [reflexivity | reflexivity | lia | simpl; lia]. }
  split; [reflexivity|]. split; [exact Hrun|].
  intros message. rewrite Hrun. discriminate.
Qed.

(** ** Block summaries *)

Lemma get_truthy (v : JS.value) (key : string) :
  JS.truthy v = true -> exists x, JS.get v key = Return x.
Proof. destruct v; simpl; try discriminate; eauto. Qed.

(** C10: the summary of a block never throws; a block that is null, undefined
    or otherwise falsy, or whose [members] is missing or falsy, gives the
    summary of zeros; any other block gives its [blockNumber], [timestamp] and
    [totalEarnings], each replaced by 0 when missing or falsy, and the length
    of its [members]; the router's function is the same function. *)
Theorem summarizeBlock_total (block : JS.value) :
  (exists s, summarizeBlock block = Return s)
  /\ blockToApiObject block = summarizeBlock block
  /\ (JS.truthy block = false
      \/ (exists members, JS.get block "members" = Return members
                          /\ JS.truthy members = false) ->
      summarizeBlock block
      = Return (mkBlockSummary (JS.Number 0) (JS.Number 0) (JS.Number 0) (JS.Number 0)))
  /\ (forall properties elements,
      block = JS.Obj properties ->
      JS.property "members" properties = JS.Arr elements ->
      summarizeBlock block
      = Return (mkBlockSummary
                  (JS.or (JS.property "blockNumber" properties) (JS.Number 0))
                  (JS.or (JS.property "timestamp" properties) (JS.Number 0))
                  (JS.Number (Z.of_nat (length elements)))
                  (JS.or (JS.property "totalEarnings" properties) (JS.Number 0))))
  /\ JS.or JS.Undefined (JS.Number 0) = JS.Number 0.
Proof.
  assert (Hzero : forall b, JS.truthy b = false
                   \/ (exists members, JS.get b "members" = Return members
                                       /\ JS.truthy members = false) ->
                   summarizeBlock b
                   = Return (mkBlockSummary (JS.Number 0) (JS.Number 0) (JS.Number 0)
                               (JS.Number 0))).
  { intros b [Hfalsy|(members & Hget & Hfalsy)]; unfold summarizeBlock.
    - rewrite Hfalsy. reflexivity.
    - destruct (JS.truthy b); [|reflexivity].
      cbn [negb]. rewrite Hget. cbn [mbind outcome_bind]. rewrite Hfalsy. reflexivity. }
  split; [|split; [reflexivity|]; split; [apply Hzero|]; split; [|reflexivity]].
  - destruct (JS.truthy block) eqn:Hb; [|rewrite Hzero by (now left); eauto].
    destruct (get_truthy block "members" Hb) as [members Hm].
    destruct (JS.truthy members) eqn:Hmt; [|rewrite Hzero by (right; eauto); eauto].
    destruct (get_truthy block "blockNumber" Hb) as [bn Hbn].
    destruct (get_truthy block "timestamp" Hb) as [ts Hts].
    destruct (get_truthy block "totalEarnings" Hb) as [te Hte].
    destruct (get_truthy members "length" Hmt) as [len Hlen].
    unfold summarizeBlock. rewrite Hb. cbn [negb]. rewrite Hm. cbn [mbind outcome_bind].
    rewrite Hmt. cbn [negb]. rewrite Hbn. cbn [mbind outcome_bind].
    rewrite Hts. cbn [mbind outcome_bind]. rewrite Hm. cbn [mbind outcome_bind].
    rewrite Hlen. cbn [mbind outcome_bind]. rewrite Hte. cbn [mbind outcome_bind]. eauto.
  - intros properties elements -> Hmembers. unfold summarizeBlock.
    repeat (progress (cbn [JS.truthy negb JS.get mbind outcome_bind]; rewrite ?Hmembers)).
    reflexivity.
Qed.

Lemma summarizeBlock_total_witness :
  summarizeBlock JS.Null
  = Return (mkBlockSummary (JS.Number 0) (JS.Number 0) (JS.Number 0) (JS.Number 0))
  /\ summarizeBlock (JS.Obj [("timestamp", JS.Number 1600000000000)])
     = Return (mkBlockSummary (JS.Number 0) (JS.Number 0) (JS.Number 0) (JS.Number 0))
  /\ summarizeBlock
       (JS.Obj [("blockNumber", JS.Number 7); ("members", JS.Arr [JS.Obj []; JS.Obj []]);
                ("totalEarnings", JS.Str "70")])
     = Return (mkBlockSummary (JS.Number 7) (JS.Number 0) (JS.Number 2) (JS.Str "70")).
Proof.
  split; [|split].
  - apply (proj1 (proj2 (proj2 (summarizeBlock_total JS.Null)))). left. reflexivity.
  - apply (proj1 (proj2 (proj2 (summarizeBlock_total
                                  (JS.Obj [("timestamp", JS.Number 1600000000000)]))))).
    right. exists JS.Undefined. split; reflexivity.
  - exact (proj1 (proj2 (proj2 (proj2 (summarizeBlock_total
             (JS.Obj [("blockNumber", JS.Number 7);
                      ("members", JS.Arr [JS.Obj []; JS.Obj []]);
                      ("totalEarnings", JS.Str "70")])))))
             [("blockNumber", JS.Number 7); ("members", JS.Arr [JS.Obj []; JS.Obj []]);
              ("totalEarnings", JS.Str "70")]
             [JS.Obj []; JS.Obj []] eq_refl eq_refl).
Defined.

(** * More properties *)

(** ** Recomputing the root from a path *)

Lemma compare_refl (a : Buffer.t) : Buffer.compare a a = 0.
Proof.
  induction a as [|x a IH]; [reflexivity|].
  cbn [Buffer.compare]. now rewrite Z.ltb_irrefl.
Qed.

Lemma isZeroDigest_true (b : Buffer.t) : isZeroDigest b = true <-> b = Buffer.alloc 32.
Proof.
  unfold isZeroDigest. split.
  - intros H. apply Z.eqb_eq in H. now apply compare_equal.
  - intros ->. now rewrite compare_refl.
Qed.

Lemma noZeroLevels_level (keccak_256 : Buffer.t -> string) (n : nat) :
  forall (xs : list Buffer.t) (e j : nat),
  noZeroLevels keccak_256 n xs = true -> (e <= n)%nat ->
  (j < length (levelAbove keccak_256 e xs))%nat ->
  isZeroDigest (nth j (levelAbove keccak_256 e xs) []) = false.
Proof.
  induction n as [|n IH]; intros xs e j Hnz He Hj;
    cbn [noZeroLevels] in Hnz; apply andb_true_iff in Hnz; destruct Hnz as [Hxs Hup].
  - assert (e = O) by lia. subst e. cbn [levelAbove] in *.
    rewrite forallb_forall in Hxs. apply negb_true_iff, Hxs. now apply nth_In.
  - destruct e as [|e].
    + cbn [levelAbove] in *.
      rewrite forallb_forall in Hxs. apply negb_true_iff, Hxs. now apply nth_In.
    + rewrite <- levelAbove_nextLevel in *. apply IH; [exact Hup | lia | exact Hj].
Qed.

Lemma noZeroDigest_level (keccak_256 : Buffer.t -> string)
    (members : list Member.MonoplasmaMember) (e j : nat) :
  noZeroDigest keccak_256 members = true -> (e <= 30)%nat ->
  (j < length (levelAbove keccak_256 e (leafDigests keccak_256 members)))%nat ->
  isZeroDigest (nth j (levelAbove keccak_256 e (leafDigests keccak_256 members)) []) = false.
Proof.
  intros Hnz He Hj. now apply (noZeroLevels_level keccak_256 30).
Qed.

Lemma nth_nextLevel_last (keccak_256 : Buffer.t -> string) (xs : list Buffer.t) :
  forall j, (j mod 2 = 0)%nat -> S j = length xs ->
  nth (Nat.div2 j) (nextLevel keccak_256 xs) [] = nth j xs [].
Proof.
  induction xs as [| a | a b rest IH] using list_pair_ind; intros j Hpar Hlen.
  - discriminate.
  - simpl in Hlen. assert (j = O) by lia. subst j. reflexivity.
  - simpl in Hlen. destruct j as [|[|j]]; [lia | lia |].
    cbn [Nat.div2 nextLevel nth]. apply IH; [|lia].
    now rewrite mod2_SS in Hpar.
Qed.

(** One step up: the sibling read by [getPath] is a digest, and taking the
    step with it gives the digest of the parent. *)
Lemma wellBuilt_step (keccak_256 : Buffer.t -> string)
    (members : list Member.MonoplasmaMember) (tr : MerkleTree.tree) (d : nat) :
  wellBuilt keccak_256 members tr d ->
  noZeroDigest keccak_256 members = true ->
  forall (r e j : nat),
  (e + S r = d)%nat ->
  (j < length (levelAbove keccak_256 e (leafDigests keccak_256 members)))%nat ->
  let i := pow2 (S r) + Z.of_nat j in
  exists sib,
    Array.get (MerkleTree.hashes tr) (if i mod 2 =? 0 then i + 1 else i - 1) = Buf sib
    /\ recomputeStep keccak_256
         (nth j (levelAbove keccak_256 e (leafDigests keccak_256 members)) []) sib
       = nth (Nat.div2 j) (levelAbove keccak_256 (S e) (leafDigests keccak_256 members)) [].
Proof.
  intros W Hnz r e j Her Hj i.
  destruct W as (Hd & _ & _ & Hnodes & Hzero & _).
  set (xs := levelAbove keccak_256 e (leafDigests keccak_256 members)) in *.
  cbn [levelAbove]. fold xs.
  pose proof (pow2_S r) as HS.
  assert (Hde : (d - e)%nat = S r) by lia.
  destruct (i mod 2 =? 0) eqn:Hpar.
  - apply Z.eqb_eq in Hpar.
    assert (Hj2 : (2 * Nat.div2 j = j)%nat) by (rewrite Nat.div2_div; unfold i in Hpar; lia).
    destruct (decide (S j < length xs)%nat) as [Hin|Hlast].
    + exists (nth (S j) xs []). split.
      * replace (i + 1) with (pow2 (d - e) + Z.of_nat (S j)) by (rewrite Hde; unfold i; lia).
        apply Hnodes; [lia | exact Hin].
      * unfold recomputeStep.
        pose proof (noZeroDigest_level keccak_256 members e (S j) Hnz ltac:(lia) Hin) as Hz.
        fold xs in Hz. rewrite Hz.
        rewrite nth_nextLevel by lia.
        rewrite Hj2. now replace (j + 1)%nat with (S j) by lia.
    + exists (Buffer.alloc 32). split.
      * replace (i + 1) with (pow2 (d - e) + Z.of_nat (length xs))
          by (rewrite Hde; unfold i; lia).
        apply Hzero; [lia|]. unfold i in Hpar. subst xs. lia.
      * unfold recomputeStep.
        rewrite (proj2 (isZeroDigest_true (Buffer.alloc 32)) eq_refl).
        symmetry. apply nth_nextLevel_last; [unfold i in Hpar; lia | lia].
  - apply Z.eqb_neq in Hpar.
    assert (Hj2 : (2 * Nat.div2 j + 1 = j)%nat) by (rewrite Nat.div2_div; unfold i in Hpar; lia).
    exists (nth (j - 1) xs []). split.
    + replace (i - 1) with (pow2 (d - e) + Z.of_nat (j - 1))
        by (rewrite Hde; unfold i in *; lia).
      apply Hnodes; [lia | fold xs; lia].
    + unfold recomputeStep.
      pose proof (noZeroDigest_level keccak_256 members e (j - 1) Hnz ltac:(lia) ltac:(fold xs; lia))
        as Hz.
      fold xs in Hz. rewrite Hz.
      rewrite nth_nextLevel by lia. rewrite Hj2.
      replace (2 * Nat.div2 j)%nat with (j - 1)%nat by lia.
      apply sortedPairHash_comm.
Qed.

Lemma path_recomputes (keccak_256 : Buffer.t -> string)
    (members : list Member.MonoplasmaMember) (tr : MerkleTree.tree) (d : nat) :
  wellBuilt keccak_256 members tr d ->
  noZeroDigest keccak_256 members = true ->
  forall (r e j fuel : nat),
  (e + r = d)%nat ->
  (j < length (levelAbove keccak_256 e (leafDigests keccak_256 members)))%nat ->
  (r < fuel)%nat ->
  exists sibs : list Buffer.t,
    MerkleTree.pathLoop fuel (MerkleTree.hashes tr) (pow2 r + Z.of_nat j)
    = Return (map Buf sibs)
    /\ recomputeRoot keccak_256
         (nth j (levelAbove keccak_256 e (leafDigests keccak_256 members)) []) sibs
       = nth O (levelAbove keccak_256 d (leafDigests keccak_256 members)) [].
Proof.
  intros W Hnz. pose proof (wellBuilt_length _ _ _ _ W) as Hxs.
  pose proof W as (Hd & _).
  induction r as [|r IH]; intros e j fuel Her Hj Hfuel;
    (destruct fuel as [|fuel]; [lia|]); cbn [MerkleTree.pathLoop];
    pose proof (levelAbove_length_le keccak_256 _ d Hxs e ltac:(lia)) as Hlen.
  - replace (d - e)%nat with O in Hlen by lia.
    change (pow2 0) with 1 in *. assert (j = O) by lia. subst j.
    exists []. split; [reflexivity|]. replace e with d by lia. reflexivity.
  - replace (d - e)%nat with (S r) in Hlen by lia.
    pose proof (pow2_pos r) as Hpos. pose proof (pow2_S r) as HS.
    assert (H30 : pow2 (S r) <= 2 ^ 30) by (unfold pow2; apply Z.pow_le_mono_r; lia).
    destruct (wellBuilt_step _ _ _ _ W Hnz r e j Her Hj) as (sib & Hcell & Hstep).
    set (i := pow2 (S r) + Z.of_nat j) in *.
    assert (Hi : 2 <= i < 2 ^ 31) by (unfold i; lia).
    assert (Hgt : (i >? 1) = true) by (apply Z.gtb_lt; lia). rewrite Hgt.
    rewrite sar_one, xor_one, even_mod2 by lia.
    assert (Hhalf : i / 2 = pow2 r + Z.of_nat (Nat.div2 j)).
    { unfold i. rewrite Nat.div2_div. lia. }
    rewrite Hhalf, Hcell.
    pose proof (length_nextLevel_bounds keccak_256
                  (levelAbove keccak_256 e (leafDigests keccak_256 members))) as Hb.
    destruct (IH (S e) (Nat.div2 j) fuel) as (sibs & Hrun & Hroot); try lia.
    { cbn [levelAbove]. rewrite Nat.div2_div. lia. }
    rewrite Hrun. cbn [mbind outcome_bind].
    exists (sib :: sibs). split; [reflexivity|].
    cbn [recomputeRoot fold_left]. rewrite Hstep. exact Hroot.
Qed.

Lemma nth_map_lookup {A B : Type} (f : A -> B) (l : list A) (j : nat) (x : A) (dflt : B) :
  l !! j = Some x -> nth j (map f l) dflt = f x.
Proof.
  revert j. induction l as [|y l IH]; intros [|j]; simpl; try discriminate.
  - now intros [= ->].
  - apply IH.
Qed.

(** In a tree that was built every member has its leaf. *)
Lemma built_leaf (keccak_256 : Buffer.t -> string) (fuel : nat)
    (members : list Member.MonoplasmaMember) (tr : MerkleTree.tree)
    (m : Member.MonoplasmaMember) :
  MerkleTree.buildMerkleTree keccak_256 fuel members = Return tr -> In m members ->
  MerkleTree.hashLeaf keccak_256 m (SaltString "") = Return (leafDigest keccak_256 m).
Proof.
  intros Hbuild Hin. apply hashLeaf_hashable.
  pose proof (buildMerkleTree_hashable _ _ _ _ Hbuild) as Hall.
  rewrite List.Forall_forall in Hall. now apply Hall.
Qed.

(** X1: for a member's address, the path that [getPath] returns leads from
    the digest of the member's leaf to the root: walking it, with a zero
    sibling skipped and any other sibling hashed with the running digest in
    sorted order, ends in [hashes[1]]. *)
Theorem path_leads_to_root (keccak_256 : Buffer.t -> string) (fuel : nat)
    (members : list Member.MonoplasmaMember) (tr : MerkleTree.tree)
    (address : string) (i : Z)
    (Hfuel : (32 + length members <= fuel)%nat)
    (Hbuild : MerkleTree.buildMerkleTree keccak_256 fuel members = Return tr)
    (Hindex : MerkleTree.indexOf tr !! address = Some i)
    (Hnonzero : noZeroDigest keccak_256 members = true) :
  exists (m : Member.MonoplasmaMember) (leaf : Buffer.t) (sibs : list Buffer.t)
         (root : Buffer.t),
    In m members /\ Member.address m = address
    /\ MerkleTree.hashLeaf keccak_256 m (SaltString "") = Return leaf
    /\ Array.get (MerkleTree.hashes tr) i = Buf leaf
    /\ fst (MerkleTree.getPath keccak_256 fuel (MerkleTree.new members) address)
       = Return (map digestText sibs)
    /\ Array.get (MerkleTree.hashes tr) 1 = Buf root
    /\ recomputeRoot keccak_256 leaf sibs = root.
Proof.
  pose proof (built_nonempty _ _ _ _ _ _ Hbuild Hindex) as Hne.
  destruct (built_wellBuilt _ _ _ _ Hne Hfuel Hbuild) as (d & W).
  pose proof W as (Hd & _ & _ & Hnodes & _ & Hix & _).
  destruct (Hix _ _ Hindex) as (j & m & Hj & Ha & ->).
  assert (Hjlen : (j < length (leafDigests keccak_256 members))%nat).
  { unfold leafDigests. rewrite length_map. now apply lookup_lt_Some in Hj. }
  destruct (path_recomputes _ _ _ _ W Hnonzero d O j fuel ltac:(lia) Hjlen ltac:(lia))
    as (sibs & Hpath & Hroot).
  assert (Hleaf : nth j (leafDigests keccak_256 members) [] = leafDigest keccak_256 m)
    by (unfold leafDigests; exact (nth_map_lookup _ members j m [] Hj)).
  cbn [levelAbove] in Hroot. rewrite Hleaf in Hroot.
  assert (Hin : In m members)
    by (apply list_elem_of_In; eapply list_elem_of_lookup_2; exact Hj).
  exists m, (leafDigest keccak_256 m), sibs,
    (nth O (levelAbove keccak_256 d (leafDigests keccak_256 members)) []).
  split; [exact Hin|].
  split; [exact Ha|]. split; [exact (built_leaf _ _ _ _ _ Hbuild Hin)|]. split.
  { specialize (Hnodes O j ltac:(lia) Hjlen). cbn [levelAbove] in Hnodes.
    rewrite Nat.sub_0_r, Hleaf in Hnodes. exact Hnodes. }
  split.
  { rewrite (getPath_new _ _ _ _ _ Hne Hbuild), (readIndex_own _ _ _ Hindex). cbn [fst].
    pose proof (pow2_pos d).
    destruct (pow2 d + Z.of_nat j =? 0) eqn:Hz; [apply Z.eqb_eq in Hz; lia|].
    rewrite Hpath. cbn [mbind outcome_bind]. apply mapM_digestText. }
  split; [|exact Hroot].
  pose proof (wellBuilt_length _ _ _ _ W) as Hxs.
  assert (Htop : (0 < length (levelAbove keccak_256 d (leafDigests keccak_256 members)))%nat).
  { clear - Hjlen. induction d as [|d IH]; [cbn [levelAbove]; lia|].
    cbn [levelAbove].
    pose proof (length_nextLevel_bounds keccak_256
                  (levelAbove keccak_256 d (leafDigests keccak_256 members))). lia. }
  specialize (Hnodes d O ltac:(lia) Htop).
  replace (d - d)%nat with O in Hnodes by lia. exact Hnodes.
Qed.

Lemma path_leads_to_root_witness :
  exists tr m leaf sibs root,
    MerkleTree.buildMerkleTree keccak_256_hex 40 [member1; member2; member3] = Return tr
    /\ MerkleTree.indexOf tr !! address3 = Some 6
    /\ noZeroDigest keccak_256_hex [member1; member2; member3] = true
    /\ Member.address m = address3
    /\ MerkleTree.hashLeaf keccak_256_hex m (SaltString "") = Return leaf
    /\ Array.get (MerkleTree.hashes tr) 1 = Buf root
    /\ recomputeRoot keccak_256_hex leaf sibs = root.
Proof.
  assert (Hb : exists tr,
             MerkleTree.buildMerkleTree keccak_256_hex 40 [member1; member2; member3]
             = Return tr
             /\ MerkleTree.indexOf tr !! address3 = Some 6).
  { eexists. split; [vm_compute; reflexivity | vm_compute; reflexivity]. }
  destruct Hb as (tr & Hb & Hi).
  assert (Hnz : noZeroDigest keccak_256_hex [member1; member2; member3] = true)
    by (vm_compute; reflexivity).
  destruct (path_leads_to_root keccak_256_hex 40 [member1; member2; member3] tr address3 6
              ltac:(simpl; lia) Hb Hi Hnz)
    as (m & leaf & sibs & root & _ & Ha & Hleaf & _ & _ & Hroot & Hwalk).
  exists tr, m, leaf, sibs, root. repeat split; assumption.
Defined.

(** ** The root *)

Lemma levelAbove_singleton (keccak_256 : Buffer.t -> string) (xs : list Buffer.t)
    (e k : nat) :
  length (levelAbove keccak_256 e xs) = 1%nat ->
  levelAbove keccak_256 (k + e) xs = levelAbove keccak_256 e xs.
Proof.
  intros Hone. induction k as [|k IH]; [reflexivity|].
  cbn [Nat.add levelAbove]. rewrite IH.
  destruct (levelAbove keccak_256 e xs) as [|a [|b rest]]; try discriminate. reflexivity.
Qed.

Lemma levelAbove_nonempty (keccak_256 : Buffer.t -> string) (xs : list Buffer.t) (e : nat) :
  (1 <= length xs)%nat -> (1 <= length (levelAbove keccak_256 e xs))%nat.
Proof.
  intros Hxs. induction e as [|e IH]; [exact Hxs|].
  cbn [levelAbove].
  pose proof (length_nextLevel_bounds keccak_256 (levelAbove keccak_256 e xs)). lia.
Qed.

Lemma pow2_lt_mono (a b : nat) : pow2 a <= pow2 b -> (a <= b)%nat.
Proof.
  unfold pow2. intros H.
  destruct (Nat.le_gt_cases a b) as [|Hlt]; [assumption|].
  assert (2 ^ Z.of_nat b < 2 ^ Z.of_nat a) by (apply Z.pow_lt_mono_r; lia). lia.
Qed.

Lemma succ_le_pow2 (n : nat) : Z.of_nat n + 1 <= pow2 n.
Proof.
  induction n as [|n IH]; [unfold pow2; simpl; lia|].
  rewrite pow2_S. pose proof (pow2_pos n). lia.
Qed.

(** The top row of a built tree is the root over the leaf digests. *)
Lemma wellBuilt_root (keccak_256 : Buffer.t -> string)
    (members : list Member.MonoplasmaMember) (tr : MerkleTree.tree) (d : nat) :
  members <> [] ->
  wellBuilt keccak_256 members tr d ->
  Array.get (MerkleTree.hashes tr) 1 = Buf (merkleRoot keccak_256 (leafDigests keccak_256 members)).
Proof.
  intros Hne W. pose proof (wellBuilt_length _ _ _ _ W) as Hlen.
  destruct W as (Hd & _ & Hleast & Hnodes & _).
  set (xs := leafDigests keccak_256 members) in *.
  assert (Hn : (1 <= length xs)%nat).
  { subst xs. unfold leafDigests. rewrite length_map.
    destruct members; [congruence | simpl; lia]. }
  pose proof (levelAbove_length_le keccak_256 xs d Hlen d ltac:(lia)) as Htop.
  rewrite Nat.sub_diag in Htop. change (pow2 0) with 1 in Htop.
  pose proof (levelAbove_nonempty keccak_256 xs d Hn) as Htop'.
  assert (Hone : length (levelAbove keccak_256 d xs) = 1%nat) by lia.
  assert (Hdn : (d <= length xs)%nat).
  { apply pow2_lt_mono. destruct Hleast as (_ & _ & Hmin).
    apply Hmin; [lia|].
    pose proof (leafCountOf_bounds members) as [Hb _].
    pose proof (succ_le_pow2 (length xs)) as Hs. fold (pow2 (length xs)).
    subst xs. unfold leafDigests in *. rewrite length_map in *. lia. }
  unfold merkleRoot.
  replace (length xs) with ((length xs - d) + d)%nat by lia.
  rewrite (levelAbove_singleton _ _ _ _ Hone).
  specialize (Hnodes d O ltac:(lia) ltac:(lia)).
  rewrite Nat.sub_diag in Hnodes. exact Hnodes.
Qed.

Lemma getRootHash_new (keccak_256 : Buffer.t -> string) (fuel : nat)
    (members : list Member.MonoplasmaMember) :
  members <> [] -> Forall (fun m => hashable m = true) members ->
  leafCountOf members <= 2 ^ 30 -> (32 + length members <= fuel)%nat ->
  fst (MerkleTree.getRootHash keccak_256 fuel (MerkleTree.new members))
  = Return (digestText (merkleRoot keccak_256 (leafDigests keccak_256 members))).
Proof.
  intros Hne Hall Hsmall Hfuel.
  destruct (buildMerkleTree_spec keccak_256 fuel members Hne Hall Hsmall Hfuel)
    as (tr & d & Hb & W).
  unfold MerkleTree.getRootHash, MerkleTree.getContents, MerkleTree.new, MerkleTree.update.
  cbn [MerkleTree.contents MerkleTree.isDirty MerkleTree.cached].
  destruct members as [|m ms]; [congruence|].
  cbn [length Nat.eqb]. rewrite Hb. cbn [fst].
  now rewrite (wellBuilt_root _ _ _ _ Hne W).
Qed.

Lemma nextLevel_app_even (keccak_256 : Buffer.t -> string) (p q : list Buffer.t) :
  Nat.even (length p) = true ->
  nextLevel keccak_256 (p ++ q) = nextLevel keccak_256 p ++ nextLevel keccak_256 q.
Proof.
  induction p as [| a | a b rest IH] using list_pair_ind; intros Hev.
  - reflexivity.
  - discriminate.
  - cbn [length Nat.even] in Hev. cbn [app nextLevel]. now rewrite IH.
Qed.

Lemma merkleRoot_swap (keccak_256 : Buffer.t -> string) (p q : list Buffer.t)
    (x y : Buffer.t) :
  Nat.even (length p) = true ->
  merkleRoot keccak_256 (p ++ x :: y :: q) = merkleRoot keccak_256 (p ++ y :: x :: q).
Proof.
  intros Hev. unfold merkleRoot.
  rewrite !length_app. cbn [length].
  replace (length p + S (S (length q)))%nat with (S (length p + S (length q)))%nat by lia.
  rewrite <- !levelAbove_nextLevel.
  rewrite !(nextLevel_app_even _ _ _ Hev). cbn [nextLevel].
  now rewrite (sortedPairHash_comm keccak_256 x y).
Qed.

(** X2: on a list of members that is not empty and whose members all have a
    leaf, [getRootHash] returns the text of the root over the leaf digests: the
    one digest left after pairing the row up, level by level. For one member
    it is the digest of its leaf, for two members the sorted hash of their two
    leaves. *)
Theorem getRootHash_is_root (keccak_256 : Buffer.t -> string) (fuel : nat)
    (members : list Member.MonoplasmaMember)
    (Hne : members <> [])
    (Hall : Forall (fun m => hashable m = true) members)
    (Hsmall : leafCountOf members <= 2 ^ 30)
    (Hfuel : (32 + length members <= fuel)%nat) :
  fst (MerkleTree.getRootHash keccak_256 fuel (MerkleTree.new members))
  = Return (digestText (merkleRoot keccak_256 (leafDigests keccak_256 members)))
  /\ (forall m, members = [m] ->
      MerkleTree.hashLeaf keccak_256 m (SaltString "")
      = Return (merkleRoot keccak_256 (leafDigests keccak_256 members)))
  /\ (forall m1 m2, members = [m1; m2] ->
      exists leaf1 leaf2,
        MerkleTree.hashLeaf keccak_256 m1 (SaltString "") = Return leaf1
        /\ MerkleTree.hashLeaf keccak_256 m2 (SaltString "") = Return leaf2
        /\ merkleRoot keccak_256 (leafDigests keccak_256 members)
           = sortedPairHash keccak_256 leaf1 leaf2).
Proof.
  split; [now apply getRootHash_new|]. split.
  - intros m ->. apply Forall_cons in Hall. destruct Hall as [Hm _].
    now rewrite (hashLeaf_hashable _ _ Hm).
  - intros m1 m2 ->. apply Forall_cons in Hall. destruct Hall as [H1 Hall].
    apply Forall_cons in Hall. destruct Hall as [H2 _].
    exists (leafDigest keccak_256 m1), (leafDigest keccak_256 m2).
    split; [now apply hashLeaf_hashable|]. split; [now apply hashLeaf_hashable|]. reflexivity.
Qed.

Lemma getRootHash_is_root_witness :
  fst (MerkleTree.getRootHash keccak_256_hex 40 (MerkleTree.new [member1; member2; member3]))
  = Return (digestText (merkleRoot keccak_256_hex
                          (leafDigests keccak_256_hex [member1; member2; member3]))).
Proof.
  apply (getRootHash_is_root keccak_256_hex 40 [member1; member2; member3]);
    [discriminate | repeat constructor | vm_compute; discriminate | simpl; lia].
Defined.

(** X3: the root does not depend on the order of the two members of a pair:
    on a list whose members all have a leaf, exchanging the members at
    positions 2k and 2k+1 leaves what [getRootHash] returns unchanged. *)
Theorem getRootHash_pair_order (keccak_256 : Buffer.t -> string) (fuel : nat)
    (before after : list Member.MonoplasmaMember) (a b : Member.MonoplasmaMember)
    (Heven : Nat.even (length before) = true)
    (Hall : Forall (fun m => hashable m = true) (before ++ a :: b :: after))
    (Hsmall : leafCountOf (before ++ a :: b :: after) <= 2 ^ 30)
    (Hfuel : (32 + length (before ++ a :: b :: after) <= fuel)%nat) :
  fst (MerkleTree.getRootHash keccak_256 fuel (MerkleTree.new (before ++ b :: a :: after)))
  = fst (MerkleTree.getRootHash keccak_256 fuel (MerkleTree.new (before ++ a :: b :: after)))
  /\ exists root,
       fst (MerkleTree.getRootHash keccak_256 fuel
              (MerkleTree.new (before ++ a :: b :: after)))
       = Return root.
Proof.
  assert (Hlen : length (before ++ b :: a :: after) = length (before ++ a :: b :: after))
    by (rewrite !length_app; reflexivity).
  assert (Hall' : Forall (fun m => hashable m = true) (before ++ b :: a :: after)).
  { apply Forall_app in Hall. destruct Hall as [Hb Hrest].
    apply Forall_cons in Hrest. destruct Hrest as [Ha Hrest].
    apply Forall_cons in Hrest. destruct Hrest as [Hb' Hafter].
    apply Forall_app. split; [exact Hb|]. repeat (apply Forall_cons; split; try assumption). }
  rewrite !getRootHash_new;
    try assumption; try (now destruct before);
    try (unfold leafCountOf in *; rewrite ?Hlen; lia); try (rewrite ?Hlen; lia).
  split; [|eauto].
  f_equal. f_equal. unfold leafDigests. rewrite !map_app. cbn [map].
  apply merkleRoot_swap. now rewrite length_map.
Qed.

Lemma getRootHash_pair_order_witness :
  fst (MerkleTree.getRootHash keccak_256_hex 40 (MerkleTree.new [member2; member1; member3]))
  = fst (MerkleTree.getRootHash keccak_256_hex 40 (MerkleTree.new [member1; member2; member3])).
Proof.
  apply (getRootHash_pair_order keccak_256_hex 40 [] [member3] member1 member2);
    [reflexivity | repeat constructor | vm_compute; discriminate | simpl; lia].
Defined.

(** ** The cached tree *)

(** After a call of [getContents] that returned, the object is clean, holds
    what was returned, and has contents. *)
Lemma getContents_after (keccak_256 : Buffer.t -> string) (fuel : nat)
    (this this' : MerkleTree.t) (r : option MerkleTree.tree) :
  MerkleTree.getContents keccak_256 fuel this = (Return r, this') ->
  MerkleTree.isDirty this' = false /\ MerkleTree.cached this' = r
  /\ MerkleTree.contents this' = MerkleTree.contents this
  /\ (length (MerkleTree.contents this) =? 0)%nat = false.
Proof.
  unfold MerkleTree.getContents.
  destruct (length (MerkleTree.contents this) =? 0)%nat eqn:Hlen; [discriminate|].
  destruct (MerkleTree.isDirty this) eqn:Hdirty.
  - destruct (MerkleTree.buildMerkleTree keccak_256 fuel (MerkleTree.contents this))
      as [tr| |]; try discriminate.
    intros [= <- <-]. now cbn.
  - intros [= <- <-]. auto.
Qed.

Lemma getPath_of_contents (keccak_256 : Buffer.t -> string) (fuel : nat)
    (this other : MerkleTree.t) (address : string) :
  fst (MerkleTree.getContents keccak_256 fuel this)
  = fst (MerkleTree.getContents keccak_256 fuel other) ->
  fst (MerkleTree.getPath keccak_256 fuel this address)
  = fst (MerkleTree.getPath keccak_256 fuel other address)
  /\ fst (MerkleTree.getRootHash keccak_256 fuel this)
     = fst (MerkleTree.getRootHash keccak_256 fuel other).
Proof.
  unfold MerkleTree.getPath, MerkleTree.getRootHash.
  destruct (MerkleTree.getContents keccak_256 fuel this) as [r this1].
  destruct (MerkleTree.getContents keccak_256 fuel other) as [r' this2].
  cbn [fst]. intros <-. split.
  - destruct r as [[tr|]| |]; try reflexivity.
    destruct (MerkleTree.readIndex (MerkleTree.indexOf tr) address) as [i| |];
      try reflexivity.
    now destruct (i =? 0).
  - now destruct r as [[tr|]| |].
Qed.

(** X4: the cache follows [update], and nothing else. After [update] the
    object answers as a fresh object with the new contents, whatever it held
    before. But [contents] is a reference: when the array or a member in it is
    changed in place after a build, with no [update], [getPath] and
    [getRootHash] go on answering from the tree that was built before the
    change. *)
Theorem cache_follows_update_only (keccak_256 : Buffer.t -> string) (fuel : nat)
    (this built : MerkleTree.t) (r : option MerkleTree.tree)
    (current : list Member.MonoplasmaMember) (address : string)
    (Hbuilt : MerkleTree.getContents keccak_256 fuel this = (Return r, built))
    (Hcurrent : current <> []) :
  (MerkleTree.getContents keccak_256 fuel (MerkleTree.changedInPlace built current)
   = (Return r, MerkleTree.changedInPlace built current)
   /\ fst (MerkleTree.getPath keccak_256 fuel (MerkleTree.changedInPlace built current) address)
      = fst (MerkleTree.getPath keccak_256 fuel built address)
   /\ fst (MerkleTree.getRootHash keccak_256 fuel (MerkleTree.changedInPlace built current))
      = fst (MerkleTree.getRootHash keccak_256 fuel built))
  /\ (fst (MerkleTree.getPath keccak_256 fuel
             (MerkleTree.update (MerkleTree.changedInPlace built current) current) address)
      = fst (MerkleTree.getPath keccak_256 fuel (MerkleTree.new current) address)
      /\ fst (MerkleTree.getRootHash keccak_256 fuel
                (MerkleTree.update (MerkleTree.changedInPlace built current) current))
         = fst (MerkleTree.getRootHash keccak_256 fuel (MerkleTree.new current))).
Proof.
  destruct (getContents_after _ _ _ _ _ Hbuilt) as (Hclean & Hcached & Hsame & Hlen).
  assert (Hstale : MerkleTree.getContents keccak_256 fuel
                     (MerkleTree.changedInPlace built current)
                   = (Return r, MerkleTree.changedInPlace built current)).
  { unfold MerkleTree.getContents, MerkleTree.changedInPlace.
    cbn [MerkleTree.contents MerkleTree.isDirty MerkleTree.cached].
    destruct current as [|m rest]; [congruence|]. cbn [length Nat.eqb].
    now rewrite Hclean, Hcached. }
  assert (Hagain : MerkleTree.getContents keccak_256 fuel built = (Return r, built)).
  { unfold MerkleTree.getContents. rewrite Hsame, Hlen, Hclean. now rewrite Hcached. }
  split; [split; [exact Hstale|]|].
  - apply getPath_of_contents. now rewrite Hstale, Hagain.
  - apply getPath_of_contents.
    unfold MerkleTree.getContents, MerkleTree.new, MerkleTree.update, MerkleTree.changedInPlace.
    cbn [MerkleTree.contents MerkleTree.isDirty MerkleTree.cached].
    destruct (length current =? 0)%nat; [reflexivity|].
    now destruct (MerkleTree.buildMerkleTree keccak_256 fuel current).
Qed.

Lemma cache_follows_update_only_witness :
  exists paid built stale fresh,
    Member.addRevenue member1 (BN.Number 5) = (Return tt, paid)
    /\ snd (MerkleTree.getRootHash keccak_256_hex 40 (MerkleTree.new [member1; member2]))
       = built
    /\ fst (MerkleTree.getRootHash keccak_256_hex 40
              (MerkleTree.changedInPlace built [paid; member2]))
       = Return stale
    /\ fst (MerkleTree.getRootHash keccak_256_hex 40 built) = Return stale
    /\ fst (MerkleTree.getRootHash keccak_256_hex 40 (MerkleTree.new [paid; member2]))
       = Return fresh
    /\ stale <> fresh.
Proof.
  assert (H : exists tr built stale fresh,
             MerkleTree.getContents keccak_256_hex 40 (MerkleTree.new [member1; member2])
             = (Return (Some tr), built)
             /\ snd (MerkleTree.getRootHash keccak_256_hex 40
                       (MerkleTree.new [member1; member2])) = built
             /\ fst (MerkleTree.getRootHash keccak_256_hex 40 built) = Return stale
             /\ fst (MerkleTree.getRootHash keccak_256_hex 40
                       (MerkleTree.new [member1paid; member2])) = Return fresh
             /\ stale <> fresh).
  { do 4 eexists. split; [vm_compute; reflexivity|]. split; [vm_compute; reflexivity|].
    split; [vm_compute; reflexivity|]. split; [vm_compute; reflexivity|].
    vm_compute. discriminate. }
  destruct H as (tr & built & stale & fresh & Hbuilt & Hsnd & Hroot & Hfresh & Hdiff).
  exists member1paid, built, stale, fresh. split; [reflexivity|].
  split; [exact Hsnd|]. split; [|auto].
  destruct (cache_follows_update_only keccak_256_hex 40 _ built (Some tr)
              [member1paid; member2] "" Hbuilt ltac:(discriminate))
    as [(_ & _ & Hstale) _].
  now rewrite Hstale.
Defined.

(** X5: the tree is built once: when [getContents] has returned, a second
    call returns the same tree and leaves the object as it is, without
    building anything (it succeeds even with no fuel for a build). *)
Theorem getContents_builds_once (keccak_256 : Buffer.t -> string) (fuel : nat)
    (this this' : MerkleTree.t) (r : option MerkleTree.tree)
    (Hfirst : MerkleTree.getContents keccak_256 fuel this = (Return r, this')) :
  MerkleTree.getContents keccak_256 0 this' = (Return r, this').
Proof.
  unfold MerkleTree.getContents in *.
  destruct (length (MerkleTree.contents this) =? 0)%nat eqn:Hlen; [discriminate|].
  destruct (MerkleTree.isDirty this) eqn:Hdirty.
  - destruct (MerkleTree.buildMerkleTree keccak_256 fuel (MerkleTree.contents this))
      as [tr| |]; try discriminate.
    injection Hfirst as <- <-.
    cbn [MerkleTree.contents MerkleTree.isDirty MerkleTree.cached]. now rewrite Hlen.
  - injection Hfirst as <- <-. now rewrite Hlen, Hdirty.
Qed.

Lemma getContents_builds_once_witness :
  exists r this',
    MerkleTree.getContents keccak_256_hex 40 (MerkleTree.new [member1; member2])
    = (Return (Some r), this')
    /\ MerkleTree.getContents keccak_256_hex 0 this' = (Return (Some r), this').
Proof.
  assert (H : exists r this',
             MerkleTree.getContents keccak_256_hex 40 (MerkleTree.new [member1; member2])
             = (Return (Some r), this')) by (eexists; eexists; vm_compute; reflexivity).
  destruct H as (r & this' & H). exists r, this'. split; [exact H|].
  exact (getContents_builds_once keccak_256_hex 40 _ _ _ H).
Defined.

(** ** Addresses that occur more than once *)

Lemma leastPowerOfTwoAtLeast_unique (x p q : Z) :
  leastPowerOfTwoAtLeast x p -> leastPowerOfTwoAtLeast x q -> p = q.
Proof.
  intros ((k & Hk & ->) & Hxp & Hp) ((l & Hl & ->) & Hxq & Hq).
  pose proof (Hp l Hl Hxq). pose proof (Hq k Hk Hxp). lia.
Qed.

(** The key of an address holds the position of the last member with it. *)
Lemma placeLeaves_last (keccak_256 : Buffer.t -> string) (a : string)
    (ms : list Member.MonoplasmaMember) :
  forall A ix i A' ix' v,
  MerkleTree.placeLeaves keccak_256 ms A ix i = Return (A', ix') ->
  ix' !! a = Some v ->
  (exists j m, ms !! j = Some m /\ Member.address m = a /\ v = i + Z.of_nat j
               /\ forall j' m', ms !! j' = Some m' -> Member.address m' = a -> (j' <= j)%nat)
  \/ (ix !! a = Some v /\ forall m, In m ms -> Member.address m <> a).
Proof.
  induction ms as [|m ms IH]; intros A ix i A' ix' v Hplace Hv.
  - injection Hplace as <- <-. right. split; [exact Hv | intros m []].
  - cbn [MerkleTree.placeLeaves] in Hplace.
    destruct (MerkleTree.hashLeaf keccak_256 m (SaltString "")) as [leaf| |] eqn:Hleaf;
      try discriminate.
    cbn [mbind outcome_bind] in Hplace.
    apply hashLeaf_returns in Hleaf. destruct Hleaf as [Hm _].
    rewrite (hashable_write _ _ _ Hm) in Hplace.
    destruct (IH _ _ _ _ _ _ Hplace Hv) as [(j & m' & Hj & Ha & -> & Hlast) | [Hix Hnone]].
    + left. exists (S j), m'. split; [exact Hj|]. split; [exact Ha|]. split; [lia|].
      intros [|j'] m'' Hj' Ha'; [lia|]. specialize (Hlast j' m'' Hj' Ha'). lia.
    + destruct (String.eqb_spec (Member.address m) a) as [Heq|Hne].
      * left. exists O, m. split; [reflexivity|]. split; [exact Heq|].
        rewrite <- Heq, lookup_insert_eq in Hix. injection Hix as <-.
        split; [lia|].
        intros [|j'] m'' Hj' Ha'; [lia|].
        exfalso. apply (Hnone m''); [|exact Ha'].
        apply list_elem_of_In. eapply list_elem_of_lookup_2. exact Hj'.
      * right. rewrite lookup_insert_ne in Hix by exact Hne.
        split; [exact Hix|]. intros m'' [<-|Hin]; [exact Hne | now apply Hnone].
Qed.

Lemma find_app {A : Type} (p : A -> bool) (l1 l2 : list A) :
  List.find p (l1 ++ l2)
  = match List.find p l1 with Some x => Some x | None => List.find p l2 end.
Proof.
  induction l1 as [|x l1 IH]; [reflexivity|]. cbn [app List.find].
  now destruct (p x).
Qed.

Lemma lastWithAddress_spec (a : string) (ms : list Member.MonoplasmaMember) :
  forall j m, ms !! j = Some m -> Member.address m = a ->
  (forall j' m', ms !! j' = Some m' -> Member.address m' = a -> (j' <= j)%nat) ->
  lastWithAddress a ms = Some m.
Proof.
  unfold lastWithAddress.
  induction ms as [|x ms IH]; intros j m Hj Ha Hlast; [discriminate|].
  cbn [rev]. rewrite find_app.
  destruct j as [|j].
  - injection Hj as ->.
    destruct (List.find _ (rev ms)) as [y|] eqn:Hfind.
    + apply find_some in Hfind. destruct Hfind as [Hin Hy].
      apply in_rev in Hin. apply list_elem_of_In, list_elem_of_lookup_1 in Hin.
      destruct Hin as [k Hk]. apply String.eqb_eq in Hy.
      specialize (Hlast (S k) y Hk Hy). lia.
    + cbn [List.find]. now rewrite Ha, String.eqb_refl.
  - rewrite (IH j m Hj Ha); [reflexivity|].
    intros j' m' Hj' Ha'. specialize (Hlast (S j') m' Hj' Ha'). lia.
Qed.

Lemma find_unique (a : string) (ms : list Member.MonoplasmaMember) :
  NoDup (map Member.address ms) ->
  forall j m, ms !! j = Some m -> Member.address m = a ->
  List.find (fun m => String.eqb (Member.address m) a) ms = Some m.
Proof.
  induction ms as [|x ms IH]; intros Hnd j m Hj Ha; [discriminate|].
  cbn [map] in Hnd. apply NoDup_cons in Hnd. destruct Hnd as [Hx Hnd].
  cbn [List.find]. destruct j as [|j].
  - injection Hj as ->. now rewrite Ha, String.eqb_refl.
  - destruct (String.eqb_spec (Member.address x) a) as [Heq|_].
    + exfalso. apply Hx. rewrite Heq, <- Ha.
      apply list_elem_of_fmap. exists m. split; [reflexivity|].
      eapply list_elem_of_lookup_2. exact Hj.
    + now apply (IH Hnd j).
Qed.

Lemma indexOf_last (keccak_256 : Buffer.t -> string) (fuel : nat)
    (members : list Member.MonoplasmaMember) (tr : MerkleTree.tree)
    (a : string) (i : Z) :
  (32 + length members <= fuel)%nat ->
  MerkleTree.buildMerkleTree keccak_256 fuel members = Return tr ->
  MerkleTree.indexOf tr !! a = Some i ->
  exists j m B,
    members !! j = Some m /\ Member.address m = a
    /\ (forall j' m', members !! j' = Some m' -> Member.address m' = a -> (j' <= j)%nat)
    /\ Array.get (MerkleTree.hashes tr) 0 = Num B /\ i = B + Z.of_nat j
    /\ MerkleTree.hashLeaf keccak_256 m (SaltString "") = Return (leafDigest keccak_256 m)
    /\ Array.get (MerkleTree.hashes tr) i = Buf (leafDigest keccak_256 m).
Proof.
  intros Hfuel Hbuild Hi.
  pose proof (built_nonempty _ _ _ _ _ _ Hbuild Hi) as Hne.
  destruct (built_wellBuilt _ _ _ _ Hne Hfuel Hbuild) as (d & W).
  pose proof W as (Hd & H0 & Hleast & Hnodes & _).
  destruct (buildMerkleTree_parts _ _ _ _ Hbuild) as (B & A0 & A1 & HB & _ & Hplace & _).
  pose proof (buildMerkleTree_returns_small _ _ _ _ Hbuild) as Hsmall.
  destruct (leafCountOf_bounds members) as [Hlc _].
  destruct (roundUpToPowerOfTwo_spec fuel (leafCountOf members) ltac:(lia) ltac:(lia))
    as (k & _ & Hrun & _ & _ & Hleast').
  rewrite HB in Hrun. injection Hrun as ->.
  pose proof (leastPowerOfTwoAtLeast_unique _ _ _ Hleast Hleast') as Hpow.
  destruct (placeLeaves_last _ a _ _ _ _ _ _ _ Hplace Hi)
    as [(j & m & Hj & Ha & -> & Hlast) | [Hempty _]];
    [|rewrite lookup_empty in Hempty; discriminate].
  exists j, m, (2 ^ k). split; [exact Hj|]. split; [exact Ha|]. split; [exact Hlast|].
  split; [now rewrite <- Hpow|]. split; [reflexivity|].
  split; [apply (built_leaf _ _ _ _ _ Hbuild);
          apply list_elem_of_In; eapply list_elem_of_lookup_2; exact Hj|].
  assert (Hjlen : (j < length (leafDigests keccak_256 members))%nat).
  { unfold leafDigests. rewrite length_map. now apply lookup_lt_Some in Hj. }
  specialize (Hnodes O j ltac:(lia) Hjlen). cbn [levelAbove] in Hnodes.
  rewrite Nat.sub_0_r, Hpow in Hnodes. rewrite Hnodes. f_equal.
  unfold leafDigests. exact (nth_map_lookup _ members j m [] Hj).
Qed.

(** X6: when an address occurs more than once in the list, its key in
    [indexOf] is the position of the last member with it, and the leaf there
    is that member's. When no address occurs twice, it is the member that
    [includes] finds. *)
Theorem indexOf_is_last_member (keccak_256 : Buffer.t -> string) (fuel : nat)
    (members : list Member.MonoplasmaMember) (tr : MerkleTree.tree)
    (address : string) (i : Z)
    (Hfuel : (32 + length members <= fuel)%nat)
    (Hbuild : MerkleTree.buildMerkleTree keccak_256 fuel members = Return tr)
    (Hindex : MerkleTree.indexOf tr !! address = Some i) :
  exists m leaf,
    lastWithAddress address members = Some m
    /\ MerkleTree.hashLeaf keccak_256 m (SaltString "") = Return leaf
    /\ Array.get (MerkleTree.hashes tr) i = Buf leaf
    /\ (NoDup (map Member.address members) ->
        MerkleTree.includes (MerkleTree.new members) address = Some m).
Proof.
  destruct (indexOf_last _ _ _ _ _ _ Hfuel Hbuild Hindex)
    as (j & m & B & Hj & Ha & Hlast & _ & _ & Hhash & Hleaf).
  exists m, (leafDigest keccak_256 m).
  split; [now apply (lastWithAddress_spec _ _ j)|]. split; [exact Hhash|].
  split; [exact Hleaf|].
  intros Hnd. unfold MerkleTree.includes, MerkleTree.new, MerkleTree.update.
  cbn [MerkleTree.contents]. now apply (find_unique _ _ Hnd j).
Qed.

Lemma indexOf_is_last_member_witness :
  let twice := Member.mkMember "" address1 7 true in
  exists tr m leaf,
    MerkleTree.buildMerkleTree keccak_256_hex 40 [member1; member2; twice] = Return tr
    /\ MerkleTree.indexOf tr !! address1 = Some 6
    /\ lastWithAddress address1 [member1; member2; twice] = Some m
    /\ MerkleTree.hashLeaf keccak_256_hex m (SaltString "") = Return leaf
    /\ Array.get (MerkleTree.hashes tr) 6 = Buf leaf.
Proof.
  intros twice.
  assert (Hb : exists tr,
             MerkleTree.buildMerkleTree keccak_256_hex 40 [member1; member2; twice]
             = Return tr
             /\ MerkleTree.indexOf tr !! address1 = Some 6).
  { eexists. split; [vm_compute; reflexivity | vm_compute; reflexivity]. }
  destruct Hb as (tr & Hb & Hi).
  destruct (indexOf_is_last_member keccak_256_hex 40 [member1; member2; twice] tr address1 6
              ltac:(simpl; lia) Hb Hi) as (m & leaf & Hlast & Hhash & Hleaf & _).
  exists tr, m, leaf. split; [exact Hb|]. split; [exact Hi|]. split; [exact Hlast|].
  split; [exact Hhash | exact Hleaf].
Defined.

(** ** The size of the array *)

Lemma length_set (a : list cell) (i : Z) (v : cell) :
  0 <= i < Z.of_nat (length a) -> length (Array.set a i v) = length a.
Proof.
  intros Hi. unfold Array.set.
  destruct (i <? 0) eqn:Hneg; [reflexivity|].
  destruct (Z.to_nat i <? length a)%nat eqn:Hin.
  - apply length_insert.
  - apply Nat.ltb_ge in Hin. lia.
Qed.

Lemma pairLoop_length (keccak_256 : Buffer.t -> string) (fuel : nat) :
  forall (A A' : list cell) (src tgt endI : Z),
  0 <= tgt < src -> (exists h, endI - src = 2 * h) -> endI <= Z.of_nat (length A) ->
  MerkleTree.pairLoop keccak_256 fuel A src tgt endI = Return A' ->
  length A' = length A.
Proof.
  induction fuel as [|fuel IH]; intros A A' src tgt endI Htgt [h Hh] Hend Hrun;
    cbn [MerkleTree.pairLoop] in Hrun; [discriminate|].
  destruct (src <? endI) eqn:Hlt; [|now injection Hrun as <-].
  apply Z.ltb_lt in Hlt.
  destruct (negb (truthy (Array.get A src))); [now injection Hrun as <-|].
  destruct (negb (truthy (Array.get A (src + 1)))).
  - injection Hrun as <-.
    rewrite length_set; rewrite length_set; lia.
  - destruct (Array.get A src) as [| |h1]; try discriminate.
    destruct (Array.get A (src + 1)) as [| |h2]; try discriminate.
    rewrite parent_is_sortedPairHash in Hrun. cbn [mbind outcome_bind] in Hrun.
    apply IH in Hrun; [| lia | exists (h - 1); lia | rewrite length_set; lia].
    rewrite Hrun. apply length_set. lia.
Qed.

Lemma levelLoop_length (keccak_256 : Buffer.t -> string) (fuel : nat) :
  forall (d : nat) (A A' : list cell) (endI : Z),
  (d <= 30)%nat -> pow2 d <= endI -> ((1 <= d)%nat -> exists h, endI - pow2 d = 2 * h) ->
  endI <= Z.of_nat (length A) ->
  MerkleTree.levelLoop keccak_256 fuel A (pow2 d) endI = Return A' ->
  length A' = length A.
Proof.
  induction fuel as [|fuel IH]; intros d A A' endI Hd Hle Hev Hend Hrun;
    cbn [MerkleTree.levelLoop] in Hrun; [discriminate|].
  destruct (pow2 d >? 1) eqn:Hgt; [|now injection Hrun as <-].
  apply Z.gtb_lt in Hgt.
  destruct d as [|d]; [change (pow2 0) with 1 in Hgt; lia|].
  pose proof (pow2_pos d) as Hpos. pose proof (pow2_S d) as HS.
  assert (Hd31 : pow2 (S d) <= 2 ^ 30) by (unfold pow2; apply Z.pow_le_mono_r; lia).
  rewrite sar_one in Hrun by lia.
  replace (pow2 (S d) / 2) with (pow2 d) in Hrun
    by (rewrite HS, Z.mul_comm, Z.div_mul; lia).
  destruct (MerkleTree.pairLoop keccak_256 (S fuel) A (pow2 (S d)) (pow2 d) endI)
    as [A1| |] eqn:Hpair; try discriminate.
  cbn [mbind outcome_bind] in Hrun.
  apply pairLoop_length in Hpair; [| lia | apply Hev; lia | exact Hend].
  apply IH in Hrun; [lia | lia | lia | | lia].
  intros Hd1. destruct d as [|d']; [lia|].
  exists (pow2 d'). rewrite (pow2_S d') in *. lia.
Qed.

Lemma placeLeaves_length (keccak_256 : Buffer.t -> string)
    (ms : list Member.MonoplasmaMember) :
  forall (A : list cell) (ix : gmap string Z) (i : Z) (A' : list cell) (ix' : gmap string Z),
  0 <= i -> i + Z.of_nat (length ms) <= Z.of_nat (length A) ->
  MerkleTree.placeLeaves keccak_256 ms A ix i = Return (A', ix') ->
  length A' = length A.
Proof.
  induction ms as [|m ms IH]; intros A ix i A' ix' Hi Hroom Hrun;
    cbn [MerkleTree.placeLeaves length] in *; [now injection Hrun as <- <-|].
  destruct (MerkleTree.hashLeaf keccak_256 m (SaltString "")) as [leaf| |];
    try discriminate.
  cbn [mbind outcome_bind] in Hrun.
  apply IH in Hrun; [| lia | rewrite length_set; lia].
  rewrite Hrun. apply length_set. lia.
Qed.

Lemma length_new (n : Z) (a : list cell) :
  Array.new n = Return a -> 0 <= n /\ Z.of_nat (length a) = n.
Proof.
  unfold Array.new. destruct (_ || _) eqn:Hrange; [discriminate|].
  intros [= <-]. apply orb_false_iff in Hrange. destruct Hrange as [Hneg _].
  apply Z.ltb_ge in Hneg. rewrite length_replicate. lia.
Qed.

(** X7: the build never writes outside the array it allocates: the array it
    returns has [branchCount + leafCount] elements, the branch count being
    the number at index 0 and [leafCount] the number of members rounded up to
    an even number. *)
Theorem hashes_length (keccak_256 : Buffer.t -> string) (fuel : nat)
    (members : list Member.MonoplasmaMember) (tr : MerkleTree.tree)
    (Hne : members <> [])
    (Hfuel : (32 + length members <= fuel)%nat)
    (Hbuild : MerkleTree.buildMerkleTree keccak_256 fuel members = Return tr) :
  exists branchCount,
    Array.get (MerkleTree.hashes tr) 0 = Num branchCount
    /\ Z.of_nat (length (MerkleTree.hashes tr)) = branchCount + leafCountOf members
    /\ leafCountOf members <= branchCount.
Proof.
  destruct (built_wellBuilt _ _ _ _ Hne Hfuel Hbuild) as (d & W).
  pose proof W as (Hd & H0 & Hleast & _).
  destruct (buildMerkleTree_parts _ _ _ _ Hbuild) as (B & A0 & A1 & HB & Hnew & Hplace & Hloop).
  pose proof (buildMerkleTree_returns_small _ _ _ _ Hbuild) as Hsmall.
  destruct (leafCountOf_bounds members) as [Hlc [h Hh]].
  destruct (roundUpToPowerOfTwo_spec fuel (leafCountOf members) ltac:(lia) ltac:(lia))
    as (k & _ & Hrun & _ & _ & Hleast').
  rewrite HB in Hrun. injection Hrun as ->.
  pose proof (leastPowerOfTwoAtLeast_unique _ _ _ Hleast Hleast') as Hpow.
  rewrite <- Hpow in *. clear Hleast' Hpow.
  pose proof (pow2_pos d) as Hpos.
  apply length_new in Hnew. destruct Hnew as [_ Hlen0].
  assert (Hlen1 : length A1 = length A0).
  { apply placeLeaves_length in Hplace; [| lia | rewrite length_set; lia].
    rewrite Hplace. apply length_set. lia. }
  apply levelLoop_length in Hloop; [| lia | lia | intros _; exists h; lia | lia].
  exists (pow2 d). split; [exact H0|]. split; [lia|].
  now destruct Hleast as (_ & Hle & _).
Qed.

Lemma hashes_length_witness :
  exists tr,
    MerkleTree.buildMerkleTree keccak_256_hex 40 [member1; member2; member3] = Return tr
    /\ Array.get (MerkleTree.hashes tr) 0 = Num 4
    /\ length (MerkleTree.hashes tr) = 8%nat.
Proof.
  assert (Hb : exists tr,
             MerkleTree.buildMerkleTree keccak_256_hex 40 [member1; member2; member3]
             = Return tr
             /\ Array.get (MerkleTree.hashes tr) 0 = Num 4).
  { eexists. split; [vm_compute; reflexivity | vm_compute; reflexivity]. }
  destruct Hb as (tr & Hb & H0).
  destruct (hashes_length keccak_256_hex 40 [member1; member2; member3] tr
              ltac:(discriminate) ltac:(simpl; lia) Hb) as (bc & Hbc & Hlen & _).
  exists tr. split; [exact Hb|]. split; [exact H0|].
  rewrite H0 in Hbc. injection Hbc as <-.
  change (leafCountOf [member1; member2; member3]) with 4 in Hlen. lia.
Defined.

(** ** Leaves that cannot be hashed *)

Lemma arrayify_throws (text : string) :
  String.prefix "0x" text && allChars isHexDigit (slice 2 text) = false ->
  exists e, MerkleTree.arrayify (OfString text) = Throw e.
Proof.
  unfold MerkleTree.arrayify. intros ->.
  destruct (allChars isHexDigit text); eexists; reflexivity.
Qed.

Lemma hash_throws (keccak_256 : Buffer.t -> string) (text : string) :
  String.prefix "0x" text && allChars isHexDigit (slice 2 text) = false ->
  exists e, MerkleTree.hash keccak_256 (OfString text) = Throw e.
Proof.
  intros H. destruct (arrayify_throws text H) as [e He].
  exists e. unfold MerkleTree.hash, MerkleTree.keccak256. now rewrite He.
Qed.

(** A text that [arrayify] accepts has no character but hex digits and the
    "x" of the prefix. *)
Lemma accepted_characters (text : string) :
  String.prefix "0x" text && allChars isHexDigit (slice 2 text) = true ->
  allChars (fun c => isHexDigit c || Ascii.eqb c "x") text = true.
Proof.
  intros H. apply andb_true_iff in H. destruct H as [Hp Hhex].
  apply prefix_two in Hp. destruct Hp as [rest ->]. cbn [slice] in Hhex.
  cbn [allChars]. change (isHexDigit "0" || Ascii.eqb "0" "x") with true.
  change (isHexDigit "x" || Ascii.eqb "x" "x") with true. cbn [andb].
  induction rest as [|c rest IH]; [reflexivity|].
  cbn [allChars] in *. apply andb_true_iff in Hhex. destruct Hhex as [Hc Hrest].
  now rewrite Hc, IH.
Qed.

Lemma refused_character (text after : string) (c : ascii) :
  isHexDigit c || Ascii.eqb c "x" = false ->
  String.prefix "0x" (text +:+ String c after)
  && allChars isHexDigit (slice 2 (text +:+ String c after)) = false.
Proof.
  intros Hc.
  destruct (String.prefix "0x" (text +:+ String c after)
            && allChars isHexDigit (slice 2 (text +:+ String c after))) eqn:H;
    [|reflexivity].
  apply accepted_characters in H. rewrite allChars_append in H. cbn [allChars] in H.
  rewrite Hc in H. cbn [andb] in H. now rewrite andb_false_r in H.
Qed.

(** A salt before a prefixed address puts the "x" where a hex digit has to
    be. *)
Lemma refused_salt (saltDigits after : string) :
  saltDigits <> "" ->
  String.prefix "0x" (saltDigits +:+ String "0" (String "x" after))
  && allChars isHexDigit (slice 2 (saltDigits +:+ String "0" (String "x" after))) = false.
Proof.
  intros Hsalt. destruct saltDigits as [|s0 [|s1 rest]]; [congruence | |].
  - rewrite append_cons, append_nil. cbn [String.prefix].
    destruct (ascii_dec "0" s0); [|reflexivity].
    destruct (ascii_dec "x" "0"); [discriminate | reflexivity].
  - rewrite !append_cons. cbn [slice]. rewrite allChars_append. cbn [allChars].
    change (isHexDigit "x") with false. cbn [andb]. now rewrite !andb_false_r.
Qed.

(** X8: [hashLeaf] throws for a member whose earnings are negative and for
    a member whose address has the prefix "0X", whatever the salt, and for a
    member whose address has the prefix "0x" as soon as the salt is not empty:
    the text it hands to [keccak256] is then not "0x" and hex digits. With the
    empty salt it returns exactly for the members whose hashable string
    ([toHashableString] of [src/member.js]) is such a text, and what it
    returns is the digest of the bytes that the digits denote. *)
Theorem hashLeaf_throws (keccak_256 : Buffer.t -> string) (m : Member.MonoplasmaMember)
    (B : salt) :
  (Member.earnings m < 0 -> exists e, MerkleTree.hashLeaf keccak_256 m B = Throw e)
  /\ (String.prefix "0X" (Member.address m) = true ->
      exists e, MerkleTree.hashLeaf keccak_256 m B = Throw e)
  /\ (saltText B <> "" -> String.prefix "0x" (Member.address m) = true ->
      exists e, MerkleTree.hashLeaf keccak_256 m B = Throw e)
  /\ (hashable m = true ->
      MerkleTree.hashLeaf keccak_256 m (SaltString "")
      = Return (digestOf keccak_256 (hexBytes (Member.toHashableString m))))
  /\ (hashable m = false ->
      exists e, MerkleTree.hashLeaf keccak_256 m (SaltString "") = Throw e).
Proof.
  split; [|split; [|split; [|split; [apply hashLeaf_hashable | apply hashLeaf_unhashable]]]].
  - intros Hneg. unfold MerkleTree.hashLeaf, BN.ofBN, BN.toString16.
    destruct (Member.earnings m <? 0) eqn:Hlt; [|apply Z.ltb_ge in Hlt; lia].
    apply hash_throws. rewrite <- append_assoc. now apply refused_character.
  - intros H. unfold MerkleTree.hashLeaf. apply hash_throws.
    apply prefix_two in H. destruct H as [rest ->]. rewrite !append_cons.
    replace (saltText B +:+ String "0" (String "X" (rest +:+ BN.toString16
               (BN.ofBN (Member.earnings m)) 64)))
      with ((saltText B +:+ "0") +:+ String "X" (rest +:+ BN.toString16
               (BN.ofBN (Member.earnings m)) 64))
      by (rewrite append_assoc, append_cons, append_nil; reflexivity).
    now apply refused_character.
  - intros Hsalt H. unfold MerkleTree.hashLeaf. apply hash_throws.
    apply prefix_two in H. destruct H as [rest ->]. rewrite !append_cons.
    now apply refused_salt.
Qed.

Lemma hashLeaf_throws_witness :
  (exists e, MerkleTree.hashLeaf keccak_256_hex debtor (SaltString "") = Throw e)
  /\ (exists e, MerkleTree.hashLeaf keccak_256_hex member1 (SaltNumber 12) = Throw e)
  /\ exists leaf, MerkleTree.hashLeaf keccak_256_hex member1 (SaltString "") = Return leaf.
Proof.
  split; [|split].
  - apply (proj1 (hashLeaf_throws keccak_256_hex debtor (SaltString ""))).
    cbn [Member.earnings debtor]. lia.
  - apply (proj1 (proj2 (proj2 (hashLeaf_throws keccak_256_hex member1 (SaltNumber 12)))));
      [discriminate | reflexivity].
  - eexists.
    apply (proj1 (proj2 (proj2 (proj2 (hashLeaf_throws keccak_256_hex member1
                                        (SaltString "")))))).
    reflexivity.
Defined.

(** ** Digests as text *)

Lemma hexDigit_not_x (k : Z) : 0 <= k < 16 -> Ascii.eqb "x" (hexDigit k) = false.
Proof.
  intros Hk.
  assert (H : k = 0 \/ k = 1 \/ k = 2 \/ k = 3 \/ k = 4 \/ k = 5 \/ k = 6 \/ k = 7 \/ k = 8
              \/ k = 9 \/ k = 10 \/ k = 11 \/ k = 12 \/ k = 13 \/ k = 14 \/ k = 15) by lia.
  repeat (destruct H as [->|H]; [reflexivity|]). subst k. reflexivity.
Qed.

Lemma byteValue_range (x : Byte.byte) : 0 <= Buffer.byteValue x < 256.
Proof.
  unfold Buffer.byteValue. pose proof (Byte.to_N_bounded x). lia.
Qed.

Lemma byteOfValue_byteValue (x : Byte.byte) : Buffer.byteOfValue (Buffer.byteValue x) = x.
Proof.
  unfold Buffer.byteOfValue, Buffer.byteValue.
  now rewrite N2Z.id, Byte.of_to_N.
Qed.

(** A buffer read back from its hex text is the buffer. *)
Lemma fromHex_toHex (b : Buffer.t) : Buffer.fromHex (Buffer.toHex b) = b.
Proof.
  induction b as [|x b IH]; [reflexivity|].
  cbn [Buffer.toHex Buffer.fromHex].
  pose proof (byteValue_range x) as Hx.
  rewrite (hexValue_hexDigit (Buffer.byteValue x / 16)) by lia.
  rewrite (hexValue_hexDigit (Buffer.byteValue x mod 16)) by lia.
  replace (16 * (Buffer.byteValue x / 16) + Buffer.byteValue x mod 16)
    with (Buffer.byteValue x) by (apply Z.div_mod; lia).
  now rewrite byteOfValue_byteValue, IH.
Qed.

Lemma toHex_no_prefix (b : Buffer.t) : String.prefix "0x" (Buffer.toHex b) = false.
Proof.
  destruct b as [|x b]; [reflexivity|].
  cbn [Buffer.toHex String.prefix].
  pose proof (byteValue_range x) as Hx.
  destruct (ascii_dec _ _) as [_|_]; [|reflexivity].
  destruct (ascii_dec "x" (hexDigit (Buffer.byteValue x mod 16))) as [Heq|_]; [|reflexivity].
  apply Ascii.eqb_eq in Heq.
  rewrite hexDigit_not_x in Heq by (apply Z.mod_pos_bound; lia). discriminate.
Qed.

Lemma slice_digestText (b : Buffer.t) : slice 2 (digestText b) = Buffer.toHex b.
Proof. reflexivity. Qed.

(** X9: [hashCombined] gives the same digest for two buffers, for their hex
    texts, and for their texts with the prefix, the form in which [getPath]
    returns digests. *)
Theorem hashCombined_of_text (keccak_256 : Buffer.t -> string) (a b : Buffer.t) :
  MerkleTree.hashCombined keccak_256 (OfString (digestText a)) (OfString (digestText b))
  = MerkleTree.hashCombined keccak_256 (OfBuffer a) (OfBuffer b)
  /\ MerkleTree.hashCombined keccak_256 (OfString (Buffer.toHex a)) (OfString (Buffer.toHex b))
     = MerkleTree.hashCombined keccak_256 (OfBuffer a) (OfBuffer b)
  /\ MerkleTree.hashCombined keccak_256 (OfString (digestText a)) (OfBuffer b)
     = MerkleTree.hashCombined keccak_256 (OfBuffer a) (OfBuffer b)
  /\ MerkleTree.hashCombined keccak_256 (OfBuffer a) (OfBuffer b)
     = Return (digestOf keccak_256 (a ++ b)).
Proof.
  unfold MerkleTree.hashCombined.
  assert (Hp : forall c, String.prefix "0x" (digestText c) = true).
  { intros c. unfold digestText. rewrite !append_cons, append_nil. cbn [String.prefix].
    destruct (ascii_dec "0" "0") as [_|H]; [|congruence].
    destruct (ascii_dec "x" "x") as [_|H]; [now destruct (Buffer.toHex c) | congruence]. }
  rewrite !Hp, !slice_digestText, !toHex_no_prefix, !fromHex_toHex. auto.
Qed.

(** ** Rounding up, in range *)

(** X10: for every number up to 2^30, negative ones included,
    [roundUpToPowerOfTwo] returns the least power of two that is at least the
    number, and rounding the result up again changes nothing. *)
Theorem roundUpToPowerOfTwo_least (fuel : nat) (x : Z)
    (Hx : x <= 2 ^ 30)
    (Hfuel : (31 <= fuel)%nat) :
  exists p,
    MerkleTree.roundUpToPowerOfTwo fuel x = Return p
    /\ leastPowerOfTwoAtLeast x p
    /\ MerkleTree.roundUpToPowerOfTwo fuel p = Return p.
Proof.
  assert (Hin : forall y, 0 <= y <= 2 ^ 30 ->
            exists p, MerkleTree.roundUpToPowerOfTwo fuel y = Return p
                      /\ leastPowerOfTwoAtLeast y p /\ 0 <= p <= 2 ^ 30).
  { intros y Hy.
    destruct (roundUpToPowerOfTwo_spec fuel y Hy Hfuel) as (k & Hk & Hrun & _ & _ & Hleast).
    exists (2 ^ k). split; [exact Hrun|]. split; [exact Hleast|].
    split; [apply Z.pow_nonneg; lia | apply Z.pow_le_mono_r; lia]. }
  assert (Hself : forall p, 0 <= p <= 2 ^ 30 -> (exists k, 0 <= k /\ p = 2 ^ k) ->
            MerkleTree.roundUpToPowerOfTwo fuel p = Return p).
  { intros p Hp Hpow. destruct (Hin p Hp) as (q & Hrun & Hleast & _).
    rewrite Hrun. f_equal. apply (leastPowerOfTwoAtLeast_unique p); [exact Hleast|].
    split; [exact Hpow|]. split; [lia | auto]. }
  destruct (Z.le_gt_cases 0 x) as [Hpos|Hneg].
  - destruct (Hin x ltac:(lia)) as (p & Hrun & Hleast & Hp).
    exists p. split; [exact Hrun|]. split; [exact Hleast|].
    apply Hself; [exact Hp | apply Hleast].
  - exists 1.
    assert (Hone : MerkleTree.roundUpToPowerOfTwo fuel x = Return 1).
    { unfold MerkleTree.roundUpToPowerOfTwo, MerkleTree.MAX_POW_2.
      destruct (x >? 2 ^ 32) eqn:Hbig; [apply Z.gtb_lt in Hbig; lia|].
      destruct fuel as [|fuel]; [lia|]. cbn [MerkleTree.roundUpLoop].
      destruct (1 <? x) eqn:Hlt; [apply Z.ltb_lt in Hlt; lia | reflexivity]. }
    split; [exact Hone|]. split.
    + split; [exists 0; split; [lia | reflexivity]|]. split; [lia|].
      intros k Hk _. change 1 with (2 ^ 0). apply Z.pow_le_mono_r; lia.
    + apply Hself; [lia | exists 0; split; [lia | reflexivity]].
Qed.

Lemma roundUpToPowerOfTwo_least_witness :
  MerkleTree.roundUpToPowerOfTwo 40 5 = Return 8 /\ leastPowerOfTwoAtLeast 5 8.
Proof.
  destruct (roundUpToPowerOfTwo_least 40 5 ltac:(lia) ltac:(lia)) as (p & Hrun & Hleast & _).
  assert (Hp : p = 8).
  { assert (H8 : MerkleTree.roundUpToPowerOfTwo 40 5 = Return 8) by (vm_compute; reflexivity).
    rewrite H8 in Hrun. now injection Hrun as <-. }
  subst p. split; [exact Hrun | exact Hleast].
Defined.

(** ** Members to plain objects and back *)





(** ** Runs of revenue *)

Lemma sum_Permutation (xs ys : list Z) :
  Permutation xs ys -> fold_right Z.add 0 xs = fold_right Z.add 0 ys.
Proof.
  induction 1; cbn [fold_right]; lia.
Qed.

Lemma addRevenues_stops (before : list BN.input) (refused : BN.input)
    (after : list BN.input) :
  Forall (fun a => amountAccepted a = true) before ->
  amountAccepted refused = false ->
  forall m : Member.MonoplasmaMember,
  Member.addRevenues m (before ++ refused :: after)
  = (Throw (Error "Assertion failed"),
     Member.mkMember (Member.name m) (Member.address m)
       (Member.earnings m + fold_right Z.add 0 (map amountValue before))
       (Member.active m)).
Proof.
  intros Hbefore Hrefused. induction Hbefore as [|a rest Ha _ IH]; intros m.
  - cbn [app Member.addRevenues map fold_right].
    rewrite (addRevenue_refused _ _ Hrefused), Z.add_0_r. now destruct m.
  - cbn [app Member.addRevenues map fold_right]. rewrite (addRevenue_returns _ _ Ha), IH.
    cbn [Member.name Member.address Member.earnings Member.active].
    do 2 f_equal. lia.
Qed.

(** X12: a run of [addRevenue] calls with amounts that [new BN] accepts
    (BNs, and numbers below 2^53 in absolute value) returns, changes nothing
    but the earnings, which grow by the sum of the amounts, and its outcome
    does not depend on the order of the amounts. A run that meets an amount
    that [new BN] refuses throws "Assertion failed" there and leaves the
    additions made before it applied. *)
Theorem addRevenues_any_order (m : Member.MonoplasmaMember)
    (amounts amounts' : list BN.input)
    (Haccepted : Forall (fun a => amountAccepted a = true) amounts)
    (Hperm : Permutation amounts amounts') :
  Member.addRevenues m amounts = Member.addRevenues m amounts'
  /\ (exists m', Member.addRevenues m amounts = (Return tt, m')
                 /\ Member.name m' = Member.name m
                 /\ Member.address m' = Member.address m
                 /\ Member.active m' = Member.active m
                 /\ Member.earnings m'
                    = Member.earnings m + fold_right Z.add 0 (map amountValue amounts))
  /\ (forall (before : list BN.input) (refused : BN.input) (after : list BN.input),
      Forall (fun a => amountAccepted a = true) before ->
      amountAccepted refused = false ->
      exists m', Member.addRevenues m (before ++ refused :: after)
                 = (Throw (Error "Assertion failed"), m')
                 /\ Member.earnings m'
                    = Member.earnings m + fold_right Z.add 0 (map amountValue before)).
Proof.
  assert (Haccepted' : Forall (fun a => amountAccepted a = true) amounts').
  { now rewrite <- Hperm. }
  rewrite (addRevenues_value _ Haccepted), (addRevenues_value _ Haccepted').
  rewrite (sum_Permutation _ _ (Permutation_map amountValue Hperm)).
  split; [reflexivity|]. split.
  - eexists. split; [reflexivity|]. cbn. repeat split.
  - intros before refused after Hbefore Hrefused. eexists.
    split; [apply (addRevenues_stops _ _ _ Hbefore Hrefused)|]. reflexivity.
Qed.

Lemma addRevenues_any_order_witness :
  Member.addRevenues member1 [BN.Number 5; BN.Number (-3); BN.Big 10]
  = Member.addRevenues member1 [BN.Big 10; BN.Number 5; BN.Number (-3)].
Proof.
  refine (proj1 (addRevenues_any_order member1 [BN.Number 5; BN.Number (-3); BN.Big 10]
                   [BN.Big 10; BN.Number 5; BN.Number (-3)] _ _)).
  - repeat constructor.
  - symmetry. apply (Permutation_cons_append [BN.Number 5; BN.Number (-3)] (BN.Big 10)).
Defined.

(** ** Playing back after pruning *)

(** X13: right after [channelPruneCache], a playback on the watcher's own
    state is never refused by the pruning guard: it is skipped when the
    target block is not ahead, and otherwise it is the replay that runs, from
    the block after the current one. *)
Theorem playback_after_prune (Block : Type)
    (replay : Watcher.t -> Watcher.target -> Z -> Z -> Z
              -> outcome Block * (Watcher.t * Watcher.target))
    (bisectFindFirstIndex : list Watcher.message -> (Watcher.message -> bool) -> nat)
    (this : Watcher.t) (toBlock : Z) :
  let pruned := Watcher.channelPruneCache bisectFindFirstIndex this in
  let fromBlock := match Watcher.currentBlock (Watcher.plasma this) with
                   | Some b => if b + 1 =? 0 then 0 else b + 1
                   | None => 0
                   end in
  let fromTimestamp := Watcher.orZero (Watcher.currentTimestamp (Watcher.plasma this)) in
  Watcher.plasma pruned = Watcher.plasma this
  /\ Watcher.playbackUntilBlock Block replay pruned toBlock Watcher.Own
     = if toBlock <=? fromBlock then (Return None, (pruned, Watcher.Own))
       else match replay pruned Watcher.Own fromBlock fromTimestamp toBlock with
            | (Return b, after) => (Return (Some b), after)
            | (Throw e, after) => (Throw e, after)
            | (OutOfFuel, after) => (OutOfFuel, after)
            end.
Proof.
  intros pruned fromBlock fromTimestamp. split; [reflexivity|].
  unfold Watcher.playbackUntilBlock.
  cbn [Watcher.plasmaOf pruned Watcher.channelPruneCache Watcher.plasma
       Watcher.cachePrunedUpTo].
  fold fromBlock. fold fromTimestamp.
  destruct (toBlock <=? fromBlock); [reflexivity|].
  assert (Hguard : Watcher.lessThan fromTimestamp
                     (Watcher.currentTimestamp (Watcher.plasma this)) = false).
  { subst fromTimestamp. destruct (Watcher.currentTimestamp (Watcher.plasma this)) as [ts|];
      [apply Z.ltb_irrefl | reflexivity]. }
  now rewrite Hguard.
Qed.

(** ** Parsed logs *)

Lemma parseStep_frame (Args : Type) (l l' : Logs.log Args) (e : Logs.event Args) (r : outcome unit) :
  Logs.parseStep Args l e = (r, l') ->
  Logs.topics Args l' = Logs.topics Args l /\ Logs.data Args l' = Logs.data Args l.
Proof.
  unfold Logs.parseStep.
  destruct (Logs.topics Args l) as [|first ts] eqn:Ht; [now intros [= <- <-]|].
  destruct (String.eqb _ first); [|now intros [= <- <-]].
  destruct (Logs.decode Args e _ _); intros [= <- <-]; now cbn.
Qed.

Lemma parseLog_frame (Args : Type) (events : list (string * Logs.event Args)) :
  forall (l l' : Logs.log Args) (r : outcome unit),
  Logs.parseLog Args events l = (r, l') ->
  Logs.topics Args l' = Logs.topics Args l /\ Logs.data Args l' = Logs.data Args l.
Proof.
  induction events as [|[ty e] events IH]; intros l l' r Hrun; cbn [Logs.parseLog] in Hrun.
  - now injection Hrun as <- <-.
  - destruct (Logs.parseStep Args l e) as [[[]| |] l1] eqn:Hstep;
      destruct (parseStep_frame _ _ _ _ _ Hstep) as [Ht Hd].
    + destruct (IH _ _ _ Hrun) as [Ht' Hd']. now rewrite Ht', Hd'.
    + now injection Hrun as <- <-.
    + now injection Hrun as <- <-.
Qed.

Lemma parseLog_no_match (Args : Type) (events : list (string * Logs.event Args)) (l : Logs.log Args) :
  Forall (fun entry => Logs.matches Args l (snd entry) = false) events ->
  Logs.parseLog Args events l = (Return tt, l).
Proof.
  induction 1 as [|[ty e] events Hno _ IH]; [reflexivity|].
  cbn [Logs.parseLog]. cbn [snd] in Hno.
  assert (Hstep : Logs.parseStep Args l e = (Return tt, l)).
  { unfold Logs.parseStep, Logs.matches in *.
    destruct (Logs.topics Args l) as [|first ts]; [reflexivity|]. now rewrite Hno. }
  now rewrite Hstep.
Qed.

Lemma parseLog_app (Args : Type) (before after : list (string * Logs.event Args)) :
  forall l : Logs.log Args,
  Logs.parseLog Args (before ++ after) l
  = match Logs.parseLog Args before l with
    | (Return _, l') => Logs.parseLog Args after l'
    | (Throw x, l') => (Throw x, l')
    | (OutOfFuel, l') => (OutOfFuel, l')
    end.
Proof.
  induction before as [|[ty e] before IH]; intros l; [reflexivity|].
  cbn [app Logs.parseLog].
  destruct (Logs.parseStep Args l e) as [[[]| |] l1]; [apply IH | reflexivity | reflexivity].
Qed.

Lemma matches_frame (Args : Type) (l l' : Logs.log Args) (e : Logs.event Args) :
  Logs.topics Args l' = Logs.topics Args l ->
  Logs.matches Args l' e = Logs.matches Args l e.
Proof.
  unfold Logs.matches. now intros ->.
Qed.

(** X14: [parseLogs] changes nothing of a log but its [event] and [args]:
    whatever the outcome, the logs come back in the same number and order
    with their topics and data, and when no event has the first topic of any
    log, they come back unchanged. *)
Theorem parseLogs_frame (Args : Type) (events : list (string * Logs.event Args)) (logs : list (Logs.log Args)) :
  map (fun l => (Logs.topics Args l, Logs.data Args l)) (snd (Logs.parseLogs Args events logs))
  = map (fun l => (Logs.topics Args l, Logs.data Args l)) logs
  /\ (Forall (fun l => Forall (fun entry => Logs.matches Args l (snd entry) = false) events)
             logs ->
      Logs.parseLogs Args events logs = (Return tt, logs)).
Proof.
  split.
  - induction logs as [|l logs IH]; [reflexivity|].
    cbn [Logs.parseLogs].
    destruct (Logs.parseLog Args events l) as [[[]| |] l1] eqn:Hlog;
      destruct (parseLog_frame _ _ _ _ _ Hlog) as [Ht Hd].
    + destruct (Logs.parseLogs Args events logs) as [r rest'].
      cbn [snd map] in *. now rewrite Ht, Hd, IH.
    + cbn [snd map]. now rewrite Ht, Hd.
    + cbn [snd map]. now rewrite Ht, Hd.
  - induction 1 as [|l logs Hno _ IH]; [reflexivity|].
    cbn [Logs.parseLogs]. now rewrite (parseLog_no_match _ _ _ Hno), IH.
Qed.

Lemma parseLogs_frame_witness :
  Logs.parseLogs _ [("BlockCreated", blockCreatedEvent); ("Transfer", transferEvent)]
    [unknownLog; unknownLog]
  = (Return tt, [unknownLog; unknownLog]).
Proof.
  apply (parseLogs_frame _ [("BlockCreated", blockCreatedEvent); ("Transfer", transferEvent)]
           [unknownLog; unknownLog]).
  repeat constructor.
Defined.

(** X15: the last matching event wins: when the events before it are parsed
    without an exception, the event's [decode] returns, and no later event
    has the first topic of the log, the log carries the name of that event
    and the arguments it decoded from the log's data and topics. *)
Theorem parseLog_last_match (Args : Type) (before after : list (string * Logs.event Args)) (type : string)
    (e : Logs.event Args) (l l1 : Logs.log Args) (args : Args)
    (Hbefore : Logs.parseLog Args before l = (Return tt, l1))
    (Hmatch : Logs.matches Args l e = true)
    (Hdecode : Logs.decode Args e (Logs.data Args l) (Logs.topics Args l) = Return args)
    (Hafter : Forall (fun entry => Logs.matches Args l (snd entry) = false) after) :
  Logs.parseLogs Args (before ++ (type, e) :: after) [l]
  = (Return tt,
     [Logs.mkLog Args (Logs.topics Args l) (Logs.data Args l)
        (Some (Logs.eventName Args e)) (Some args)]).
Proof.
  destruct (parseLog_frame _ _ _ _ _ Hbefore) as [Ht Hd].
  cbn [Logs.parseLogs]. rewrite parseLog_app, Hbefore. cbn [Logs.parseLog].
  assert (Hstep : Logs.parseStep Args l1 e
                  = (Return tt, Logs.mkLog Args (Logs.topics Args l) (Logs.data Args l)
                                  (Some (Logs.eventName Args e)) (Some args))).
  { unfold Logs.parseStep, Logs.matches in *. rewrite Ht, Hd.
    destruct (Logs.topics Args l) as [|first ts]; [discriminate|].
    now rewrite Hmatch, Hdecode. }
  rewrite Hstep, parseLog_no_match; [reflexivity|].
  eapply Forall_impl; [exact Hafter|].
  intros entry Hno. rewrite <- Hno. now apply matches_frame.
Qed.

Lemma parseLog_last_match_witness :
  Logs.parseLogs _ ([("BlockCreated", blockCreatedEvent); ("Transfer", transferEvent)]
                    ++ ("Transfer(address,address,uint256)", transferEvent) :: [])
    [transferLog]
  = (Return tt,
     [Logs.mkLog _ ["0xddf2"; "0x01"; "0x02"] "0x64" (Some "Transfer")
        (Some ("0x64", ["0xddf2"; "0x01"; "0x02"]))]).
Proof.
  apply (parseLog_last_match _ [("BlockCreated", blockCreatedEvent); ("Transfer", transferEvent)]
           [] "Transfer(address,address,uint256)" transferEvent transferLog
           (Logs.mkLog _ ["0xddf2"; "0x01"; "0x02"] "0x64" (Some "Transfer")
              (Some ("0x64", ["0xddf2"; "0x01"; "0x02"])))
           ("0x64", ["0xddf2"; "0x01"; "0x02"]));
    [reflexivity | reflexivity | reflexivity | constructor].
Defined.

(** ** The cache of block timestamps *)

(** X16: a block's timestamp is asked for once: when [getBlockTimestamp] has
    returned a value for a block, every later call for that block returns the
    same value from the cache, whatever the provider would answer; the cache
    only grows, and a failed call leaves it as it was. *)
Theorem getBlockTimestamp_cached (blockTimestamp : Z -> outcome Z) (cache cache' : gmap Z Z)
    (blockNumber : Z) (r : outcome Z)
    (Hcall : BlockTimestamps.getBlockTimestamp blockTimestamp cache blockNumber = (r, cache')) :
  (forall k v, cache !! k = Some v -> cache' !! k = Some v)
  /\ (forall k, k <> blockNumber -> cache' !! k = cache !! k)
  /\ (forall v, r = Return v ->
      forall again : Z -> outcome Z,
      BlockTimestamps.getBlockTimestamp again cache' blockNumber = (Return v, cache'))
  /\ ((forall v, r <> Return v) -> cache' = cache).
Proof.
  unfold BlockTimestamps.getBlockTimestamp in *.
  destruct (cache !! blockNumber) as [cached|] eqn:Hhit.
  - injection Hcall as <- <-. repeat split; auto.
    + intros v [= <-] again. now rewrite Hhit.
  - destruct (blockTimestamp blockNumber) as [seconds| |]; injection Hcall as <- <-.
    + split; [|split; [|split]].
      * intros k v Hk. destruct (Z.eq_dec k blockNumber) as [->|Hne]; [congruence|].
        now rewrite lookup_insert_ne.
      * intros k Hne. now rewrite lookup_insert_ne.
      * intros v [= <-] again. now rewrite lookup_insert_eq.
      * intros Hfail. now destruct (Hfail (seconds * 1000)).
    + repeat split; auto. intros v Hv. discriminate Hv.
    + repeat split; auto. intros v Hv. discriminate Hv.
Qed.

Lemma getBlockTimestamp_cached_witness :
  BlockTimestamps.getBlockTimestamp (fun _ => Throw (Error "no provider"))
    (<[12 := 1600000000000]> ∅) 12
  = (Return 1600000000000, <[12 := 1600000000000]> ∅).
Proof.
  assert (H : BlockTimestamps.getBlockTimestamp (fun _ => Return 1600000000) ∅ 12
              = (Return 1600000000000, <[12 := 1600000000000]> ∅)) by reflexivity.
  destruct (getBlockTimestamp_cached _ _ _ _ _ H) as (_ & _ & Hagain & _).
  exact (Hagain 1600000000000 eq_refl (fun _ => Throw (Error "no provider"))).
Defined.

(** ** Answers of the communities router *)

Lemma route_inversion (Member : Type) (getAddress : string -> outcome string)
    (handler : option (Router.Operator Member) -> outcome (Router.response Member))
    (communities : gmap string (Router.Community Member)) (communityAddress : string)
    (resp : Router.response Member) :
  Router.route Member getAddress handler communities communityAddress = Return resp ->
  (Router.status Member resp = 400
   /\ (Router.parseAddress getAddress communityAddress = None
       \/ Router.parseAddress getAddress communityAddress = Some ""
       \/ exists a, Router.parseAddress getAddress communityAddress = Some a
                    /\ communities !! a = None))
  \/ exists a community,
       Router.parseAddress getAddress communityAddress = Some a /\ a <> ""
       /\ communities !! a = Some community
       /\ handler (Router.operator Member community) = Return resp.
Proof.
  unfold Router.route, Router.parseOperator.
  destruct (Router.parseAddress getAddress communityAddress) as [a|];
    [|intros [= <-]; left; auto].
  destruct (String.eqb_spec a "") as [->|Hne]; [intros [= <-]; left; auto|].
  destruct (communities !! a) as [community|] eqn:Hc.
  - intros Hrun. right. now exists a, community.
  - intros [= <-]. left. split; [reflexivity|]. right. right. now exists a.
Qed.

Lemma getMemberStats_inversion (Member : Type) (getAddress : string -> outcome string)
    (newBN : string -> outcome Z) (operator : option (Router.Operator Member))
    (communityAddress address : string) (resp : Router.response Member) :
  Router.getMemberStats Member getAddress newBN operator communityAddress address
  = Return resp ->
  exists plasma,
    Router.plasmaOf Member operator = Return plasma
    /\ ((Router.status Member resp = 400
         /\ (Router.parseAddress getAddress address = None
             \/ Router.parseAddress getAddress address = Some ""))
        \/ exists p a,
             plasma = Some p /\ Router.parseAddress getAddress address = Some a /\ a <> ""
             /\ ((Router.status Member resp = 404
                  /\ Router.getMember Member p a = Return None)
                 \/ exists m r w stats,
                      resp = Router.mkResponse Member 200 (Router.MemberBody Member stats)
                      /\ Router.getMember Member p a = Return (Some m)
                      /\ Router.member Member stats = m
                      /\ Router.recordedEarnings Member stats
                         = Router.earningsIn (Router.getLatestBlock Member p) a
                      /\ Router.withdrawableEarnings Member stats
                         = Router.earningsIn (Router.getLatestWithdrawableBlock Member p) a
                      /\ newBN (Router.recordedEarnings Member stats) = Return r
                      /\ newBN (Router.withdrawableEarnings Member stats) = Return w
                      /\ Router.frozenEarnings Member stats = BN.toString10 (r - w)
                      /\ match Router.getLatestWithdrawableBlock Member p with
                         | Some b =>
                             Router.withdrawableBlockNumber Member stats
                             = Some (Router.blockNumber b)
                             /\ exists path,
                                  Router.getProofAt Member p a (Router.blockNumber b)
                                  = Return path
                                  /\ Router.proof Member stats = Some path
                         | None =>
                             Router.withdrawableBlockNumber Member stats = None
                             /\ Router.proof Member stats = None
                         end)).
Proof.
  unfold Router.getMemberStats.
  destruct (Router.plasmaOf Member operator) as [plasma| |]; try discriminate.
  cbn [mbind outcome_bind]. intros Hrun. exists plasma. split; [reflexivity|].
  destruct (Router.parseAddress getAddress address) as [a|];
    [|injection Hrun as <-; left; auto].
  destruct (String.eqb_spec a "") as [Heq|Hne];
    [injection Hrun as <-; left; split; [reflexivity | right; now rewrite Heq]|].
  destruct plasma as [p|]; [|discriminate].
  right. exists p, a. split; [reflexivity|]. split; [reflexivity|]. split; [exact Hne|].
  destruct (Router.getMember Member p a) as [[m|]| |]; try discriminate;
    cbn [mbind outcome_bind] in Hrun; [|injection Hrun as <-; left; auto].
  destruct (newBN (Router.earningsIn (Router.getLatestBlock Member p) a)) as [r| |] eqn:Hr;
    try discriminate.
  cbn [mbind outcome_bind] in Hrun.
  destruct (newBN (Router.earningsIn (Router.getLatestWithdrawableBlock Member p) a))
    as [w| |] eqn:Hw; try discriminate.
  cbn [mbind outcome_bind] in Hrun.
  right. exists m, r, w.
  destruct (Router.getLatestWithdrawableBlock Member p) as [b|].
  - destruct (Router.getProofAt Member p a (Router.blockNumber b)) as [path| |] eqn:Hp;
      try discriminate.
    cbn [mbind outcome_bind] in Hrun. injection Hrun as <-.
    eexists. split; [reflexivity|]. cbn. repeat split; auto. now exists path.
  - injection Hrun as <-. eexists. split; [reflexivity|]. cbn. repeat split; auto.
Qed.

Lemma plasmaOf_inversion (Member : Type) (operator : option (Router.Operator Member))
    (plasma : option (Router.Plasma Member)) :
  Router.plasmaOf Member operator = Return plasma ->
  exists o w, operator = Some o /\ Router.watcher Member o = Some w
              /\ Router.plasma Member w = plasma.
Proof.
  unfold Router.plasmaOf. destruct operator as [o|]; [|discriminate].
  destruct (Router.watcher Member o) as [w|] eqn:Hw; [|discriminate].
  intros [= <-]. now exists o, w.
Qed.

(** X17: the route of a member answers 200, 400 or 404 when it answers, and
    it sends a member only when both addresses parse, the community is
    operated and has a state, and the state knows the member; 404 means that
    the state does not know the member. *)
Theorem member_route_status (Member : Type) (getAddress : string -> outcome string)
    (newBN : string -> outcome Z) (communities : gmap string (Router.Community Member))
    (communityAddress address : string) (resp : Router.response Member)
    (Hresp : Router.routeMemberStats Member getAddress newBN communities communityAddress
               address = Return resp) :
  (Router.status Member resp = 200 \/ Router.status Member resp = 400
   \/ Router.status Member resp = 404)
  /\ (Router.status Member resp <> 400 ->
      exists ca community o w p a,
        Router.parseAddress getAddress communityAddress = Some ca
        /\ communities !! ca = Some community
        /\ Router.operator Member community = Some o
        /\ Router.watcher Member o = Some w
        /\ Router.plasma Member w = Some p
        /\ Router.parseAddress getAddress address = Some a
        /\ ((Router.status Member resp = 404 /\ Router.getMember Member p a = Return None)
            \/ exists m stats,
                 resp = Router.mkResponse Member 200 (Router.MemberBody Member stats)
                 /\ Router.getMember Member p a = Return (Some m)
                 /\ Router.member Member stats = m)).
Proof.
  unfold Router.routeMemberStats in Hresp.
  apply route_inversion in Hresp.
  destruct Hresp as [[H400 _] | (ca & community & Hca & _ & Hcom & Hrun)];
    [split; [auto | congruence]|].
  apply getMemberStats_inversion in Hrun.
  destruct Hrun as (plasma & Hplasma & [[H400 _] | (p & a & -> & Ha & _ & Hcases)]);
    [split; [auto | congruence]|].
  destruct (plasmaOf_inversion _ _ _ Hplasma) as (o & w & Ho & Hw & Hp).
  assert (Hstatus : Router.status Member resp = 200 \/ Router.status Member resp = 400
                    \/ Router.status Member resp = 404).
  { destruct Hcases as [[H404 _] | (m & r & w' & stats & -> & _)]; [auto | left; reflexivity]. }
  split; [exact Hstatus|]. intros _.
  exists ca, community, o, w, p, a. repeat (split; [assumption|]).
  destruct Hcases as [H404 | (m & r & w' & stats & Hr & Hm & Hs & _)]; [left; exact H404|].
  right. now exists m, stats.
Qed.

Lemma member_route_status_witness :
  exists resp,
    Router.routeMemberStats _ sampleGetAddress newBN_decimal sampleCommunities address1
      "0x0000000000000000000000000000000000000001" = Return resp
    /\ Router.status _ resp = 404.
Proof.
  assert (H : exists resp,
             Router.routeMemberStats _ sampleGetAddress newBN_decimal sampleCommunities
               address1 "0x0000000000000000000000000000000000000001" = Return resp
             /\ Router.status _ resp = 404)
    by (eexists; split; vm_compute; reflexivity).
  destruct H as (resp & Hrun & H404). exists resp. split; [exact Hrun|].
  destruct (member_route_status _ _ _ _ _ _ _ Hrun) as [_ Hmember].
  destruct (Hmember ltac:(rewrite H404; discriminate))
    as (_ & _ & _ & _ & _ & _ & _ & _ & _ & _ & _ & _ & [[Hs _] | (m & stats & -> & _)]);
    [exact Hs | discriminate H404].
Defined.



(** ** Proofs that lead to the published root *)

(** X19: the proof of a member leads to the root: for a list without
    repeated addresses, all of whose members have a leaf ([hashLeaf] returns
    for each: a prefixed hex address and earnings that are not negative),
    the proof that [getProof] gives a member with earnings is a path from
    the member's own leaf digest to the digest that [getRootHash] returns. *)
Theorem getProof_leads_to_root (keccak_256 : Buffer.t -> string) (fuel : nat)
    (members : list Member.MonoplasmaMember) (m : Member.MonoplasmaMember)
    (Hin : In m members)
    (Hnodup : NoDup (map Member.address members))
    (Hall : Forall (fun m => hashable m = true) members)
    (Hearnings : 0 < Member.earnings m)
    (Hsmall : leafCountOf members <= 2 ^ 30)
    (Hfuel : (32 + length members <= fuel)%nat)
    (Hnonzero : noZeroDigest keccak_256 members = true) :
  exists (leaf : Buffer.t) (sibs : list Buffer.t),
    MerkleTree.hashLeaf keccak_256 m (SaltString "") = Return leaf
    /\ fst (MerkleTree.getProof keccak_256 fuel m (MerkleTree.new members))
       = Return (map digestText sibs)
    /\ fst (MerkleTree.getRootHash keccak_256 fuel (MerkleTree.new members))
       = Return (digestText (recomputeRoot keccak_256 leaf sibs)).
Proof.
  assert (Hne : members <> []) by (now destruct members).
  destruct (buildMerkleTree_spec keccak_256 fuel members Hne Hall Hsmall Hfuel)
    as (tr & d & Hbuild & W).
  pose proof W as (Hd & H0 & _ & Hnodes & _ & _ & Hkeys).
  destruct (Hkeys m Hin) as [i Hi].
  destruct (indexOf_last _ _ _ _ _ _ Hfuel Hbuild Hi)
    as (j & m' & B & Hj & Ha & _ & HB & -> & Hleaf & _).
  rewrite H0 in HB. injection HB as <-.
  assert (Hsame : m' = m).
  { apply list_elem_of_In, list_elem_of_lookup_1 in Hin. destruct Hin as [j0 Hj0].
    pose proof (find_unique _ _ Hnodup j m' Hj Ha) as H1.
    pose proof (find_unique _ _ Hnodup j0 m Hj0 eq_refl) as H2. congruence. }
  subst m'.
  assert (Hjlen : (j < length (leafDigests keccak_256 members))%nat).
  { unfold leafDigests. rewrite length_map. now apply lookup_lt_Some in Hj. }
  destruct (path_recomputes _ _ _ _ W Hnonzero d O j fuel ltac:(lia) Hjlen ltac:(lia))
    as (sibs & Hpath & Hroot).
  cbn [levelAbove] in Hroot.
  replace (nth j (leafDigests keccak_256 members) [])
    with (leafDigest keccak_256 m) in Hroot
    by (symmetry; unfold leafDigests; exact (nth_map_lookup _ members j m [] Hj)).
  exists (leafDigest keccak_256 m), sibs. split; [exact Hleaf|]. split.
  - assert (Hzero : BN.ofNumber 0 = Return 0) by reflexivity.
    unfold MerkleTree.getProof, BN.gt. rewrite Hzero.
    destruct (Member.earnings m >? 0) eqn:Hgt;
      [|rewrite Z.gtb_ltb in Hgt; apply Z.ltb_ge in Hgt; lia].
    rewrite (getPath_new _ _ _ _ _ Hne Hbuild), (readIndex_own _ _ _ Hi). cbn [fst].
    pose proof (pow2_pos d).
    destruct (pow2 d + Z.of_nat j =? 0) eqn:Hz; [apply Z.eqb_eq in Hz; lia|].
    rewrite Hpath. cbn [mbind outcome_bind]. apply mapM_digestText.
  - rewrite (getRootHash_new _ _ _ Hne Hall Hsmall Hfuel). do 2 f_equal.
    pose proof (wellBuilt_root _ _ _ _ Hne W) as Htop.
    assert (Hlen : (0 < length (levelAbove keccak_256 d (leafDigests keccak_256 members)))%nat).
    { pose proof (levelAbove_nonempty keccak_256 (leafDigests keccak_256 members) d). lia. }
    specialize (Hnodes d O ltac:(lia) Hlen).
    rewrite Nat.sub_diag in Hnodes. change (pow2 0 + Z.of_nat 0) with 1 in Hnodes.
    rewrite Htop in Hnodes. injection Hnodes as ->. now rewrite Hroot.
Qed.

Lemma getProof_leads_to_root_witness :
  exists (leaf : Buffer.t) (sibs : list Buffer.t),
    MerkleTree.hashLeaf keccak_256_hex member2 (SaltString "") = Return leaf
    /\ fst (MerkleTree.getProof keccak_256_hex 40 member2
              (MerkleTree.new [member1; member2; member3]))
       = Return (map digestText sibs)
    /\ fst (MerkleTree.getRootHash keccak_256_hex 40
              (MerkleTree.new [member1; member2; member3]))
       = Return (digestText (recomputeRoot keccak_256_hex leaf sibs)).
Proof.
  apply (getProof_leads_to_root keccak_256_hex 40 [member1; member2; member3] member2).
  - right. left. reflexivity.
  - cbn [map Member.address member1 member2 member3].
    repeat (apply NoDup_cons; split; [intros Hin; repeat (apply elem_of_cons in Hin as [Hin|Hin]; [discriminate Hin|]); now apply elem_of_nil in Hin|]).
    apply NoDup_nil_2.
  - repeat constructor.
  - cbn [Member.earnings member2]. lia.
  - vm_compute. discriminate.
  - simpl. lia.
  - vm_compute. reflexivity.
Defined.

(** X20: the route of a community answers 200 only for an operated
    community whose watcher has a state, and 500 "Faulty operator" when the
    watcher has none; a community address that does not parse or is not
    operated gets 400 from the middleware, on this route as on the member's. *)
Theorem community_route_status (Member : Type) (getAddress : string -> outcome string)
    (newBN : string -> outcome Z) (communities : gmap string (Router.Community Member))
    (communityAddress : string) (resp : Router.response Member)
    (Hresp : Router.routeCommunity Member getAddress communities communityAddress
             = Return resp) :
  (Router.status Member resp = 400
   /\ forall address,
      Router.routeMemberStats Member getAddress newBN communities communityAddress address
      = Return resp)
  \/ exists a community o w,
       Router.parseAddress getAddress communityAddress = Some a
       /\ communities !! a = Some community
       /\ Router.operator Member community = Some o
       /\ Router.watcher Member o = Some w
       /\ match Router.plasma Member w with
          | Some _ => resp = Router.mkResponse Member 200 (Router.StatusOk Member)
          | None => resp = Router.mkResponse Member 500
                             (Router.ErrorBody Member "Faulty operator")
          end.
Proof.
  unfold Router.routeCommunity, Router.routeMemberStats, Router.route in *.
  destruct (Router.parseOperator Member getAddress communities communityAddress)
    as [refused|operator] eqn:Hmw.
  - injection Hresp as <-. left. split; [|reflexivity].
    unfold Router.parseOperator in Hmw.
    destruct (Router.parseAddress getAddress communityAddress) as [a|];
      [|now injection Hmw as <-].
    destruct (String.eqb a ""); [now injection Hmw as <-|].
    destruct (communities !! a); [discriminate | now injection Hmw as <-].
  - right. unfold Router.parseOperator in Hmw.
    destruct (Router.parseAddress getAddress communityAddress) as [a|]; [|discriminate].
    destruct (String.eqb a ""); [discriminate|].
    destruct (communities !! a) as [community|] eqn:Hc; [|discriminate].
    injection Hmw as <-. unfold Router.getCommunity in Hresp.
    destruct (Router.plasmaOf Member (Router.operator Member community)) as [plasma| |] eqn:Hp;
      try discriminate.
    cbn [mbind outcome_bind] in Hresp.
    destruct (plasmaOf_inversion _ _ _ Hp) as (o & w & Ho & Hw & Hpl).
    exists a, community, o, w. repeat (split; [assumption || reflexivity|]).
    rewrite Hpl. destruct plasma; now injection Hresp as <-.
Qed.

Lemma community_route_status_witness :
  Router.routeCommunity _ sampleGetAddress sampleCommunities address1
  = Return (Router.mkResponse _ 200 (Router.StatusOk _)).
Proof.
  assert (H : exists resp,
             Router.routeCommunity _ sampleGetAddress sampleCommunities address1 = Return resp
             /\ resp = Router.mkResponse _ 200 (Router.StatusOk _))
    by (eexists; split; vm_compute; reflexivity).
  destruct H as (resp & Hrun & Hresp).
  destruct (community_route_status _ _ newBN_decimal _ _ _ Hrun) as [[H400 _]|_];
    [rewrite Hresp in H400; discriminate H400|].
  now rewrite Hrun, Hresp.
Defined.

(** ** Validating twice *)

(** X21: [validateAddress] is idempotent, whatever [isAddress] accepts: the
    string it returns is accepted by [isAddress] and passes the validation
    again unchanged, so a stored address can be validated any number of
    times. *)
Theorem validateAddress_idempotent (isAddress : string -> bool) (address extended : string)
    (Hvalid : Member.validateAddress isAddress address = Return extended) :
  isAddress extended = true
  /\ Member.validateAddress isAddress extended = Return extended.
Proof.
  unfold Member.validateAddress in Hvalid.
  destruct (isAddress (if (String.length address =? 40)%nat then "0x" +:+ address else address))
    eqn:Haccepted; [|discriminate].
  cbn [negb] in Hvalid. injection Hvalid as <-. split; [exact Haccepted|].
  assert (Hlen : (String.length (if (String.length address =? 40)%nat
                                 then "0x" +:+ address else address) =? 40)%nat = false).
  { destruct (String.length address =? 40)%nat eqn:Hl; [|exact Hl].
    apply Nat.eqb_eq in Hl. now rewrite length_append, Hl. }
  unfold Member.validateAddress. now rewrite Hlen, Haccepted.
Qed.

Lemma validateAddress_idempotent_witness :
  Member.validateAddress Web3.isAddress ("0x" +:+ "2F428050ea2448ed2e4409bE47e1A50eBac0B2d2")
  = Return ("0x" +:+ "2F428050ea2448ed2e4409bE47e1A50eBac0B2d2").
Proof.
  apply (validateAddress_idempotent Web3.isAddress "2F428050ea2448ed2e4409bE47e1A50eBac0B2d2").
  vm_compute. reflexivity.
Defined.

(** ** Empty contents *)

(** X22: a [MerkleTree] object with empty contents answers nothing: as long
    as its contents are the empty list, [getContents], [getPath] and
    [getRootHash] throw the empty-contents error and leave the object as it
    is, even when a tree built earlier is still cached. *)
Theorem empty_contents_throw (keccak_256 : Buffer.t -> string) (fuel : nat)
    (this : MerkleTree.t) (address : string)
    (Hempty : MerkleTree.contents this = []) :
  let refused := Error "Can't construct a MerkleTree with empty contents!" in
  MerkleTree.getContents keccak_256 fuel this = (Throw refused, this)
  /\ MerkleTree.getPath keccak_256 fuel this address = (Throw refused, this)
  /\ MerkleTree.getRootHash keccak_256 fuel this = (Throw refused, this).
Proof.
  unfold MerkleTree.getPath, MerkleTree.getRootHash, MerkleTree.getContents.
  rewrite Hempty. cbn [length Nat.eqb]. auto.
Qed.

Lemma empty_contents_throw_witness :
  let built := snd (MerkleTree.getRootHash keccak_256_hex 40 (MerkleTree.new [member1])) in
  MerkleTree.cached built <> None
  /\ MerkleTree.getRootHash keccak_256_hex 40 (MerkleTree.update built [])
     = (Throw (Error "Can't construct a MerkleTree with empty contents!"),
        MerkleTree.update built []).
Proof.
  split; [vm_compute; discriminate|].
  apply (empty_contents_throw keccak_256_hex 40
           (MerkleTree.update
              (snd (MerkleTree.getRootHash keccak_256_hex 40 (MerkleTree.new [member1]))) [])
           "").
  reflexivity.
Defined.
